(** * qq-farm-bot: the farm engine, embedded and checked against its specification

    Shallow embedding of the farm module (land analysis, per-plot executors,
    replant pipeline, scheduling controller) and of the yield optimizer of
    the game-configuration module, followed by the properties the
    specification states about them.

    Conventions of the embedding.
    - Protobuf integers ([Long] or number, read through [toNum]) are [Z];
      array lengths and counters of plots are [nat].
    - [getServerTimeSec()] and [Date.now()] are read once per call of the
      source function; the value read is an explicit argument ([nowSec],
      [now], or a field of [CycleClock]).  [analyzeLands] reads the clock
      once and calls [getCurrentPhase], which reads it again, for every
      plot that has a plant: the reading made for the plot at position [i]
      is [phaseClock i], and nothing is assumed about how the readings
      compare.
    - [toTimeSec], the [PlantPhase] constants and the configuration tables
      live in modules that are not part of the sources at hand; they are the
      fields of the class [Collaborators], and every property holds for all
      of their values unless it says otherwise.
    - An asynchronous function is a computation of the monad [M] over the
      engine state; a rejected call is the exception case.  The remote
      service is any function of the call's index in the run and of the
      request.
    - Arithmetic of the yield optimizer is carried out on exact rationals.
    - Display strings (plot names, log lines) and the debug output are left
      out, except the grouping of plot summaries into status lines; warnings
      are counted. *)

From Stdlib Require Import ZArith List Bool Lia QArith Qminmax Lqa Sorted
  Permutation.
From Stdlib Require String Ascii.
From stdpp Require Import base gmap.
Import ListNotations.
Open Scope Z_scope.

(** ** Data model *)

Record Phase := mkPhase {
  phase       : Z;   (* phase tag *)
  begin_time  : Z;
  dry_time    : Z;
  weeds_time  : Z;
  insect_time : Z
}.

Record Plant := mkPlant {
  plant_id      : Z;
  phases        : list Phase;
  dry_num       : Z;
  weed_owners   : list Z;
  insect_owners : list Z
}.

Record Land := mkLand {
  land_id  : Z;
  unlocked : bool;
  plant    : option Plant
}.

(** One entry of [Plant.json]; [grow_phases] holds, per non-empty segment of
    the semicolon-separated string, the number matched by [/:(\d+)/], if
    any. *)
Record PlantCfg := mkPlantCfg {
  cfg_id          : Z;
  cfg_seed_id     : Z;
  cfg_exp         : Z;
  cfg_grow_phases : list (option Z)
}.

(** One row of the seed-shop export after the alias resolution and
    [toNumLocal] coercion of [normalizeSeedRow]; [raw_exp] is [None] when the
    row has no finite [exp]. *)
Record RawSeed := mkRawSeed {
  raw_seedId        : Z;
  raw_goodsId       : Z;
  raw_requiredLevel : Z;
  raw_price         : Z;
  raw_unlocked      : bool;
  raw_plantId       : Z;
  raw_exp           : option Q;
  raw_growTimeSec   : Q
}.

(** What the farm module imports from modules outside the sources at hand
    ([utils], [config]) and the tables read at load time. *)
Class Collaborators := {
  toTimeSec    : Z -> Z;
  MATURE       : Z;
  DEAD         : Z;
  plantMap     : gmap Z PlantCfg;
  seedToPlant  : gmap Z PlantCfg;
  seedShopRows : list RawSeed
}.

(** ** Game configuration lookups *)

Definition getPlantGrowTime `{Collaborators} (plantId : Z) : Z :=
  match plantMap !! plantId with
  | None => 0
  | Some p =>
      fold_left (fun totalSeconds m =>
                   match m with
                   | Some n => totalSeconds + n
                   | None => totalSeconds
                   end) (cfg_grow_phases p) 0
  end.

Definition getPlantExp `{Collaborators} (plantId : Z) : Z :=
  match plantMap !! plantId with
  | Some p => cfg_exp p
  | None => 0
  end.

Definition getPlantBySeedId `{Collaborators} (seedId : Z) : option PlantCfg :=
  seedToPlant !! seedId.

(** ** Land State Analyzer *)

Definition begun `{Collaborators} (nowSec : Z) (p : Phase) : bool :=
  (0 <? toTimeSec (begin_time p)) && (toTimeSec (begin_time p) <=? nowSec).

(** [getCurrentPhase]: the loop runs [i] from the last index down to 0 and
    returns at the first hit, which is [find] on the reversed list. *)
Definition getCurrentPhase `{Collaborators} (phases : list Phase) (nowSec : Z)
  : option Phase :=
  match phases with
  | [] => None
  | first :: _ =>
      match find (begun nowSec) (rev phases) with
      | Some p => Some p
      | None => Some first
      end
  end.

Record RemainInfo := mkRemainInfo {
  remainingSec : Z;
  known        : bool
}.

(** Loop body of [getRemainingToMatureInfo]; the accumulator is
    [(matureBegin, earliestBegin)]. *)
Definition remainStep `{Collaborators} (acc : Z * Z) (p : Phase) : Z * Z :=
  let '(matureBegin, earliestBegin) := acc in
  let begin := toTimeSec (begin_time p) in
  let earliestBegin' :=
    if (0 <? begin) && ((earliestBegin =? 0) || (begin <? earliestBegin))
    then begin else earliestBegin in
  let matureBegin' :=
    if (phase p =? MATURE) && (0 <? begin)
       && ((matureBegin =? 0) || (begin <? matureBegin))
    then begin else matureBegin in
  (matureBegin', earliestBegin').

Definition getRemainingToMatureInfo `{Collaborators}
  (phases : list Phase) (nowSec totalGrowTime : Z) : RemainInfo :=
  match phases with
  | [] => mkRemainInfo 0 false
  | _ =>
      let '(matureBegin, earliestBegin) := fold_left remainStep phases (0, 0) in
      if 0 <? matureBegin then
        mkRemainInfo (Z.max 0 (matureBegin - nowSec)) true
      else if (0 <? totalGrowTime) && (0 <? earliestBegin) then
        let elapsed := Z.max 0 (nowSec - earliestBegin) in
        mkRemainInfo (Z.max 0 (totalGrowTime - elapsed)) true
      else mkRemainInfo 0 false
  end.

Definition getRemainingToMatureSec `{Collaborators}
  (phases : list Phase) (nowSec totalGrowTime : Z) : Z :=
  remainingSec (getRemainingToMatureInfo phases nowSec totalGrowTime).

(** Compact per-plot record of the snapshot ([type] is the constructor). *)
Inductive LandSnapshot :=
| SnapLock (id : Z)
| SnapEmpty (id : Z)
| SnapDead (id : Z)
| SnapMature (id totalGrowTime : Z)
| SnapGrowing (id totalGrowTime remaining : Z) (remainingKnown : bool).

Record HarvestInfo := mkHarvestInfo {
  hi_landId  : Z;
  hi_plantId : Z;
  hi_exp     : Z
}.

(** The [result] object of [analyzeLands]. *)
Record LandStatus := mkLandStatus {
  harvestable     : list Z;
  needWater       : list Z;
  needWeed        : list Z;
  needBug         : list Z;
  growing         : list Z;
  empty           : list Z;
  dead            : list Z;
  harvestableInfo : list HarvestInfo;
  landSnapshots   : list LandSnapshot;
  minRemainingSec : option Z;
  serverTimeSec   : Z;
  unlockedCount   : nat
}.

Definition emptyStatus (nowSec : Z) : LandStatus :=
  mkLandStatus [] [] [] [] [] [] [] [] [] None nowSec 0.

(** In-place updates of [result], one per mutated field. *)
Definition push_harvestable (id : Z) (r : LandStatus) : LandStatus :=
  mkLandStatus (harvestable r ++ [id]) (needWater r) (needWeed r) (needBug r)
    (growing r) (empty r) (dead r) (harvestableInfo r) (landSnapshots r)
    (minRemainingSec r) (serverTimeSec r) (unlockedCount r).

Definition push_needWater (id : Z) (r : LandStatus) : LandStatus :=
  mkLandStatus (harvestable r) (needWater r ++ [id]) (needWeed r) (needBug r)
    (growing r) (empty r) (dead r) (harvestableInfo r) (landSnapshots r)
    (minRemainingSec r) (serverTimeSec r) (unlockedCount r).

Definition push_needWeed (id : Z) (r : LandStatus) : LandStatus :=
  mkLandStatus (harvestable r) (needWater r) (needWeed r ++ [id]) (needBug r)
    (growing r) (empty r) (dead r) (harvestableInfo r) (landSnapshots r)
    (minRemainingSec r) (serverTimeSec r) (unlockedCount r).

Definition push_needBug (id : Z) (r : LandStatus) : LandStatus :=
  mkLandStatus (harvestable r) (needWater r) (needWeed r) (needBug r ++ [id])
    (growing r) (empty r) (dead r) (harvestableInfo r) (landSnapshots r)
    (minRemainingSec r) (serverTimeSec r) (unlockedCount r).

Definition push_growing (id : Z) (r : LandStatus) : LandStatus :=
  mkLandStatus (harvestable r) (needWater r) (needWeed r) (needBug r)
    (growing r ++ [id]) (empty r) (dead r) (harvestableInfo r)
    (landSnapshots r) (minRemainingSec r) (serverTimeSec r) (unlockedCount r).

Definition push_empty (id : Z) (r : LandStatus) : LandStatus :=
  mkLandStatus (harvestable r) (needWater r) (needWeed r) (needBug r)
    (growing r) (empty r ++ [id]) (dead r) (harvestableInfo r)
    (landSnapshots r) (minRemainingSec r) (serverTimeSec r) (unlockedCount r).

Definition push_dead (id : Z) (r : LandStatus) : LandStatus :=
  mkLandStatus (harvestable r) (needWater r) (needWeed r) (needBug r)
    (growing r) (empty r) (dead r ++ [id]) (harvestableInfo r)
    (landSnapshots r) (minRemainingSec r) (serverTimeSec r) (unlockedCount r).

Definition push_harvestableInfo (i : HarvestInfo) (r : LandStatus)
  : LandStatus :=
  mkLandStatus (harvestable r) (needWater r) (needWeed r) (needBug r)
    (growing r) (empty r) (dead r) (harvestableInfo r ++ [i])
    (landSnapshots r) (minRemainingSec r) (serverTimeSec r) (unlockedCount r).

Definition push_snapshot (s : LandSnapshot) (r : LandStatus) : LandStatus :=
  mkLandStatus (harvestable r) (needWater r) (needWeed r) (needBug r)
    (growing r) (empty r) (dead r) (harvestableInfo r)
    (landSnapshots r ++ [s]) (minRemainingSec r) (serverTimeSec r)
    (unlockedCount r).

Definition set_minRemainingSec (m : option Z) (r : LandStatus) : LandStatus :=
  mkLandStatus (harvestable r) (needWater r) (needWeed r) (needBug r)
    (growing r) (empty r) (dead r) (harvestableInfo r) (landSnapshots r)
    m (serverTimeSec r) (unlockedCount r).

Definition incr_unlockedCount (r : LandStatus) : LandStatus :=
  mkLandStatus (harvestable r) (needWater r) (needWeed r) (needBug r)
    (growing r) (empty r) (dead r) (harvestableInfo r) (landSnapshots r)
    (minRemainingSec r) (serverTimeSec r) (S (unlockedCount r)).

(** [x && x.length > 0] on an owner-marker array. *)
Definition nonEmpty {A} (l : list A) : bool := (0 <? length l)%nat.

(** [t > 0 && t <= nowSec] on a threshold already passed through
    [toTimeSec]. *)
Definition elapsedThreshold (t nowSec : Z) : bool :=
  (0 <? t) && (t <=? nowSec).

Definition needsWater `{Collaborators} (pl : Plant) (cur : Phase) (nowSec : Z)
  : bool :=
  (0 <? dry_num pl) || elapsedThreshold (toTimeSec (dry_time cur)) nowSec.

Definition hasWeeds `{Collaborators} (pl : Plant) (cur : Phase) (nowSec : Z)
  : bool :=
  nonEmpty (weed_owners pl)
  || elapsedThreshold (toTimeSec (weeds_time cur)) nowSec.

Definition hasBugs `{Collaborators} (pl : Plant) (cur : Phase) (nowSec : Z)
  : bool :=
  nonEmpty (insect_owners pl)
  || elapsedThreshold (toTimeSec (insect_time cur)) nowSec.

(** The part of the loop body of [analyzeLands] reached by a plot that is
    neither locked, empty, dead nor mature. *)
Definition analyzeGrowing `{Collaborators} (nowSec id : Z) (pl : Plant)
  (cur : Phase) (totalGrowTime : Z) (r : LandStatus) : LandStatus :=
  let r := if needsWater pl cur nowSec then push_needWater id r else r in
  let r := if hasWeeds pl cur nowSec then push_needWeed id r else r in
  let r := if hasBugs pl cur nowSec then push_needBug id r else r in
  let r := push_growing id r in
  let remainInfo := getRemainingToMatureInfo (phases pl) nowSec totalGrowTime in
  let r :=
    if known remainInfo then
      match minRemainingSec r with
      | None => set_minRemainingSec (Some (remainingSec remainInfo)) r
      | Some m =>
          if remainingSec remainInfo <? m
          then set_minRemainingSec (Some (remainingSec remainInfo)) r
          else r
      end
    else r in
  push_snapshot
    (SnapGrowing id totalGrowTime (remainingSec remainInfo) (known remainInfo))
    r.

(** Loop body of [analyzeLands]; every [continue] is a returned result.
    [nowSec] is the clock reading of [analyzeLands], [phaseNow] the one
    [getCurrentPhase] makes when it is called for this plot. *)
Definition analyzeLand `{Collaborators} (nowSec phaseNow : Z)
  (result : LandStatus) (land : Land) : LandStatus :=
  let id := land_id land in
  if negb (unlocked land) then push_snapshot (SnapLock id) result
  else
    let result := incr_unlockedCount result in
    match plant land with
    | None => push_snapshot (SnapEmpty id) (push_empty id result)
    | Some pl =>
        match phases pl with
        | [] => push_snapshot (SnapEmpty id) (push_empty id result)
        | _ :: _ =>
            match getCurrentPhase (phases pl) phaseNow with
            | None => push_empty id result
            | Some currentPhase =>
                let plantId := plant_id pl in
                let totalGrowTime := getPlantGrowTime plantId in
                if phase currentPhase =? DEAD then
                  push_snapshot (SnapDead id) (push_dead id result)
                else if phase currentPhase =? MATURE then
                  push_snapshot (SnapMature id totalGrowTime)
                    (push_harvestableInfo
                       (mkHarvestInfo id plantId (getPlantExp plantId))
                       (push_harvestable id result))
                else
                  analyzeGrowing nowSec id pl currentPhase totalGrowTime result
            end
        end
    end.

(** The loop of [analyzeLands] from the plot at position [i]. *)
Fixpoint analyzeLandsFrom `{Collaborators} (nowSec : Z) (phaseClock : nat -> Z)
  (i : nat) (lands : list Land) (result : LandStatus) : LandStatus :=
  match lands with
  | [] => result
  | land :: rest =>
      analyzeLandsFrom nowSec phaseClock (S i) rest
        (analyzeLand nowSec (phaseClock i) result land)
  end.

Definition analyzeLands `{Collaborators} (lands : list Land) (nowSec : Z)
  (phaseClock : nat -> Z) : LandStatus :=
  analyzeLandsFrom nowSec phaseClock 0 lands (emptyStatus nowSec).

(** ** Yield Optimizer (game-configuration module) *)

Definition NO_FERT_PLANTS_PER_2_SEC : Q := 18.
Definition NORMAL_FERT_PLANTS_PER_2_SEC : Q := 12.
Definition NO_FERT_PLANT_SPEED_PER_SEC : Q := NO_FERT_PLANTS_PER_2_SEC / 2.
Definition NORMAL_FERT_PLANT_SPEED_PER_SEC : Q :=
  NORMAL_FERT_PLANTS_PER_2_SEC / 2.
Definition FERT_PERCENT : Q := 2 # 10.
Definition FERT_MIN_REDUCE_SEC : Q := 30.

(** [x > 0] and [x > y] on rationals. *)
Definition Qpositive (x : Q) : bool := negb (Qle_bool x 0).
Definition Qgtb (x y : Q) : bool := negb (Qle_bool x y).

Definition calcEffectiveGrowTime (growSec : Q) : Q :=
  let reduce := Qmax (growSec * FERT_PERCENT) FERT_MIN_REDUCE_SEC in
  Qmax 1 (growSec - reduce).

Record Seed := mkSeed {
  seedId        : Z;
  goodsId       : Z;
  plantId       : Z;
  requiredLevel : Z;
  price         : Z;
  seed_unlocked : bool;
  expHarvest    : Q;
  growTimeSec   : Q
}.

Definition normalizeSeedRow `{Collaborators} (raw : RawSeed) : Seed :=
  let seedId := raw_seedId raw in
  let plantFromSeed :=
    if seedId =? 0 then None else getPlantBySeedId seedId in
  let plantId :=
    match plantFromSeed with
    | Some p => if raw_plantId raw =? 0 then cfg_id p else raw_plantId raw
    | None => raw_plantId raw
    end in
  let expHarvest :=
    match raw_exp raw with
    | Some e => e
    | None =>
        match plantFromSeed with
        | Some p => inject_Z (cfg_exp p)
        | None => 0%Q
        end
    end in
  let growTimeSec :=
    if negb (Qpositive (raw_growTimeSec raw)) && negb (plantId =? 0)
    then inject_Z (getPlantGrowTime plantId)
    else raw_growTimeSec raw in
  mkSeed seedId (raw_goodsId raw) plantId (raw_requiredLevel raw)
    (raw_price raw) (raw_unlocked raw) expHarvest growTimeSec.

Record SeedYield := mkSeedYield {
  seed                     : Seed;
  farmExpPerHourNoFert     : Q;
  farmExpPerHourNormalFert : Q
}.

Definition cycleSecNoFert (landCount : Z) (s : Seed) : Q :=
  growTimeSec s + inject_Z landCount / NO_FERT_PLANT_SPEED_PER_SEC.

Definition cycleSecNormalFert (landCount : Z) (s : Seed) : Q :=
  calcEffectiveGrowTime (growTimeSec s)
  + inject_Z landCount / NORMAL_FERT_PLANT_SPEED_PER_SEC.

Definition expPerHour (landCount : Z) (expPerCycle cycleSec : Q) : Q :=
  if Qpositive cycleSec
  then (inject_Z landCount * expPerCycle / cycleSec) * 3600
  else 0.

(** Body of the loop of [buildSeedYieldRows]: [None] is [continue]. *)
Definition seedYieldRow `{Collaborators} (landCount : Z) (raw : RawSeed)
  : option SeedYield :=
  let s := normalizeSeedRow raw in
  if (seedId s =? 0) || negb (Qpositive (growTimeSec s)) then None
  else Some (mkSeedYield s
               (expPerHour landCount (expHarvest s) (cycleSecNoFert landCount s))
               (expPerHour landCount (expHarvest s)
                  (cycleSecNormalFert landCount s))).

Definition computeSeedYieldRows `{Collaborators} (landCount : Z)
  : list SeedYield :=
  fold_left (fun rows raw =>
               match seedYieldRow landCount raw with
               | Some row => rows ++ [row]
               | None => rows
               end) seedShopRows [].

Record SeedYieldCache := mkSeedYieldCache {
  cache_lands : Z;
  cache_rows  : list SeedYield
}.

Definition initialSeedYieldCache : SeedYieldCache := mkSeedYieldCache 0 [].

(** [buildSeedYieldRows] returns the rows and the module's cache after the
    call. *)
Definition buildSeedYieldRows `{Collaborators} (lands : Z)
  (seedYieldCache : SeedYieldCache) : list SeedYield * SeedYieldCache :=
  let landCount := Z.max 1 lands in
  if (cache_lands seedYieldCache =? landCount)
     && nonEmpty (cache_rows seedYieldCache)
  then (cache_rows seedYieldCache, seedYieldCache)
  else
    let rows := computeSeedYieldRows landCount in
    (rows, mkSeedYieldCache landCount rows).

(** [pickBestSeed]: the first row holding the maximum of [key]. *)
Definition pickBestSeed (rows : list SeedYield) (key : SeedYield -> Q)
  : option SeedYield :=
  match rows with
  | [] => None
  | r0 :: rest =>
      Some (fold_left (fun best r => if Qgtb (key r) (key best) then r else best)
              rest r0)
  end.

Record BestSeed := mkBestSeed {
  best_seedId     : Z;
  best_goodsId    : Z;
  best_price      : Z;
  best_expPerHour : Q
}.

Record BestSeeds := mkBestSeeds {
  bestNoFert     : BestSeed;
  bestNormalFert : BestSeed
}.

Definition getBestSeedsForLevel `{Collaborators} (level lands : Z)
  (seedIdSet : option (list Z)) (seedYieldCache : SeedYieldCache)
  : option BestSeeds * SeedYieldCache :=
  let lv := Z.max 1 level in
  let landCount := Z.max 1 lands in
  let '(rows, seedYieldCache) := buildSeedYieldRows landCount seedYieldCache in
  let available :=
    List.filter (fun r => (requiredLevel (seed r) <=? lv)
                          && seed_unlocked (seed r)) rows in
  let filtered :=
    match seedIdSet with
    | Some ids =>
        List.filter (fun r => existsb (Z.eqb (seedId (seed r))) ids) available
    | None => available
    end in
  match pickBestSeed filtered farmExpPerHourNoFert,
        pickBestSeed filtered farmExpPerHourNormalFert with
  | Some n, Some f =>
      (Some (mkBestSeeds
               (mkBestSeed (seedId (seed n)) (goodsId (seed n))
                  (price (seed n)) (farmExpPerHourNoFert n))
               (mkBestSeed (seedId (seed f)) (goodsId (seed f))
                  (price (seed f)) (farmExpPerHourNormalFert f))),
       seedYieldCache)
  | _, _ => (None, seedYieldCache)
  end.

(** ** Farm snapshot *)

Record FarmSnapshot := mkFarmSnapshot {
  emptyCount           : nat;
  deadCount            : nat;
  harvestableCount     : nat;
  needWaterCount       : nat;
  needWeedCount        : nat;
  needBugCount         : nat;
  snap_minRemainingSec : option Z;
  snap_serverTimeSec   : Z;
  snap_landSnapshots   : list LandSnapshot;
  snap_unlockedCount   : nat;
  updatedAt            : Z
}.

Definition buildFarmSnapshot (status : LandStatus) (now : Z) : FarmSnapshot :=
  mkFarmSnapshot (length (empty status)) (length (dead status))
    (length (harvestable status)) (length (needWater status))
    (length (needWeed status)) (length (needBug status))
    (minRemainingSec status) (serverTimeSec status) (landSnapshots status)
    (unlockedCount status) now.

(** ** The remote service and the engine state *)

Inductive Call :=
| AllLands
| Harvest (land_ids : list Z)
| WaterLand (land_ids : list Z)
| WeedOut (land_ids : list Z)
| Insecticide (land_ids : list Z)
| Fertilize (land_id fertilizer_id : Z)
| RemovePlant (land_ids : list Z)
| ShopInfo (shop_id : Z)
| BuyGoods (goods_id num unit_price : Z)
| PlantSeed (seed_id land_id : Z)
| GetBag.

Record Item := mkItem {
  item_id    : Z;
  item_count : Z
}.

Record Cond := mkCond {
  cond_type  : Z;
  cond_param : Z
}.

Record Goods := mkGoods {
  goods_id       : Z;
  goods_unlocked : bool;
  goods_conds    : list Cond;
  limit_count    : Z;
  bought_num     : Z;
  goods_item_id  : Z;
  goods_price    : Z
}.

Inductive Reply :=
| PlainReply
| AllLandsReply (lands : list Land)
| BagReply (items : list Item)
| ShopInfoReply (goods_list : list Goods)
| BuyGoodsReply (get_items cost_items : list Item).

(** The remote service: its answer to the [n]-th call of a run ([n] counts
    from 0); [None] is a rejected call or an undecodable reply, which the
    source sees as an exception. *)
Definition Server := nat -> Call -> option Reply.

Record BestSeedCache := mkBestSeedCache {
  bsc_level          : Z;
  bsc_lands          : Z;
  bsc_bestNoFert     : option BestSeed;
  bsc_bestNormalFert : option BestSeed
}.

(** The module-level variables of the farm module, the yield cache of the
    configuration module, the shared user state of the network module, and
    what the run has done to the outside: calls issued (oldest first),
    milliseconds slept, warnings logged, callbacks scheduled by the push
    handler that have not fired yet. *)
Record Engine := mkEngine {
  isCheckingFarm    : bool;
  isFirstFarmCheck  : bool;
  lastFarmSnapshot  : option FarmSnapshot;
  forceFarmCheck    : bool;
  lastUnlockedCount : nat;
  bestSeedCache     : BestSeedCache;
  lastPushTime      : Z;
  seedYieldCache    : SeedYieldCache;
  gid               : Z;
  level             : Z;
  gold              : Z;
  calls             : list Call;
  slept             : Z;
  warnings          : nat;
  pendingChecks     : nat
}.

Definition initialEngine (gid level gold : Z) : Engine :=
  mkEngine false true None false 0 (mkBestSeedCache 0 0 None None) 0
    initialSeedYieldCache gid level gold [] 0 0 0.

Definition set_isCheckingFarm (b : bool) (e : Engine) : Engine :=
  mkEngine b (isFirstFarmCheck e) (lastFarmSnapshot e) (forceFarmCheck e)
    (lastUnlockedCount e) (bestSeedCache e) (lastPushTime e)
    (seedYieldCache e) (gid e) (level e) (gold e) (calls e) (slept e)
    (warnings e) (pendingChecks e).

Definition set_isFirstFarmCheck (b : bool) (e : Engine) : Engine :=
  mkEngine (isCheckingFarm e) b (lastFarmSnapshot e) (forceFarmCheck e)
    (lastUnlockedCount e) (bestSeedCache e) (lastPushTime e)
    (seedYieldCache e) (gid e) (level e) (gold e) (calls e) (slept e)
    (warnings e) (pendingChecks e).

Definition set_lastFarmSnapshot (s : option FarmSnapshot) (e : Engine)
  : Engine :=
  mkEngine (isCheckingFarm e) (isFirstFarmCheck e) s (forceFarmCheck e)
    (lastUnlockedCount e) (bestSeedCache e) (lastPushTime e)
    (seedYieldCache e) (gid e) (level e) (gold e) (calls e) (slept e)
    (warnings e) (pendingChecks e).

Definition set_forceFarmCheck (b : bool) (e : Engine) : Engine :=
  mkEngine (isCheckingFarm e) (isFirstFarmCheck e) (lastFarmSnapshot e) b
    (lastUnlockedCount e) (bestSeedCache e) (lastPushTime e)
    (seedYieldCache e) (gid e) (level e) (gold e) (calls e) (slept e)
    (warnings e) (pendingChecks e).

Definition set_lastUnlockedCount (n : nat) (e : Engine) : Engine :=
  mkEngine (isCheckingFarm e) (isFirstFarmCheck e) (lastFarmSnapshot e)
    (forceFarmCheck e) n (bestSeedCache e) (lastPushTime e)
    (seedYieldCache e) (gid e) (level e) (gold e) (calls e) (slept e)
    (warnings e) (pendingChecks e).

Definition set_bestSeedCache (c : BestSeedCache) (e : Engine) : Engine :=
  mkEngine (isCheckingFarm e) (isFirstFarmCheck e) (lastFarmSnapshot e)
    (forceFarmCheck e) (lastUnlockedCount e) c (lastPushTime e)
    (seedYieldCache e) (gid e) (level e) (gold e) (calls e) (slept e)
    (warnings e) (pendingChecks e).

Definition set_lastPushTime (t : Z) (e : Engine) : Engine :=
  mkEngine (isCheckingFarm e) (isFirstFarmCheck e) (lastFarmSnapshot e)
    (forceFarmCheck e) (lastUnlockedCount e) (bestSeedCache e) t
    (seedYieldCache e) (gid e) (level e) (gold e) (calls e) (slept e)
    (warnings e) (pendingChecks e).

Definition set_seedYieldCache (c : SeedYieldCache) (e : Engine) : Engine :=
  mkEngine (isCheckingFarm e) (isFirstFarmCheck e) (lastFarmSnapshot e)
    (forceFarmCheck e) (lastUnlockedCount e) (bestSeedCache e)
    (lastPushTime e) c (gid e) (level e) (gold e) (calls e) (slept e)
    (warnings e) (pendingChecks e).

Definition set_gid (g : Z) (e : Engine) : Engine :=
  mkEngine (isCheckingFarm e) (isFirstFarmCheck e) (lastFarmSnapshot e)
    (forceFarmCheck e) (lastUnlockedCount e) (bestSeedCache e)
    (lastPushTime e) (seedYieldCache e) g (level e) (gold e) (calls e)
    (slept e) (warnings e) (pendingChecks e).

Definition set_level (l : Z) (e : Engine) : Engine :=
  mkEngine (isCheckingFarm e) (isFirstFarmCheck e) (lastFarmSnapshot e)
    (forceFarmCheck e) (lastUnlockedCount e) (bestSeedCache e)
    (lastPushTime e) (seedYieldCache e) (gid e) l (gold e) (calls e)
    (slept e) (warnings e) (pendingChecks e).

Definition set_gold (g : Z) (e : Engine) : Engine :=
  mkEngine (isCheckingFarm e) (isFirstFarmCheck e) (lastFarmSnapshot e)
    (forceFarmCheck e) (lastUnlockedCount e) (bestSeedCache e)
    (lastPushTime e) (seedYieldCache e) (gid e) (level e) g (calls e)
    (slept e) (warnings e) (pendingChecks e).

Definition set_calls (c : list Call) (e : Engine) : Engine :=
  mkEngine (isCheckingFarm e) (isFirstFarmCheck e) (lastFarmSnapshot e)
    (forceFarmCheck e) (lastUnlockedCount e) (bestSeedCache e)
    (lastPushTime e) (seedYieldCache e) (gid e) (level e) (gold e) c
    (slept e) (warnings e) (pendingChecks e).

Definition set_slept (ms : Z) (e : Engine) : Engine :=
  mkEngine (isCheckingFarm e) (isFirstFarmCheck e) (lastFarmSnapshot e)
    (forceFarmCheck e) (lastUnlockedCount e) (bestSeedCache e)
    (lastPushTime e) (seedYieldCache e) (gid e) (level e) (gold e) (calls e)
    ms (warnings e) (pendingChecks e).

Definition set_warnings (n : nat) (e : Engine) : Engine :=
  mkEngine (isCheckingFarm e) (isFirstFarmCheck e) (lastFarmSnapshot e)
    (forceFarmCheck e) (lastUnlockedCount e) (bestSeedCache e)
    (lastPushTime e) (seedYieldCache e) (gid e) (level e) (gold e) (calls e)
    (slept e) n (pendingChecks e).

Definition set_pendingChecks (n : nat) (e : Engine) : Engine :=
  mkEngine (isCheckingFarm e) (isFirstFarmCheck e) (lastFarmSnapshot e)
    (forceFarmCheck e) (lastUnlockedCount e) (bestSeedCache e)
    (lastPushTime e) (seedYieldCache e) (gid e) (level e) (gold e) (calls e)
    (slept e) (warnings e) n.

(** ** A state-and-exception monad for the asynchronous functions

    A computation runs on the engine and either returns a value or throws
    ([None]); the engine it leaves behind is kept in both cases. *)

Definition M (A : Type) : Type := Engine -> option A * Engine.

Definition ret {A} (a : A) : M A := fun e => (Some a, e).

Definition throw {A} : M A := fun e => (None, e).

Definition bind {A B} (m : M A) (k : A -> M B) : M B :=
  fun e =>
    match m e with
    | (Some a, e') => k a e'
    | (None, e') => (None, e')
    end.

Notation "'let*' x ':=' m 'in' k" := (bind m (fun x => k))
  (at level 10, x pattern, m at level 100, k at level 200).

(** [try { m } catch (e) { }] as a value: [Some a] when [m] returns [a],
    [None] when it throws. *)
Definition attempt {A} (m : M A) : M (option A) :=
  fun e =>
    match m e with
    | (Some a, e') => (Some (Some a), e')
    | (None, e') => (Some None, e')
    end.

Definition modify (f : Engine -> Engine) : M unit := fun e => (Some tt, f e).

Definition gets {A} (f : Engine -> A) : M A := fun e => (Some (f e), e).

Definition logWarn : M unit :=
  modify (fun e => set_warnings (S (warnings e)) e).

Definition sleep (ms : Z) : M unit :=
  modify (fun e => set_slept (slept e + ms) e).

Definition sendMsgAsync (srv : Server) (c : Call) : M Reply :=
  fun e => (srv (length (calls e)) c, set_calls (calls e ++ [c]) e).

(** ** Action Executor *)

Definition NORMAL_FERTILIZER_ID : Z := 1011.

(** [if (landIds.length > 1) await sleep(50)] *)
Definition pace (several : bool) : M unit :=
  if several then sleep 50 else ret tt.

(** The loop of [fertilize]: a failed call leaves the loop ([break]). *)
Fixpoint fertilizeLoop (srv : Server) (several : bool) (fertilizerId : Z)
  (landIds : list Z) (successCount : nat) : M nat :=
  match landIds with
  | [] => ret successCount
  | landId :: rest =>
      let* r := attempt (sendMsgAsync srv (Fertilize landId fertilizerId)) in
      match r with
      | Some _ =>
          let* _ := pace several in
          fertilizeLoop srv several fertilizerId rest (S successCount)
      | None => ret successCount
      end
  end.

Definition fertilize (srv : Server) (landIds : list Z) (fertilizerId : Z)
  : M nat :=
  fertilizeLoop srv (1 <? length landIds)%nat fertilizerId landIds 0.

(** The loop of [plantSeeds]: a failed call is logged and the loop goes on. *)
Fixpoint plantLoop (srv : Server) (several : bool) (seedId : Z)
  (landIds : list Z) (successCount : nat) : M nat :=
  match landIds with
  | [] => ret successCount
  | landId :: rest =>
      let* r := attempt (sendMsgAsync srv (PlantSeed seedId landId)) in
      let* successCount :=
        match r with
        | Some _ => ret (S successCount)
        | None => let* _ := logWarn in ret successCount
        end in
      let* _ := pace several in
      plantLoop srv several seedId rest successCount
  end.

Definition plantSeeds (srv : Server) (seedId : Z) (landIds : list Z) : M nat :=
  plantLoop srv (1 <? length landIds)%nat seedId landIds 0.

Definition getAllLands (srv : Server) : M (list Land) :=
  let* r := sendMsgAsync srv AllLands in
  match r with
  | AllLandsReply lands => ret lands
  | _ => throw
  end.

Definition harvest (srv : Server) (landIds : list Z) : M Reply :=
  sendMsgAsync srv (Harvest landIds).

Definition waterLand (srv : Server) (landIds : list Z) : M Reply :=
  sendMsgAsync srv (WaterLand landIds).

Definition weedOut (srv : Server) (landIds : list Z) : M Reply :=
  sendMsgAsync srv (WeedOut landIds).

Definition insecticide (srv : Server) (landIds : list Z) : M Reply :=
  sendMsgAsync srv (Insecticide landIds).

Definition removePlant (srv : Server) (landIds : list Z) : M Reply :=
  sendMsgAsync srv (RemovePlant landIds).

Definition getShopInfo (srv : Server) (shopId : Z) : M (list Goods) :=
  let* r := sendMsgAsync srv (ShopInfo shopId) in
  match r with
  | ShopInfoReply goods_list => ret goods_list
  | _ => throw
  end.

Definition buyGoods (srv : Server) (goodsId num price : Z)
  : M (list Item * list Item) :=
  let* r := sendMsgAsync srv (BuyGoods goodsId num price) in
  match r with
  | BuyGoodsReply get_items cost_items => ret (get_items, cost_items)
  | _ => throw
  end.

Definition getBag (srv : Server) : M (list Item) :=
  let* r := sendMsgAsync srv GetBag in
  match r with
  | BagReply items => ret items
  | _ => throw
  end.

Definition getFertilizerCount (srv : Server) : M (option Z) :=
  let* r := attempt (getBag srv) in
  match r with
  | Some items =>
      ret (option_map item_count
             (find (fun it => item_id it =? NORMAL_FERTILIZER_ID) items))
  | None => let* _ := logWarn in ret None
  end.

(** A reference that is not [null]. *)
Definition notNull {A} (o : option A) : bool :=
  match o with
  | Some _ => true
  | None => false
  end.

(** [ensureBestSeedCache]; its return value only feeds the status bar. *)
Definition ensureBestSeedCache `{Collaborators} (lv lands : Z) : M unit :=
  if (lv =? 0) || (lands =? 0) then ret tt
  else
    let* c := gets bestSeedCache in
    if (bsc_level c =? lv) && (bsc_lands c =? lands)
       && notNull (bsc_bestNoFert c) && notNull (bsc_bestNormalFert c)
    then ret tt
    else
      let* yc := gets seedYieldCache in
      let '(best, yc) := getBestSeedsForLevel lv lands None yc in
      let* _ := modify (set_seedYieldCache yc) in
      match best with
      | None => ret tt
      | Some b =>
          modify (set_bestSeedCache
                    (mkBestSeedCache lv lands (Some (bestNoFert b))
                       (Some (bestNormalFert b))))
      end.

(** An entry of [available] in [findBestSeed]. *)
Record Available := mkAvailable {
  av_goodsId       : Z;
  av_seedId        : Z;
  av_price         : Z;
  av_requiredLevel : Z
}.

(** The loop over [goods.conds]: [(meetsConditions, requiredLevel)]. *)
Fixpoint checkConds (stateLevel : Z) (conds : list Cond) (requiredLevel : Z)
  : bool * Z :=
  match conds with
  | [] => (true, requiredLevel)
  | cond :: rest =>
      if cond_type cond =? 1 then
        if stateLevel <? cond_param cond then (false, cond_param cond)
        else checkConds stateLevel rest (cond_param cond)
      else checkConds stateLevel rest requiredLevel
  end.

Definition availableGoods (stateLevel : Z) (goods_list : list Goods)
  : list Available :=
  fold_left
    (fun available goods =>
       if negb (goods_unlocked goods) then available
       else
         let '(meetsConditions, requiredLevel) :=
           checkConds stateLevel (goods_conds goods) 0 in
         if negb meetsConditions then available
         else if (0 <? limit_count goods)
                 && (limit_count goods <=? bought_num goods)
         then available
         else available ++ [mkAvailable (goods_id goods) (goods_item_id goods)
                              (goods_price goods) requiredLevel])
    goods_list [].

(** First element of [available] after the stable sort by ascending
    [requiredLevel]: the first entry holding the least required level. *)
Definition lowestRequiredLevel (first : Available) (rest : list Available)
  : Available :=
  fold_left (fun best a =>
               if av_requiredLevel a <? av_requiredLevel best then a else best)
    rest first.

Definition selectBestSeedFromAvailable `{Collaborators}
  (available : list Available) (preferNoFert : bool) (level lands : Z)
  : M (option Available) :=
  match available with
  | [] => ret None
  | first :: rest =>
      let seedIdSet := map av_seedId available in
      let* bestByYield :=
        if negb (level =? 0) && negb (lands =? 0) then
          let* yc := gets seedYieldCache in
          let '(best, yc) := getBestSeedsForLevel level lands (Some seedIdSet) yc in
          let* _ := modify (set_seedYieldCache yc) in
          ret best
        else ret None in
      let fallback := Some (lowestRequiredLevel first rest) in
      match bestByYield with
      | Some b =>
          let target := if preferNoFert then bestNoFert b else bestNormalFert b in
          if best_seedId target =? 0 then ret fallback
          else
            match find (fun item => av_seedId item =? best_seedId target)
                    available with
            | Some found => ret (Some found)
            | None => ret fallback
            end
      | None => ret fallback
      end
  end.

Definition findBestSeed `{Collaborators} (srv : Server) (preferNoFert : bool)
  (optLevel optLands : Z) : M (option Available) :=
  let SEED_SHOP_ID := 2 in
  let* goods_list := getShopInfo srv SEED_SHOP_ID in
  match goods_list with
  | [] => let* _ := logWarn in ret None
  | _ :: _ =>
      let* stateLevel := gets level in
      match availableGoods stateLevel goods_list with
      | [] => let* _ := logWarn in ret None
      | available =>
          selectBestSeedFromAvailable available preferNoFert optLevel optLands
      end
  end.

(** Step 3 of [autoPlantEmptyLands], the purchase: the plots that will be
    planted and the seed id received, or [None] where the source returns. *)
Definition buySeeds (srv : Server) (bestSeed : Available)
  (landsToPlant : list Z) : M (option (list Z * Z)) :=
  let needCount := Z.of_nat (length landsToPlant) in
  let totalCost := av_price bestSeed * needCount in
  let* stateGold := gets gold in
  let* clamped :=
    if stateGold <? totalCost then
      let* _ := logWarn in
      let canBuy := stateGold / av_price bestSeed in
      if canBuy <=? 0 then ret None
      else ret (Some (firstn (Z.to_nat canBuy) landsToPlant))
    else ret (Some landsToPlant) in
  match clamped with
  | None => ret None
  | Some landsToPlant =>
      let* bought :=
        attempt
          (let* (get_items, cost_items) :=
             buyGoods srv (av_goodsId bestSeed)
               (Z.of_nat (length landsToPlant)) (av_price bestSeed) in
           let actualSeedId :=
             match get_items with
             | gotItem :: _ =>
                 if 0 <? item_id gotItem then item_id gotItem
                 else av_seedId bestSeed
             | [] => av_seedId bestSeed
             end in
           let* _ :=
             modify (fun e =>
                       fold_left
                         (fun e item => set_gold (gold e - item_count item) e)
                         cost_items e) in
           ret actualSeedId) in
      match bought with
      | None => let* _ := logWarn in ret None
      | Some actualSeedId => ret (Some (landsToPlant, actualSeedId))
      end
  end.

(** Steps 4 and 5 of [autoPlantEmptyLands]: plant, then fertilize the first
    [planted] plots. *)
Definition plantAndFertilize (srv : Server) (actualSeedId : Z)
  (landsToPlant : list Z) : M unit :=
  let* r := attempt (plantSeeds srv actualSeedId landsToPlant) in
  let* plantedLands :=
    match r with
    | Some planted =>
        ret (if (0 <? planted)%nat then firstn planted landsToPlant else [])
    | None => let* _ := logWarn in ret []
    end in
  if nonEmpty plantedLands then
    let* _ := fertilize srv plantedLands NORMAL_FERTILIZER_ID in
    ret tt
  else ret tt.

(** Steps 3 to 5 of [autoPlantEmptyLands]. *)
Definition buyPlantFertilize (srv : Server) (bestSeed : Available)
  (landsToPlant : list Z) : M unit :=
  let* purchase := buySeeds srv bestSeed landsToPlant in
  match purchase with
  | None => ret tt
  | Some (landsToPlant, actualSeedId) =>
      plantAndFertilize srv actualSeedId landsToPlant
  end.

Definition autoPlantEmptyLands `{Collaborators} (srv : Server)
  (deadLandIds emptyLandIds : list Z) : M unit :=
  let* landsToPlant :=
    if nonEmpty deadLandIds then
      let* r := attempt (removePlant srv deadLandIds) in
      let* _ := match r with
                | Some _ => ret tt
                | None => logWarn
                end in
      ret (emptyLandIds ++ deadLandIds)
    else ret emptyLandIds in
  if negb (nonEmpty landsToPlant) then ret tt
  else
    let* chosen :=
      attempt
        (let* fertilizerCount := getFertilizerCount srv in
         let preferNoFert :=
           match fertilizerCount with
           | Some n => n <? 10
           | None => false
           end in
         let* unlockedCount := gets lastUnlockedCount in
         let landsForCalc :=
           if (unlockedCount =? 0)%nat then Z.of_nat (length landsToPlant)
           else Z.of_nat unlockedCount in
         let* stateLevel := gets level in
         let* _ := ensureBestSeedCache stateLevel landsForCalc in
         findBestSeed srv preferNoFert stateLevel landsForCalc) in
    match chosen with
    | None => let* _ := logWarn in ret tt
    | Some None => ret tt
    | Some (Some bestSeed) => buyPlantFertilize srv bestSeed landsToPlant
    end.

(** ** Scheduling Controller *)

Definition shouldCheckFarmNow (e : Engine) (nowSec : Z) : bool :=
  if isFirstFarmCheck e then true
  else if forceFarmCheck e then true
  else
    match lastFarmSnapshot e with
    | None => true
    | Some s =>
        if (0 <? emptyCount s)%nat then true
        else if (0 <? deadCount s)%nat then true
        else if (0 <? harvestableCount s)%nat then true
        else if (0 <? needWaterCount s)%nat then true
        else if (0 <? needWeedCount s)%nat then true
        else if (0 <? needBugCount s)%nat then true
        else
          match snap_minRemainingSec s with
          | Some minRemaining =>
              let elapsed := Z.max 0 (nowSec - snap_serverTimeSec s) in
              let remaining := minRemaining - elapsed in
              if remaining <=? 2 then true else false
          | None => false
          end
    end.

(** The clock readings of one cycle: [getServerTimeSec()] in
    [shouldCheckFarmNow], [getServerTimeSec()] in [analyzeLands], the one in
    [getCurrentPhase] for the plot at each position, and [Date.now()] in
    [buildFarmSnapshot]. *)
Record CycleClock := mkCycleClock {
  atDecision : Z;
  atAnalysis : Z;
  atPhase    : nat -> Z;
  atSnapshot : Z
}.

(** One batch operation of the cycle: [op.then(...).catch(logWarn)]. *)
Definition batchOp (ids : list Z) (op : list Z -> M Reply) : M unit :=
  if nonEmpty ids then
    let* r := attempt (op ids) in
    match r with
    | Some _ => ret tt
    | None => logWarn
    end
  else ret tt.

(** The [try] block of [checkFarm]. *)
Definition checkFarmTry `{Collaborators} (srv : Server) (clk : CycleClock)
  : M unit :=
  let* should := gets (fun e => shouldCheckFarmNow e (atDecision clk)) in
  if negb should then ret tt
  else
    let* lands := getAllLands srv in
    if negb (nonEmpty lands) then ret tt
    else
      let status := analyzeLands lands (atAnalysis clk) (atPhase clk) in
      let* _ := modify (set_lastFarmSnapshot
                          (Some (buildFarmSnapshot status (atSnapshot clk)))) in
      let* _ := modify (fun e =>
                          set_lastUnlockedCount
                            (if (unlockedCount status =? 0)%nat
                             then lastUnlockedCount e
                             else unlockedCount status) e) in
      let* stateLevel := gets level in
      let* unlockedNow := gets lastUnlockedCount in
      let* _ := ensureBestSeedCache stateLevel (Z.of_nat unlockedNow) in
      let* _ := modify (set_isFirstFarmCheck false) in
      let* _ := modify (set_forceFarmCheck false) in
      let* _ := batchOp (needWeed status) (weedOut srv) in
      let* _ := batchOp (needBug status) (insecticide srv) in
      let* _ := batchOp (needWater status) (waterLand srv) in
      let* harvestedLandIds :=
        if nonEmpty (harvestable status) then
          let* r := attempt (harvest srv (harvestable status)) in
          match r with
          | Some _ => ret (harvestable status)
          | None => let* _ := logWarn in ret []
          end
        else ret [] in
      let allDeadLands := dead status ++ harvestedLandIds in
      let allEmptyLands := empty status in
      if nonEmpty allDeadLands || nonEmpty allEmptyLands then
        let* r := attempt (autoPlantEmptyLands srv allDeadLands allEmptyLands) in
        match r with
        | Some _ => ret tt
        | None => logWarn
        end
      else ret tt.

(** The guard of [checkFarm]: [isCheckingFarm || !state.gid]. *)
Definition checkFarmSkips (e : Engine) : bool :=
  isCheckingFarm e || (gid e =? 0).

(** [isCheckingFarm = true], the statement after the guard. *)
Definition checkFarmEnter (e : Engine) : Engine := set_isCheckingFarm true e.

(** The rest of [checkFarm]: the [try] block runs, [catch] logs a warning,
    [finally] clears the flag. *)
Definition checkFarmLeave `{Collaborators} (srv : Server) (clk : CycleClock)
  (e : Engine) : Engine :=
  let '(r, e) := checkFarmTry srv clk e in
  let e := match r with
           | Some _ => e
           | None => set_warnings (S (warnings e)) e
           end in
  set_isCheckingFarm false e.

(** [checkFarm] run from its call to its end without interruption. *)
Definition checkFarm `{Collaborators} (srv : Server) (clk : CycleClock)
  (e : Engine) : Engine :=
  if checkFarmSkips e then e
  else checkFarmLeave srv clk (checkFarmEnter e).

(** [onLandsChangedPush] at [Date.now() = now]; [setTimeout] adds a pending
    callback. *)
Definition onLandsChangedPush (lands : list Z) (now : Z) (e : Engine)
  : Engine :=
  if isCheckingFarm e then e
  else if now - lastPushTime e <? 500 then e
  else
    let e := set_lastPushTime now e in
    let e := set_forceFarmCheck true e in
    set_pendingChecks (S (pendingChecks e)) e.

Definition onLevelChanged `{Collaborators} (lv : Z) (e : Engine) : Engine :=
  if lv =? 0 then e
  else if (lastUnlockedCount e =? 0)%nat then e
  else snd (ensureBestSeedCache lv (Z.of_nat (lastUnlockedCount e)) e).

(** *** The event loop

    JavaScript runs one task at a time and a task gives way only at an
    [await].  [checkFarm] reads and writes its guard before its first
    [await], so a call of [checkFarm] up to the flag being set is one step;
    the rest of the cycle, which waits for replies, is a second step that
    happens later, with other events in between.  The two handlers have no
    [await] and are one step each. *)

(** What can happen: [checkFarm] is called (by the loop or by anyone), the
    cycle in flight runs to its end, a push notification arrives, a callback
    set by the push handler fires, the level changes, the network module
    rewrites the shared user state. *)
Inductive Event :=
| CheckFarmCalled (clk : CycleClock)
| CycleEnds
| LandsChanged (now : Z) (lands : list Z)
| PushTimerFires (clk : CycleClock)
| LevelChanged (lv : Z)
| UserStateChanges (gid level gold : Z).

(** The engine and the cycles that have passed the guard and not ended,
    each with the clock readings it will make. *)
Record System := mkSystem {
  engine   : Engine;
  inFlight : list CycleClock
}.

Definition callCheckFarm (clk : CycleClock) (s : System) : System :=
  if checkFarmSkips (engine s) then s
  else mkSystem (checkFarmEnter (engine s)) (clk :: inFlight s).

Definition step `{Collaborators} (srv : Server) (s : System) (ev : Event)
  : System :=
  match ev with
  | CheckFarmCalled clk => callCheckFarm clk s
  | CycleEnds =>
      match inFlight s with
      | [] => s
      | clk :: rest => mkSystem (checkFarmLeave srv clk (engine s)) rest
      end
  | LandsChanged now lands =>
      mkSystem (onLandsChangedPush lands now (engine s)) (inFlight s)
  | PushTimerFires clk =>
      match pendingChecks (engine s) with
      | O => s
      | S n =>
          let s := mkSystem (set_pendingChecks n (engine s)) (inFlight s) in
          if isCheckingFarm (engine s) then s else callCheckFarm clk s
      end
  | LevelChanged lv => mkSystem (onLevelChanged lv (engine s)) (inFlight s)
  | UserStateChanges gid level gold =>
      mkSystem (set_gold gold (set_level level (set_gid gid (engine s))))
        (inFlight s)
  end.

Definition run `{Collaborators} (srv : Server) (s : System)
  (evs : list Event) : System :=
  fold_left (step srv) evs s.

Definition initialSystem (gid level gold : Z) : System :=
  mkSystem (initialEngine gid level gold) [].

(** The state of the controller's state machine. *)
Inductive CtlState := Idle | Checking.

Definition ctlState (s : System) : CtlState :=
  if isCheckingFarm (engine s) then Checking else Idle.

(** A push at time [now] passes both guards of [onLandsChangedPush]. *)
Definition pushAccepted (e : Engine) (now : Z) : bool :=
  negb (isCheckingFarm e) && negb (now - lastPushTime e <? 500).

(** The times of the push notifications of a run that passed both guards,
    oldest first. *)
Fixpoint acceptedPushes `{Collaborators} (srv : Server) (s : System)
  (evs : list Event) : list Z :=
  match evs with
  | [] => []
  | ev :: rest =>
      match ev with
      | LandsChanged now _ =>
          if pushAccepted (engine s) now then [now] else []
      | _ => []
      end ++ acceptedPushes srv (step srv s ev) rest
  end.

(** ** Vocabulary of the specification *)

(** A phase whose begin timestamp is non-zero and not after the server
    time. *)
Definition qualifies `{Collaborators} (nowSec : Z) (p : Phase) : Prop :=
  toTimeSec (begin_time p) <> 0 /\ toTimeSec (begin_time p) <= nowSec.

(** Begin timestamps that are set appear in chronological order. *)
Definition chronological `{Collaborators} (phases : list Phase) : Prop :=
  ForallOrdPairs
    (fun a b =>
       toTimeSec (begin_time a) <> 0 -> toTimeSec (begin_time b) <> 0 ->
       toTimeSec (begin_time a) <= toTimeSec (begin_time b))
    phases.

(** [m] is the earliest non-zero begin timestamp among the phases of
    [phases] that satisfy [P]. *)
Definition earliestBegin `{Collaborators} (P : Phase -> Prop)
  (phases : list Phase) (m : Z) : Prop :=
  (exists p, In p phases /\ P p /\ toTimeSec (begin_time p) = m /\ m <> 0)
  /\ forall q, In q phases -> P q -> toTimeSec (begin_time q) <> 0 ->
               m <= toTimeSec (begin_time q).

(** One running minimum of [getRemainingToMatureInfo]: the least positive
    begin timestamp among the phases selected by [sel], 0 when there is
    none. *)
Definition minStep `{Collaborators} (sel : Phase -> bool) (m : Z) (p : Phase)
  : Z :=
  let begin := toTimeSec (begin_time p) in
  if sel p && (0 <? begin) && ((m =? 0) || (begin <? m)) then begin else m.

(** The category of a plot in the words of the specification. *)
Inductive Category := Locked | Empty | Dead | Harvestable | Growing.

#[local] Instance Category_eq_dec : EqDecision Category.
Proof. solve_decision. Defined.

(** [phaseNow] is the clock reading at which the current phase is taken. *)
Definition categoryOf `{Collaborators} (phaseNow : Z) (land : Land)
  : Category :=
  if negb (unlocked land) then Locked
  else
    match plant land with
    | None => Empty
    | Some pl =>
        match getCurrentPhase (phases pl) phaseNow with
        | None => Empty
        | Some cur =>
            if phase cur =? DEAD then Dead
            else if phase cur =? MATURE then Harvestable
            else Growing
        end
    end.

(** The id list of a category in the result of [analyzeLands]. *)
Definition idsOf (c : Category) (r : LandStatus) : list Z :=
  match c with
  | Locked => []
  | Empty => empty r
  | Dead => dead r
  | Harvestable => harvestable r
  | Growing => growing r
  end.

(** The three afflictions and their id lists. *)
Inductive Affliction := Dry | Weeds | Bugs.

Definition needOf (a : Affliction) (r : LandStatus) : list Z :=
  match a with
  | Dry => needWater r
  | Weeds => needWeed r
  | Bugs => needBug r
  end.

Definition afflicted `{Collaborators} (a : Affliction) (pl : Plant)
  (cur : Phase) (nowSec : Z) : bool :=
  match a with
  | Dry => needsWater pl cur nowSec
  | Weeds => hasWeeds pl cur nowSec
  | Bugs => hasBugs pl cur nowSec
  end.

(** A growing plot whose plant has affliction [a] under its current phase. *)
Definition growingWith `{Collaborators} (a : Affliction) (nowSec phaseNow : Z)
  (land : Land) : bool :=
  bool_decide (categoryOf phaseNow land = Growing)
  && match plant land with
     | Some pl =>
         match getCurrentPhase (phases pl) phaseNow with
         | Some cur => afflicted a pl cur nowSec
         | None => false
         end
     | None => false
     end.

(** The plots from position [i] on, each with the clock reading at which
    its current phase is taken. *)
Fixpoint timedFrom (phaseClock : nat -> Z) (i : nat) (lands : list Land)
  : list (Z * Land) :=
  match lands with
  | [] => []
  | land :: rest => (phaseClock i, land) :: timedFrom phaseClock (S i) rest
  end.

Definition idsWhere (sel : Z -> Land -> bool) (plots : list (Z * Land))
  : list Z :=
  map (fun tl => land_id (snd tl))
    (List.filter (fun tl => sel (fst tl) (snd tl)) plots).

(** A growing plot in the words of the specification: unlocked, holding a
    plant whose current phase, [cur], is neither dead nor mature. *)
Definition growsAt `{Collaborators} (phaseNow : Z) (land : Land) (pl : Plant)
  (cur : Phase) : Prop :=
  unlocked land = true
  /\ plant land = Some pl
  /\ getCurrentPhase (phases pl) phaseNow = Some cur
  /\ phase cur <> DEAD
  /\ phase cur <> MATURE.

(** The three affliction rules in the words of the specification: a
    positive dryness counter, or a non-empty owner-marker set, or a
    threshold of the current phase that is set and not after the server
    time. *)
Definition afflictedBy `{Collaborators} (a : Affliction) (pl : Plant)
  (cur : Phase) (nowSec : Z) : Prop :=
  match a with
  | Dry =>
      0 < dry_num pl
      \/ (toTimeSec (dry_time cur) <> 0 /\ toTimeSec (dry_time cur) <= nowSec)
  | Weeds =>
      weed_owners pl <> []
      \/ (toTimeSec (weeds_time cur) <> 0
          /\ toTimeSec (weeds_time cur) <= nowSec)
  | Bugs =>
      insect_owners pl <> []
      \/ (toTimeSec (insect_time cur) <> 0
          /\ toTimeSec (insect_time cur) <= nowSec)
  end.

(** Number of calls the service accepts when the calls [mk id], for the ids
    of [ids] in order, are its calls number [first], [first + 1], ... *)
Fixpoint countOk (srv : Server) (first : nat) (mk : Z -> Call) (ids : list Z)
  : nat :=
  match ids with
  | [] => 0%nat
  | id :: rest =>
      (match srv first (mk id) with
       | Some _ => 1
       | None => 0
       end + countOk srv (S first) mk rest)%nat
  end.

(** What the asynchronous functions never write: the guard flag, the time
    of the last accepted push, the callbacks pending. *)
Definition guardOf (e : Engine) : bool * Z * nat :=
  (isCheckingFarm e, lastPushTime e, pendingChecks e).

Definition frames {A} (m : M A) : Prop :=
  forall e, guardOf (snd (m e)) = guardOf e.

(** The guard flag is set exactly while one cycle is in flight. *)
Definition consistent (s : System) : Prop :=
  (isCheckingFarm (engine s) = false /\ inFlight s = [])
  \/ (isCheckingFarm (engine s) = true /\ exists clk, inFlight s = [clk]).

(** The cycle times and the rate in the words of the specification. *)
Definition spec_cycleNoFert (grow : Q) (n : Z) : Q := grow + inject_Z n / 9.

Definition spec_cycleNormalFert (grow : Q) (n : Z) : Q :=
  (grow - Qmax ((2 # 10) * grow) 30) + inject_Z n / 6.

Definition spec_expPerHour (n : Z) (harvestExp cycle : Q) : Q :=
  inject_Z n * harvestExp / cycle * 3600.

(** The fertilized cycle time with the floor of one second that
    [calcEffectiveGrowTime] puts under the reduced grow time. *)
Definition floored_cycleNormalFert (grow : Q) (n : Z) : Q :=
  Qmax 1 (grow - Qmax ((2 # 10) * grow) 30) + inject_Z n / 6.

(** The cache of [buildSeedYieldRows] holds nothing or the rows of its own
    plot count. *)
Definition cacheValid `{Collaborators} (c : SeedYieldCache) : Prop :=
  cache_rows c = [] \/ cache_rows c = computeSeedYieldRows (cache_lands c).

(** ** Sample data for the examples *)

(** A plant that grows in 60 seconds and gives 5 experience. *)
Definition samplePlant : PlantCfg :=
  mkPlantCfg 1020002 20002 5 [Some 30; Some 30; Some 0].

(** A sample instantiation: timestamps at most zero are unset, timestamps
    above 10^12 are milliseconds, phase tags 6 and 7 are mature and dead, the
    shop sells the seed of [samplePlant] and a seed that grows in 20
    seconds. *)
#[local] Instance sample : Collaborators := {|
  toTimeSec v :=
    if v <=? 0 then 0 else if 1000000000000 <? v then v / 1000 else v;
  MATURE := 6;
  DEAD := 7;
  plantMap := {[ 1020002 := samplePlant ]};
  seedToPlant := {[ 20002 := samplePlant ]};
  seedShopRows :=
    [ mkRawSeed 20002 5002 1 10 true 0 None 0;
      mkRawSeed 20003 5003 1 20 true 0 (Some 10%Q) 20 ]
|}.

Definition sampleLands : list Land :=
  [ mkLand 1 false None;
    mkLand 2 true None;
    mkLand 3 true
      (Some (mkPlant 1020002 [mkPhase 1 100 0 0 0; mkPhase 6 300 0 0 0]
               0 [77] []));
    mkLand 4 true (Some (mkPlant 1020002 [mkPhase 6 100 0 0 0] 0 [] []));
    mkLand 5 true (Some (mkPlant 1020002 [mkPhase 7 100 0 0 0] 0 [] [])) ].

(** A service that rejects its second call and accepts every other one. *)
Definition secondCallFails : Server :=
  fun n _ => if (n =? 1)%nat then None else Some PlainReply.

(** A shop that sells what is asked for, at 10 gold a unit of seed 20002,
    and accepts every other call. *)
Definition sampleShop : Server :=
  fun _ c =>
    match c with
    | BuyGoods _ num _ =>
        Some (BuyGoodsReply [mkItem 20002 num] [mkItem 1001 (10 * num)])
    | _ => Some PlainReply
    end.

(** A farm with one unlocked plot whose plant is still growing and needs
    nothing; every other call is accepted. *)
Definition quietFarm : Server :=
  fun _ c =>
    match c with
    | AllLands =>
        Some (AllLandsReply
                [mkLand 1 true
                   (Some (mkPlant 1020002
                            [mkPhase 1 100 0 0 0; mkPhase 6 100000 0 0 0]
                            0 [] []))])
    | _ => Some PlainReply
    end.

(** ** Further vocabulary

    Definitions used by the further properties at the end: views of the
    engine, the parts of a cycle, the shapes of call sequences, the loader of
    the plant configuration and the status lines. *)


(** The snapshot record of one plot, read off its category at the reading
    [phaseNow]; the remaining time is taken at [nowSec]. *)
Definition snapshotOf `{Collaborators} (nowSec phaseNow : Z) (land : Land)
  : LandSnapshot :=
  let id := land_id land in
  match categoryOf phaseNow land, plant land with
  | Locked, _ => SnapLock id
  | Empty, _ => SnapEmpty id
  | Dead, _ => SnapDead id
  | Harvestable, Some pl => SnapMature id (getPlantGrowTime (plant_id pl))
  | Growing, Some pl =>
      let total := getPlantGrowTime (plant_id pl) in
      let info := getRemainingToMatureInfo (phases pl) nowSec total in
      SnapGrowing id total (remainingSec info) (known info)
  | _, None => SnapEmpty id
  end.

(** The remaining time of a plot when it is growing and the time is known. *)
Definition knownRemaining `{Collaborators} (nowSec phaseNow : Z)
  (land : Land) : list Z :=
  match snapshotOf nowSec phaseNow land with
  | SnapGrowing _ _ remaining true => [remaining]
  | _ => []
  end.

(** The update of [minRemainingSec] by one known remaining time. *)
Definition optMin (acc : option Z) (x : Z) : option Z :=
  match acc with
  | None => Some x
  | Some m => if x <? m then Some x else Some m
  end.

(** The entry of [harvestableInfo] of one plot. *)
Definition harvestInfoOf `{Collaborators} (phaseNow : Z) (land : Land)
  : list HarvestInfo :=
  match categoryOf phaseNow land, plant land with
  | Harvestable, Some pl =>
      [mkHarvestInfo (land_id land) (plant_id pl) (getPlantExp (plant_id pl))]
  | _, _ => []
  end.

(** The plot is growing at the reading [phaseNow] and its time to maturity
    at [nowSec] is known and equal to [m]. *)
Definition remainsAt `{Collaborators} (nowSec phaseNow : Z) (land : Land)
  (m : Z) : Prop :=
  exists pl cur,
    growsAt phaseNow land pl cur
    /\ known (getRemainingToMatureInfo (phases pl) nowSec
                (getPlantGrowTime (plant_id pl))) = true
    /\ remainingSec (getRemainingToMatureInfo (phases pl) nowSec
                       (getPlantGrowTime (plant_id pl))) = m.

(** [a] is the first of the candidates whose seed is [sid]. *)
Definition firstWithSeed (sid : Z) (available : list Available)
  (a : Available) : Prop :=
  exists before after,
    available = before ++ a :: after
    /\ av_seedId a = sid
    /\ forall x, In x before -> av_seedId x <> sid.

(** [a] is the first of the candidates of least required level. *)
Definition firstOfLeastLevel (available : list Available) (a : Available)
  : Prop :=
  exists before after,
    available = before ++ a :: after
    /\ (forall x, In x before -> av_requiredLevel a < av_requiredLevel x)
    /\ (forall x, In x after -> av_requiredLevel a <= av_requiredLevel x).

(** A service that rejects every call. *)
Definition offline : Server := fun _ _ => None.

(** The engine after one cycle on [quietFarm] at server time 200: its
    snapshot holds one growing plot that matures at 100000. *)
Definition restingEngine : Engine :=
  checkFarm quietFarm (mkCycleClock 200 200 (fun _ => 200) 1100)
    (initialEngine 1 5 100).

(** [m] takes every engine to one that [R] relates to it. *)
Definition respects {A : Type} (R : Engine -> Engine -> Prop) (m : M A)
  : Prop :=
  forall e, R e (snd (m e)).

(** [m] never throws. *)
Definition returns {A : Type} (m : M A) : Prop :=
  forall e, fst (m e) <> None.

(** The variables of the controller. *)
Definition controlOf (e : Engine)
  : bool * bool * bool * option FarmSnapshot * nat * Z * nat * Z * Z :=
  (isCheckingFarm e, isFirstFarmCheck e, forceFarmCheck e, lastFarmSnapshot e,
   lastUnlockedCount e, lastPushTime e, pendingChecks e, gid e, level e).

(** Everything but the two caches. *)
Definition outsideCaches (e : Engine) :=
  (controlOf e, gold e, calls e, slept e, warnings e).

Definition sameControl (e e' : Engine) : Prop := controlOf e' = controlOf e.

Definition sameOutsideCaches (e e' : Engine) : Prop :=
  outsideCaches e' = outsideCaches e.

(** The log of calls only grows. *)
Definition callsGrow (e e' : Engine) : Prop :=
  exists cs, calls e' = calls e ++ cs.

(** The [try] block of [checkFarm] after a reply that holds plots, in two
    parts: what it records, then what it does on the farm. *)
Definition recordAnalysis `{Collaborators} (status : LandStatus) (now : Z)
  : M unit :=
  let* _ := modify (set_lastFarmSnapshot
                      (Some (buildFarmSnapshot status now))) in
  let* _ := modify (fun e =>
                      set_lastUnlockedCount
                        (if (unlockedCount status =? 0)%nat
                         then lastUnlockedCount e
                         else unlockedCount status) e) in
  let* stateLevel := gets level in
  let* unlockedNow := gets lastUnlockedCount in
  let* _ := ensureBestSeedCache stateLevel (Z.of_nat unlockedNow) in
  let* _ := modify (set_isFirstFarmCheck false) in
  modify (set_forceFarmCheck false).

Definition actOn `{Collaborators} (srv : Server) (status : LandStatus)
  : M unit :=
  let* _ := batchOp (needWeed status) (weedOut srv) in
  let* _ := batchOp (needBug status) (insecticide srv) in
  let* _ := batchOp (needWater status) (waterLand srv) in
  let* harvestedLandIds :=
    if nonEmpty (harvestable status) then
      let* r := attempt (harvest srv (harvestable status)) in
      match r with
      | Some _ => ret (harvestable status)
      | None => let* _ := logWarn in ret []
      end
    else ret [] in
  let allDeadLands := dead status ++ harvestedLandIds in
  let allEmptyLands := empty status in
  if nonEmpty allDeadLands || nonEmpty allEmptyLands then
    let* r := attempt (autoPlantEmptyLands srv allDeadLands allEmptyLands) in
    match r with
    | Some _ => ret tt
    | None => logWarn
    end
  else ret tt.

(** The batch calls of a cycle, in the order the cycle issues them. *)
Definition batchCall (mk : list Z -> Call) (ids : list Z) : list Call :=
  if nonEmpty ids then [mk ids] else [].

Definition batchCalls (status : LandStatus) : list Call :=
  batchCall WeedOut (needWeed status)
  ++ batchCall Insecticide (needBug status)
  ++ batchCall WaterLand (needWater status)
  ++ batchCall Harvest (harvestable status).

(** Whether the analysis found something to do at once. *)
Definition hasWork (status : LandStatus) : bool :=
  nonEmpty (empty status) || nonEmpty (dead status)
  || nonEmpty (harvestable status) || nonEmpty (needWater status)
  || nonEmpty (needWeed status) || nonEmpty (needBug status).

(** The plots of [quietFarm]. *)
Definition quietLands : list Land :=
  [mkLand 1 true
     (Some (mkPlant 1020002 [mkPhase 1 100 0 0 0; mkPhase 6 100000 0 0 0]
              0 [] []))].

(** The best-seed cache holds, for its level and plot count, what the yield
    table computed from the shop rows gives, and the yield cache is valid. *)
Definition bestSeedCacheCoherent `{Collaborators} (e : Engine) : Prop :=
  cacheValid (seedYieldCache e)
  /\ forall n f,
       bsc_bestNoFert (bestSeedCache e) = Some n ->
       bsc_bestNormalFert (bestSeedCache e) = Some f ->
       fst (getBestSeedsForLevel (bsc_level (bestSeedCache e))
              (bsc_lands (bestSeedCache e)) None initialSeedYieldCache)
       = Some (mkBestSeeds n f).

(** The sum of the counts of a list of items. *)
Definition sumCounts (items : list Item) : Z :=
  fold_right (fun item acc => item_count item + acc) 0 items.

(** The seed id [autoPlantEmptyLands] plants after a purchase that returned
    [get_items]. *)
Definition seedReceived (bestSeed : Available) (get_items : list Item) : Z :=
  match get_items with
  | gotItem :: _ =>
      if 0 <? item_id gotItem then item_id gotItem else av_seedId bestSeed
  | [] => av_seedId bestSeed
  end.

Definition sameGold (e e' : Engine) : Prop := gold e' = gold e.

(** The calls of steps 3 to 5 of the replant pipeline for the seed
    [bestSeed] and the plots [lands]: nothing; or one purchase for [n]
    plots, alone or followed by one planting call for each of the first [n]
    plots and fertilizer calls for a prefix of these. *)
Definition purchaseShape (bestSeed : Available) (lands : list Z)
  (purchase : list Call) : Prop :=
  purchase = []
  \/ exists (n : nat) (actualSeedId : Z) (j : nat),
       (n <= length lands)%nat
       /\ (purchase
           = [BuyGoods (av_goodsId bestSeed) (Z.of_nat n) (av_price bestSeed)]
           \/ purchase
              = BuyGoods (av_goodsId bestSeed) (Z.of_nat n) (av_price bestSeed)
                :: map (PlantSeed actualSeedId) (firstn n lands)
                ++ map (fun id => Fertilize id NORMAL_FERTILIZER_ID)
                     (firstn j (firstn n lands))).

(** A shop entry the player can buy at level [stateLevel]: unlocked, every
    level condition met, purchase limit not reached. *)
Definition purchasable (stateLevel : Z) (g : Goods) : Prop :=
  goods_unlocked g = true
  /\ (forall c, In c (goods_conds g) -> cond_type c = 1 ->
        cond_param c <= stateLevel)
  /\ ~ (0 < limit_count g /\ limit_count g <= bought_num g).

(** A seed shop with one locked entry, one entry that needs level 9, one
    sold out and two that can be bought. *)
Definition sampleGoods : list Goods :=
  [ mkGoods 5001 false [] 0 0 20001 5;
    mkGoods 5009 true [mkCond 1 9] 0 0 20009 50;
    mkGoods 5004 true [] 3 3 20004 8;
    mkGoods 5003 true [mkCond 1 2] 0 0 20003 20;
    mkGoods 5002 true [mkCond 2 99; mkCond 1 1] 5 1 20002 10 ].

Definition seedShop : Server :=
  fun _ c =>
    match c with
    | ShopInfo _ => Some (ShopInfoReply sampleGoods)
    | _ => Some PlainReply
    end.

(** A row [getBestSeedsForLevel] may choose at level [lv] among the seeds
    [ids] (all seeds when [ids] is [None]). *)
Definition eligibleRow (lv : Z) (ids : option (list Z)) (r : SeedYield)
  : Prop :=
  requiredLevel (seed r) <= Z.max 1 lv
  /\ seed_unlocked (seed r) = true
  /\ match ids with
     | Some l => In (seedId (seed r)) l
     | None => True
     end.

(** The entry of the result for a chosen row. *)
Definition bestOf (r : SeedYield) (key : SeedYield -> Q) : BestSeed :=
  mkBestSeed (seedId (seed r)) (goodsId (seed r)) (price (seed r)) (key r).

(** The loop of [loadConfigs] over the plant configuration, from cleared
    maps: the map by plant id and the map by seed id.  (The map by fruit id
    is filled the same way from a field that [PlantCfg] does not carry.) *)
Definition loadPlants (plantConfig : list PlantCfg)
  : gmap Z PlantCfg * gmap Z PlantCfg :=
  fold_left
    (fun maps plant =>
       (<[cfg_id plant := plant]> (fst maps),
        if cfg_seed_id plant =? 0 then snd maps
        else <[cfg_seed_id plant := plant]> (snd maps)))
    plantConfig (∅, ∅).

Module Summaries.
Import String.

(** [items.join(' | ')] *)
Definition join (items : list string) : string := concat " | " items.
End Summaries.

(** [l.slice(i, j)] for [i <= j]. *)
Definition slice {A} (i j : nat) (l : list A) : list A :=
  firstn (j - i) (skipn i l).

Definition perLine : nat := 4.

(** The loop of [buildFarmStatusLines] from index [i]; it runs at most
    [fuel] times. *)
Fixpoint statusLinesFrom (fuel i : nat) (landSummaries : list String.string)
  : list String.string :=
  match fuel with
  | O => []
  | S fuel =>
      if (i <? length landSummaries)%nat then
        Summaries.join (slice i (i + perLine) landSummaries)
        :: statusLinesFrom fuel (i + perLine) landSummaries
      else []
  end.

(** One round for each summary is more than the loop needs. *)
Definition buildFarmStatusLines (landSummaries : list String.string)
  : list String.string :=
  statusLinesFrom (length landSummaries) 0 landSummaries.

(** *** The grow-phase string of a plant

    [Plant.json] gives the phases of a plant as one string,
    [name:seconds;name:seconds;...].  A string is the list of its bytes: the
    separators and the digits are ASCII, and no byte of a longer UTF-8
    sequence is. *)

Module Chars.
Import Ascii String.

Definition colon : ascii := ":"%char.

Definition semicolon : ascii := ";"%char.

(** A grow-phase string, and the names and digits of its phases. *)
Definition sampleGrowPhases : list ascii :=
  list_ascii_of_string "seed:30;sprout:30;mature:0;".

Definition samplePhases : list (list ascii * list ascii) :=
  [ (list_ascii_of_string "seed", list_ascii_of_string "30");
    (list_ascii_of_string "sprout", list_ascii_of_string "30");
    (list_ascii_of_string "mature", list_ascii_of_string "0") ].
End Chars.

(** [\d] *)
Definition isDigit (c : Ascii.ascii) : bool :=
  (48 <=? Ascii.nat_of_ascii c)%nat && (Ascii.nat_of_ascii c <=? 57)%nat.

(** [s.split(sep)] *)
Fixpoint splitOn (sep : Ascii.ascii) (s : list Ascii.ascii)
  : list (list Ascii.ascii) :=
  match s with
  | [] => [[]]
  | c :: rest =>
      if Ascii.eqb c sep then [] :: splitOn sep rest
      else
        match splitOn sep rest with
        | segment :: segments => (c :: segment) :: segments
        | [] => [[c]]
        end
  end.

(** The longest prefix of digits. *)
Fixpoint leadingDigits (s : list Ascii.ascii) : list Ascii.ascii :=
  match s with
  | c :: rest => if isDigit c then c :: leadingDigits rest else []
  | [] => []
  end.

(** [phase.match(/:(\d+)/)]: the digits captured by the leftmost match, a
    colon followed by at least one digit. *)
Fixpoint matchSeconds (phase : list Ascii.ascii) : option (list Ascii.ascii) :=
  match phase with
  | [] => None
  | c :: rest =>
      if Ascii.eqb c Chars.colon then
        match leadingDigits rest with
        | [] => matchSeconds rest
        | digits => Some digits
        end
      else matchSeconds rest
  end.

(** [parseInt] on a string of digits. *)
Definition parseInt (digits : list Ascii.ascii) : Z :=
  fold_left (fun n c => 10 * n + (Z.of_nat (Ascii.nat_of_ascii c) - 48))
    digits 0.

(** The parsing loop of [getPlantGrowTime]: one entry per non-empty segment
    of the string, which is what [cfg_grow_phases] holds. *)
Definition growPhasesOf (grow_phases : list Ascii.ascii) : list (option Z) :=
  map (fun phase => option_map parseInt (matchSeconds phase))
    (List.filter nonEmpty (splitOn Chars.semicolon grow_phases)).

(** The string of the phases [(name, digits)]. *)
Definition renderGrowPhases
  (phases : list (list Ascii.ascii * list Ascii.ascii)) : list Ascii.ascii :=
  flat_map (fun p => fst p ++ Chars.colon :: snd p ++ [Chars.semicolon])
    phases.

(** ** Properties of the Land State Analyzer *)

Section CurrentPhase.
Context `{Collaborators}.
Hypothesis toTimeSec_nonneg : forall v, 0 <= toTimeSec v.

Lemma begun_qualifies nowSec p : begun nowSec p = true <-> qualifies nowSec p.
Proof.
  unfold begun, qualifies.
  rewrite andb_true_iff, Z.ltb_lt, Z.leb_le.
  specialize (toTimeSec_nonneg (begin_time p)). lia.
Qed.

Lemma begun_not_qualifies nowSec p :
  begun nowSec p = false <-> ~ qualifies nowSec p.
Proof.
  rewrite <- begun_qualifies. destruct (begun nowSec p); intuition congruence.
Qed.

End CurrentPhase.

Lemma find_rev_last {A} (f : A -> bool) (l : list A) (x : A) :
  find f (rev l) = Some x ->
  exists before after,
    l = before ++ x :: after /\ f x = true
    /\ forall y, In y after -> f y = false.
Proof.
  induction l as [|a l IH] using rev_ind; simpl; intros Hf.
  - discriminate.
  - rewrite rev_app_distr in Hf. simpl in Hf.
    destruct (f a) eqn:Ha.
    + injection Hf as <-. exists l, []. split; [reflexivity|].
      split; [assumption|]. intros y [].
    + destruct (IH Hf) as (before & after & -> & Hx & Hafter).
      exists before, (after ++ [a]). split.
      * rewrite <- app_assoc. reflexivity.
      * split; [assumption|]. intros y Hy.
        apply in_app_or in Hy as [Hy|[<-|[]]]; auto.
Qed.

Lemma find_rev_none {A} (f : A -> bool) (l : list A) :
  find f (rev l) = None <-> forall y, In y l -> f y = false.
Proof.
  split.
  - intros Hf y Hy. apply (find_none f (rev l) Hf). now apply in_rev in Hy.
  - intros Hall. destruct (find f (rev l)) as [x|] eqn:Hf; [|reflexivity].
    apply find_some in Hf as [Hin Hx]. apply in_rev in Hin.
    rewrite (Hall x Hin) in Hx. discriminate.
Qed.

Lemma ForallOrdPairs_before {A} (R : A -> A -> Prop) before x after :
  ForallOrdPairs R (before ++ x :: after) ->
  forall y, In y before -> R y x.
Proof.
  induction before as [|b before IH]; simpl; intros Hord y Hy.
  - destruct Hy.
  - inversion Hord as [|? ? Hb Hrest]; subst.
    destruct Hy as [<-|Hy].
    + rewrite List.Forall_forall in Hb. apply Hb. apply in_or_app. right. now left.
    + now apply IH.
Qed.

Lemma sample_toTimeSec_nonneg : forall v, 0 <= toTimeSec v.
Proof.
  intros v. simpl.
  destruct (Z.leb_spec v 0); [lia|].
  destruct (Z.ltb_spec 1000000000000 v); [|lia].
  apply Z.div_pos; lia.
Qed.

(** C1 (as amended). With timestamps that are never negative: when some
    phase has a non-zero begin timestamp not after the server time,
    [getCurrentPhase] returns the last such phase of the list, which is the
    chronologically latest one when the list is in chronological order; when
    no phase is such, it returns the first listed phase. *)
Theorem getCurrentPhase_last_qualifying `{Collaborators} :
  (forall v, 0 <= toTimeSec v) ->
  forall phases nowSec,
    ((exists p, In p phases /\ qualifies nowSec p) ->
     exists before cur after,
       getCurrentPhase phases nowSec = Some cur
       /\ phases = before ++ cur :: after
       /\ qualifies nowSec cur
       /\ (forall q, In q after -> ~ qualifies nowSec q)
       /\ (chronological phases ->
           forall q, In q phases -> qualifies nowSec q ->
                     toTimeSec (begin_time q) <= toTimeSec (begin_time cur)))
    /\ ((forall p, In p phases -> ~ qualifies nowSec p) ->
        getCurrentPhase phases nowSec = hd_error phases).
Proof.
  intros Hnn phases nowSec. split.
  - intros (p & Hp & Hq).
    destruct phases as [|first rest]; [destruct Hp|].
    unfold getCurrentPhase.
    destruct (find (begun nowSec) (rev (first :: rest))) as [cur|] eqn:Hf.
    + destruct (find_rev_last _ _ _ Hf) as (before & after & Heq & Hcur & Hafter).
      exists before, cur, after.
      split; [reflexivity|]. split; [assumption|].
      split; [now apply begun_qualifies|].
      split; [intros q Hin; apply begun_not_qualifies; auto|].
      intros Hchr q Hin Hqq. rewrite Heq in Hin, Hchr.
      apply in_app_or in Hin as [Hin|[<-|Hin]].
      * apply (ForallOrdPairs_before _ _ _ _ Hchr q Hin).
        -- apply Hqq.
        -- apply begun_qualifies in Hcur; [apply Hcur|assumption].
      * lia.
      * apply Hafter in Hin. apply begun_not_qualifies in Hin; tauto.
    + exfalso. rewrite find_rev_none in Hf. specialize (Hf p Hp).
      apply begun_not_qualifies in Hf; tauto.
  - intros Hnone. destruct phases as [|first rest]; [reflexivity|].
    unfold getCurrentPhase.
    replace (find (begun nowSec) (rev (first :: rest))) with (@None Phase);
      [reflexivity|].
    symmetry. apply find_rev_none. intros q Hin.
    apply begun_not_qualifies; auto.
Qed.

Lemma getCurrentPhase_last_qualifying_witness :
  (forall v, 0 <= toTimeSec v)
  /\ exists before cur after,
       getCurrentPhase [mkPhase 1 100 0 0 0; mkPhase 6 300 0 0 0] 200 = Some cur
       /\ [mkPhase 1 100 0 0 0; mkPhase 6 300 0 0 0] = before ++ cur :: after
       /\ qualifies 200 cur
       /\ (forall q, In q after -> ~ qualifies 200 q)
       /\ (chronological [mkPhase 1 100 0 0 0; mkPhase 6 300 0 0 0] ->
           forall q, In q [mkPhase 1 100 0 0 0; mkPhase 6 300 0 0 0] ->
                     qualifies 200 q ->
                     toTimeSec (begin_time q) <= toTimeSec (begin_time cur)).
Proof.
  split; [exact sample_toTimeSec_nonneg|].
  apply (getCurrentPhase_last_qualifying sample_toTimeSec_nonneg
           [mkPhase 1 100 0 0 0; mkPhase 6 300 0 0 0] 200).
  exists (mkPhase 1 100 0 0 0). split; [simpl; auto|].
  split; vm_compute; intro; discriminate.
Defined.

(** C1 as stated fails on a list that is not in chronological order: at
    time 200 both phases have begun, the phase returned is the last of the
    list, and the other one began later. *)
Lemma getCurrentPhase_not_chronologically_latest :
  getCurrentPhase [mkPhase 2 100 0 0 0; mkPhase 1 50 0 0 0] 200
  = Some (mkPhase 1 50 0 0 0)
  /\ qualifies 200 (mkPhase 2 100 0 0 0)
  /\ toTimeSec (begin_time (mkPhase 1 50 0 0 0))
     < toTimeSec (begin_time (mkPhase 2 100 0 0 0)).
Proof.
  split; [reflexivity|]. split; [split; vm_compute; intro; discriminate|].
  reflexivity.
Qed.

(** *** Remaining time to maturity *)

Lemma remainStep_minStep `{Collaborators} phases mb eb :
  fold_left remainStep phases (mb, eb)
  = (fold_left (minStep (fun p => phase p =? MATURE)) phases mb,
     fold_left (minStep (fun _ => true)) phases eb).
Proof.
  revert mb eb. induction phases as [|p phases IH]; intros mb eb; simpl.
  - reflexivity.
  - rewrite <- IH. f_equal.
Qed.

Lemma minStep_fold `{Collaborators} (sel : Phase -> bool) phases :
  let m := fold_left (minStep sel) phases 0 in
  (m = 0
   /\ forall q, In q phases -> sel q = true ->
                ~ 0 < toTimeSec (begin_time q))
  \/ (0 < m
      /\ (exists p, In p phases /\ sel p = true
                    /\ toTimeSec (begin_time p) = m)
      /\ forall q, In q phases -> sel q = true ->
                   0 < toTimeSec (begin_time q) ->
                   m <= toTimeSec (begin_time q)).
Proof.
  induction phases as [|p phases IH] using rev_ind; simpl.
  - left. split; [reflexivity|]. intros q [].
  - rewrite fold_left_app. simpl.
    set (m := fold_left (minStep sel) phases 0) in *.
    unfold minStep. cbv zeta in IH.
    destruct (sel p) eqn:Hsel; simpl.
    + destruct (Z.ltb_spec 0 (toTimeSec (begin_time p))) as [Hpos|Hpos]; simpl.
      * destruct IH as [(Hm & Hnone)|(Hm & (p0 & Hin0 & Hsel0 & Hbt0) & Hmin)].
        -- rewrite Hm. simpl. right. split; [assumption|]. split.
           ++ exists p. split; [apply in_or_app; right; now left|auto].
           ++ intros q Hq Hs Hq0.
              apply in_app_or in Hq as [Hq|[<-|[]]]; [|lia].
              exfalso. exact (Hnone q Hq Hs Hq0).
        -- destruct (Z.eqb_spec m 0) as [Hz|Hz]; [lia|]. simpl.
           destruct (Z.ltb_spec (toTimeSec (begin_time p)) m) as [Hlt|Hge].
           ++ right. split; [assumption|]. split.
              ** exists p. split; [apply in_or_app; right; now left|auto].
              ** intros q Hq Hs Hq0.
                 apply in_app_or in Hq as [Hq|[<-|[]]]; [|lia].
                 specialize (Hmin q Hq Hs Hq0). lia.
           ++ right. split; [assumption|]. split.
              ** exists p0. split; [apply in_or_app; now left|auto].
              ** intros q Hq Hs Hq0.
                 apply in_app_or in Hq as [Hq|[<-|[]]]; [|lia].
                 exact (Hmin q Hq Hs Hq0).
      * destruct IH as [(Hm & Hnone)|(Hm & (p0 & Hin0 & Hsel0 & Hbt0) & Hmin)].
        -- left. split; [assumption|]. intros q Hq Hs.
           apply in_app_or in Hq as [Hq|[<-|[]]]; [now apply Hnone|lia].
        -- right. split; [assumption|]. split.
           ++ exists p0. split; [apply in_or_app; now left|auto].
           ++ intros q Hq Hs Hq0.
              apply in_app_or in Hq as [Hq|[<-|[]]]; [|lia].
              exact (Hmin q Hq Hs Hq0).
    + destruct IH as [(Hm & Hnone)|(Hm & (p0 & Hin0 & Hsel0 & Hbt0) & Hmin)].
      * left. split; [assumption|]. intros q Hq Hs.
        apply in_app_or in Hq as [Hq|[<-|[]]]; [now apply Hnone|congruence].
      * right. split; [assumption|]. split.
        -- exists p0. split; [apply in_or_app; now left|auto].
        -- intros q Hq Hs Hq0.
           apply in_app_or in Hq as [Hq|[<-|[]]]; [|congruence].
           exact (Hmin q Hq Hs Hq0).
Qed.

Lemma getRemainingToMatureInfo_unfold `{Collaborators} phases nowSec total :
  phases <> [] ->
  getRemainingToMatureInfo phases nowSec total
  = let matureBegin :=
      fold_left (minStep (fun p => phase p =? MATURE)) phases 0 in
    let earliest := fold_left (minStep (fun _ => true)) phases 0 in
    if 0 <? matureBegin then
      mkRemainInfo (Z.max 0 (matureBegin - nowSec)) true
    else if (0 <? total) && (0 <? earliest) then
      mkRemainInfo (Z.max 0 (total - Z.max 0 (nowSec - earliest))) true
    else mkRemainInfo 0 false.
Proof.
  intros Hne. unfold getRemainingToMatureInfo.
  destruct phases as [|p phases]; [congruence|].
  rewrite remainStep_minStep. reflexivity.
Qed.

(** C3 (as amended). With timestamps that are never negative: when some
    MATURE phase has a non-zero begin timestamp, the remaining time is known
    and is the earliest such timestamp minus now, floored at zero; otherwise,
    when the total grow time is positive and some phase has a non-zero begin
    timestamp, it is known and is the total grow time minus the time elapsed
    since the earliest such timestamp, floored at zero; otherwise it is
    unknown.  The remaining seconds are never negative. *)
Theorem getRemainingToMatureInfo_cases `{Collaborators} :
  (forall v, 0 <= toTimeSec v) ->
  forall phases nowSec totalGrowTime,
    let info := getRemainingToMatureInfo phases nowSec totalGrowTime in
    let noMatureBegin :=
      forall p, In p phases -> phase p = MATURE ->
                toTimeSec (begin_time p) = 0 in
    0 <= remainingSec info
    /\ ((exists p, In p phases /\ phase p = MATURE
                   /\ toTimeSec (begin_time p) <> 0) ->
        exists m, earliestBegin (fun p => phase p = MATURE) phases m
                  /\ known info = true
                  /\ remainingSec info = Z.max 0 (m - nowSec))
    /\ (noMatureBegin -> 0 < totalGrowTime ->
        (exists p, In p phases /\ toTimeSec (begin_time p) <> 0) ->
        exists b, earliestBegin (fun _ => True) phases b
                  /\ known info = true
                  /\ remainingSec info
                     = Z.max 0 (totalGrowTime - Z.max 0 (nowSec - b)))
    /\ (noMatureBegin ->
        totalGrowTime <= 0
        \/ (forall p, In p phases -> toTimeSec (begin_time p) = 0) ->
        known info = false /\ remainingSec info = 0).
Proof.
  intros Hnn phases nowSec total info noMatureBegin.
  assert (Hpos : forall p, toTimeSec (begin_time p) <> 0
                           <-> 0 < toTimeSec (begin_time p)).
  { intros p. specialize (Hnn (begin_time p)). lia. }
  destruct phases as [|p0 rest].
  { subst info noMatureBegin. simpl. split; [lia|].
    split; [intros (p & [] & _)|]. split; [intros _ _ (p & [] & _)|].
    intros _ _. split; reflexivity. }
  set (phases := p0 :: rest) in *.
  assert (Hne : phases <> []) by discriminate.
  subst info. rewrite (getRemainingToMatureInfo_unfold _ _ _ Hne). cbv zeta.
  pose proof (minStep_fold (fun p => phase p =? MATURE) phases) as HM.
  pose proof (minStep_fold (fun _ => true) phases) as HE.
  cbv zeta in HM, HE.
  set (mb := fold_left (minStep (fun p => phase p =? MATURE)) phases 0) in *.
  set (eb := fold_left (minStep (fun _ => true)) phases 0) in *.
  clearbody mb eb phases.
  destruct HM as [(Hmb & HnoM)|(Hmb & (pm & Hinm & Hselm & Hbtm) & Hminm)].
  - (* no MATURE phase with a begin timestamp *)
    subst mb. simpl (0 <? 0).  cbv iota.
    assert (HnoMature : noMatureBegin).
    { intros p Hin Hph. specialize (HnoM p Hin).
      rewrite Hph, Z.eqb_refl in HnoM. specialize (HnoM eq_refl).
      specialize (Hnn (begin_time p)). lia. }
    destruct HE as [(Heb & HnoE)|(Heb & (pe & Hine & _ & Hbte) & Hmine)].
    + subst eb. rewrite andb_false_r. simpl.
      split; [lia|]. split.
      { intros (p & Hin & Hph & Hbt). exfalso. apply Hbt. now apply HnoMature. }
      split.
      { intros _ _ (p & Hin & Hbt). exfalso.
        apply Hpos in Hbt. exact (HnoE p Hin eq_refl Hbt). }
      intros _ _. split; reflexivity.
    + destruct (Z.ltb_spec 0 eb) as [_|]; [|lia].
      destruct (Z.ltb_spec 0 total) as [Htot|Htot]; simpl.
      * split; [lia|]. split.
        { intros (p & Hin & Hph & Hbt). exfalso. apply Hbt.
          now apply HnoMature. }
        split.
        { intros _ _ _. exists eb. split; [|split; reflexivity].
          split.
          - exists pe. repeat split; auto. lia.
          - intros q Hq _ Hq0. apply Hmine; auto. now apply Hpos. }
        intros _ [Hle|Hzero]; [lia|].
        specialize (Hzero pe Hine). lia.
      * split; [lia|]. split.
        { intros (p & Hin & Hph & Hbt). exfalso. apply Hbt.
          now apply HnoMature. }
        split; [intros _ Hlt; lia|].
        intros _ _. split; reflexivity.
  - (* some MATURE phase has a begin timestamp *)
    destruct (Z.ltb_spec 0 mb) as [_|]; [|lia]. simpl.
    apply Z.eqb_eq in Hselm.
    assert (Hsome : ~ noMatureBegin).
    { intros Hno. specialize (Hno pm Hinm Hselm). lia. }
    split; [lia|]. split.
    { intros _. exists mb. split; [|split; reflexivity].
      split.
      - exists pm. repeat split; auto. lia.
      - intros q Hq Hph Hq0. apply Hminm; auto.
        + now apply Z.eqb_eq.
        + now apply Hpos. }
    split; [intros Hno; contradiction|].
    intros Hno; contradiction.
Qed.

Lemma getRemainingToMatureInfo_cases_witness :
  (forall v, 0 <= toTimeSec v)
  /\ exists m,
       earliestBegin (fun p => phase p = MATURE)
         [mkPhase 1 100 0 0 0; mkPhase 6 300 0 0 0] m
       /\ known (getRemainingToMatureInfo
                   [mkPhase 1 100 0 0 0; mkPhase 6 300 0 0 0] 200 60) = true
       /\ remainingSec (getRemainingToMatureInfo
                          [mkPhase 1 100 0 0 0; mkPhase 6 300 0 0 0] 200 60)
          = Z.max 0 (m - 200).
Proof.
  split; [exact sample_toTimeSec_nonneg|].
  apply (getRemainingToMatureInfo_cases sample_toTimeSec_nonneg
           [mkPhase 1 100 0 0 0; mkPhase 6 300 0 0 0] 200 60).
  exists (mkPhase 6 300 0 0 0).
  split; [simpl; auto|]. split; [reflexivity|]. vm_compute. discriminate.
Defined.

(** C3 as stated fails on a growing plot whose MATURE phase began in the
    past: the plot below is classified as growing at time 100 (its last begun
    phase has tag 1), its earliest MATURE begin timestamp is 50, and the
    remaining time returned is 0, not 50 - 100. *)
Lemma getRemainingToMatureInfo_not_begin_minus_now :
  growing (analyzeLands
             [mkLand 1 true
                (Some (mkPlant 1020002
                         [mkPhase 6 50 0 0 0; mkPhase 1 60 0 0 0] 0 [] []))]
             100 (fun _ => 100)) = [1]
  /\ earliestBegin (fun p => phase p = MATURE)
       [mkPhase 6 50 0 0 0; mkPhase 1 60 0 0 0] 50
  /\ remainingSec (getRemainingToMatureInfo
                     [mkPhase 6 50 0 0 0; mkPhase 1 60 0 0 0] 100 60)
     <> 50 - 100.
Proof.
  split; [vm_compute; reflexivity|]. split.
  - split.
    + exists (mkPhase 6 50 0 0 0). simpl. repeat split; auto.
    + intros q Hq Hph Hbt. destruct Hq as [<-|[<-|[]]]; simpl in *; lia.
  - vm_compute. discriminate.
Qed.

(** *** Categories *)

Section Analyze.
Context `{Collaborators}.
Variables nowSec phaseNow : Z.

Lemma min_update_ids (known : bool) (rem : Z) (r : LandStatus) :
  let r' :=
    if known then
      match minRemainingSec r with
      | None => set_minRemainingSec (Some rem) r
      | Some m => if rem <? m then set_minRemainingSec (Some rem) r else r
      end
    else r in
  (forall c, idsOf c r' = idsOf c r) /\ (forall a, needOf a r' = needOf a r)
  /\ unlockedCount r' = unlockedCount r.
Proof.
  destruct known; simpl; [|repeat split].
  destruct (minRemainingSec r) as [m|]; [destruct (rem <? m)|];
    (split; [intros []; reflexivity|split; [intros []; reflexivity|reflexivity]]).
Qed.

Lemma analyzeGrowing_ids id pl cur total (r : LandStatus) :
  let r' := analyzeGrowing nowSec id pl cur total r in
  (forall c, idsOf c r'
             = idsOf c r ++ (if bool_decide (Growing = c) then [id] else []))
  /\ (forall a, needOf a r'
                = needOf a r
                  ++ (if afflicted a pl cur nowSec then [id] else []))
  /\ unlockedCount r' = unlockedCount r.
Proof.
  unfold analyzeGrowing.
  set (info := getRemainingToMatureInfo (phases pl) nowSec total).
  set (r1 := if needsWater pl cur nowSec then push_needWater id r else r).
  set (r2 := if hasWeeds pl cur nowSec then push_needWeed id r1 else r1).
  set (r3 := if hasBugs pl cur nowSec then push_needBug id r2 else r2).
  destruct (min_update_ids (known info) (remainingSec info)
              (push_growing id r3)) as (Hc & Ha & Hu).
  cbv zeta. split; [|split].
  - intros c.
    change (idsOf c (push_snapshot ?s ?x)) with (idsOf c x).
    rewrite Hc. subst r1 r2 r3.
    destruct (needsWater pl cur nowSec), (hasWeeds pl cur nowSec),
      (hasBugs pl cur nowSec), c; simpl;
      try rewrite app_nil_r; reflexivity.
  - intros a.
    change (needOf a (push_snapshot ?s ?x)) with (needOf a x).
    rewrite Ha. subst r1 r2 r3.
    destruct a; simpl afflicted;
      destruct (needsWater pl cur nowSec), (hasWeeds pl cur nowSec),
        (hasBugs pl cur nowSec); simpl;
      try rewrite app_nil_r; reflexivity.
  - change (unlockedCount (push_snapshot ?s ?x)) with (unlockedCount x).
    rewrite Hu. subst r1 r2 r3.
    destruct (needsWater pl cur nowSec), (hasWeeds pl cur nowSec),
      (hasBugs pl cur nowSec); reflexivity.
Qed.

(** What one iteration of the loop adds to each id list. *)
Lemma analyzeLand_ids (r : LandStatus) (land : Land) :
  let r' := analyzeLand nowSec phaseNow r land in
  (forall c, c <> Locked ->
     idsOf c r'
     = idsOf c r
       ++ (if bool_decide (categoryOf phaseNow land = c) then [land_id land]
           else []))
  /\ (forall a,
        needOf a r'
        = needOf a r
          ++ (if growingWith a nowSec phaseNow land then [land_id land]
              else []))
  /\ unlockedCount r'
     = (unlockedCount r + (if unlocked land then 1 else 0))%nat.
Proof.
  unfold analyzeLand, growingWith, categoryOf.
  destruct (unlocked land); simpl.
  2:{ split; [intros [] Hc; simpl; try rewrite app_nil_r; congruence|].
      split; [intros []; simpl; now rewrite app_nil_r|lia]. }
  destruct (plant land) as [pl|]; simpl.
  2:{ split; [intros [] Hc; simpl; try rewrite app_nil_r; congruence|].
      split; [intros []; simpl; now rewrite app_nil_r|lia]. }
  destruct (phases pl) as [|p0 rest] eqn:Hph.
  { simpl.
    split; [intros [] Hc; simpl; try rewrite app_nil_r; congruence|].
    split; [intros []; simpl; now rewrite app_nil_r|lia]. }
  destruct (getCurrentPhase (p0 :: rest) phaseNow) as [cur|].
  2:{ simpl.
      split; [intros [] Hc; simpl; try rewrite app_nil_r; congruence|].
      split; [intros []; simpl; now rewrite app_nil_r|lia]. }
  destruct (phase cur =? DEAD).
  { simpl.
    split; [intros [] Hc; simpl; try rewrite app_nil_r; congruence|].
    split; [intros []; simpl; now rewrite app_nil_r|lia]. }
  destruct (phase cur =? MATURE).
  { simpl.
    split; [intros [] Hc; simpl; try rewrite app_nil_r; congruence|].
    split; [intros []; simpl; now rewrite app_nil_r|lia]. }
  destruct (analyzeGrowing_ids (land_id land) pl cur
              (getPlantGrowTime (plant_id pl)) (incr_unlockedCount r))
    as (Hc & Ha & Hu).
  split; [|split].
  - intros c _. rewrite Hc. destruct c; reflexivity.
  - intros a. rewrite Ha. destruct a; reflexivity.
  - rewrite Hu. simpl. lia.
Qed.

Lemma category_locked (land : Land) :
  categoryOf phaseNow land = Locked <-> unlocked land = false.
Proof.
  unfold categoryOf. destruct (unlocked land); simpl; [|tauto].
  split; [|discriminate].
  destruct (plant land) as [pl|]; [|discriminate].
  destruct (getCurrentPhase (phases pl) phaseNow) as [cur|]; [|discriminate].
  destruct (phase cur =? DEAD); [discriminate|].
  destruct (phase cur =? MATURE); discriminate.
Qed.

(** The category [Growing] is the growing plot of the specification. *)
Lemma category_growing (land : Land) :
  categoryOf phaseNow land = Growing
  <-> exists pl cur, growsAt phaseNow land pl cur.
Proof.
  unfold categoryOf, growsAt. split.
  - destruct (unlocked land); simpl; [|discriminate].
    destruct (plant land) as [pl|]; [|discriminate].
    destruct (getCurrentPhase (phases pl) phaseNow) as [cur|] eqn:Hcur;
      [|discriminate].
    destruct (Z.eqb_spec (phase cur) DEAD); [discriminate|].
    destruct (Z.eqb_spec (phase cur) MATURE); [discriminate|].
    intros _. exists pl, cur. auto.
  - intros (pl & cur & -> & -> & -> & Hd & Hm). simpl.
    apply Z.eqb_neq in Hd, Hm. now rewrite Hd, Hm.
Qed.
End Analyze.

(** *** The plots with their clock readings *)

Lemma timedFrom_snd (phaseClock : nat -> Z) (lands : list Land) :
  forall i, map snd (timedFrom phaseClock i lands) = lands.
Proof.
  induction lands as [|land lands IH]; intros i; simpl; [reflexivity|].
  now rewrite IH.
Qed.

Lemma timedFrom_nth (phaseClock : nat -> Z) (lands : list Land) :
  forall i j land,
    nth_error lands j = Some land ->
    In (phaseClock (i + j)%nat, land) (timedFrom phaseClock i lands).
Proof.
  induction lands as [|l lands IH]; intros i [|j] land Hj; simpl in *;
    try discriminate.
  - injection Hj as <-. left. now rewrite Nat.add_0_r.
  - right. replace (i + S j)%nat with (S i + j)%nat by lia. now apply IH.
Qed.

Lemma timedFrom_In (phaseClock : nat -> Z) (lands : list Land) :
  forall i t land,
    In (t, land) (timedFrom phaseClock i lands) ->
    exists j, nth_error lands j = Some land /\ t = phaseClock (i + j)%nat.
Proof.
  induction lands as [|l lands IH]; intros i t land Hin; simpl in Hin;
    [contradiction|].
  destruct Hin as [Heq|Hin].
  - injection Heq as <- <-. exists 0%nat. now rewrite Nat.add_0_r.
  - destruct (IH (S i) t land Hin) as (j & Hj & ->).
    exists (S j). split; [exact Hj|f_equal; lia].
Qed.

Lemma timedFrom_ids (phaseClock : nat -> Z) (lands : list Land) (i : nat) :
  map (fun tl => land_id (snd tl)) (timedFrom phaseClock i lands)
  = map land_id lands.
Proof. now rewrite <- (map_map snd land_id), timedFrom_snd. Qed.

Lemma timedFrom_unlocked (phaseClock : nat -> Z) (lands : list Land) :
  forall i,
    map (fun tl => land_id (snd tl))
      (List.filter (fun tl => unlocked (snd tl)) (timedFrom phaseClock i lands))
    = map land_id (List.filter unlocked lands).
Proof.
  induction lands as [|land lands IH]; intros i; simpl; [reflexivity|].
  destruct (unlocked land); simpl; now rewrite IH.
Qed.

Section AnalyzeLands.
Context `{Collaborators}.
Variable nowSec : Z.

(** The loop of [analyzeLands] is a fold over the plots with their clock
    readings. *)
Lemma analyzeLandsFrom_timed (phaseClock : nat -> Z) (lands : list Land) :
  forall i r,
    analyzeLandsFrom nowSec phaseClock i lands r
    = fold_left (fun r tl => analyzeLand nowSec (fst tl) r (snd tl))
        (timedFrom phaseClock i lands) r.
Proof.
  induction lands as [|land lands IH]; intros i r; simpl; [reflexivity|].
  apply IH.
Qed.

Lemma analyzeLands_fold (plots : list (Z * Land)) (r : LandStatus) :
  let r' := fold_left (fun r tl => analyzeLand nowSec (fst tl) r (snd tl))
              plots r in
  (forall c, c <> Locked ->
     idsOf c r'
     = idsOf c r
       ++ idsWhere (fun t l => bool_decide (categoryOf t l = c)) plots)
  /\ (forall a,
        needOf a r' = needOf a r ++ idsWhere (growingWith a nowSec) plots)
  /\ unlockedCount r'
     = (unlockedCount r
        + length (List.filter (fun tl => unlocked (snd tl)) plots))%nat.
Proof.
  revert r. induction plots as [|[t land] plots IH]; intros r; simpl.
  - split; [intros c _; now rewrite app_nil_r|].
    split; [intros a; now rewrite app_nil_r|lia].
  - destruct (IH (analyzeLand nowSec t r land)) as (Hc & Ha & Hu).
    destruct (analyzeLand_ids nowSec t r land) as (Hc1 & Ha1 & Hu1).
    split; [|split].
    + intros c Hne. rewrite (Hc c Hne), (Hc1 c Hne), <- app_assoc.
      f_equal. unfold idsWhere. simpl.
      destruct (bool_decide (categoryOf t land = c)); reflexivity.
    + intros a. rewrite Ha, Ha1, <- app_assoc.
      f_equal. unfold idsWhere. simpl.
      destruct (growingWith a nowSec t land); reflexivity.
    + rewrite Hu, Hu1. destruct (unlocked land); simpl; lia.
Qed.

Lemma analyzeLands_ids (lands : list Land) (phaseClock : nat -> Z) :
  let r := analyzeLands lands nowSec phaseClock in
  let plots := timedFrom phaseClock 0 lands in
  (forall c, c <> Locked ->
     idsOf c r = idsWhere (fun t l => bool_decide (categoryOf t l = c)) plots)
  /\ (forall a, needOf a r = idsWhere (growingWith a nowSec) plots)
  /\ unlockedCount r = length (List.filter unlocked lands).
Proof.
  intros r plots. subst r. unfold analyzeLands.
  rewrite analyzeLandsFrom_timed. fold plots.
  destruct (analyzeLands_fold plots (emptyStatus nowSec)) as (Hc & Ha & Hu).
  split; [|split].
  - intros c Hne. rewrite (Hc c Hne). now destruct c.
  - intros a. rewrite Ha. now destruct a.
  - rewrite Hu. simpl. subst plots.
    rewrite <- (length_map (fun tl => land_id (snd tl))).
    rewrite timedFrom_unlocked. now rewrite length_map.
Qed.

Lemma category_count (plots : list (Z * Land)) :
  (length (idsWhere (fun t l => bool_decide (categoryOf t l = Empty)) plots)
   + length (idsWhere (fun t l => bool_decide (categoryOf t l = Dead)) plots)
   + length (idsWhere (fun t l => bool_decide (categoryOf t l = Harvestable))
               plots)
   + length (idsWhere (fun t l => bool_decide (categoryOf t l = Growing))
               plots))%nat
  = length (List.filter (fun tl => unlocked (snd tl)) plots).
Proof.
  unfold idsWhere. rewrite !length_map.
  induction plots as [|[t land] plots IH]; simpl; [reflexivity|].
  pose proof (category_locked t land) as Hl.
  destruct (categoryOf t land) eqn:Hc, (unlocked land) eqn:Hu;
    simpl; try lia;
    try (destruct Hl as [Hl _]; specialize (Hl eq_refl); discriminate);
    try (destruct Hl as [_ Hl]; specialize (Hl eq_refl); discriminate).
Qed.
End AnalyzeLands.

Lemma in_idsWhere (sel : Z -> Land -> bool) (plots : list (Z * Land))
  (id : Z) :
  In id (idsWhere sel plots)
  <-> exists t l, In (t, l) plots /\ sel t l = true /\ land_id l = id.
Proof.
  unfold idsWhere. rewrite in_map_iff. split.
  - intros ([t l] & Hid & Hin). apply filter_In in Hin as [Hin Hsel]. eauto.
  - intros (t & l & Hin & Hsel & Hid). exists (t, l). split; [assumption|].
    apply filter_In. auto.
Qed.

Lemma NoDup_map_injective {A B} (f : A -> B) (l : list A) (x y : A) :
  List.NoDup (map f l) -> In x l -> In y l -> f x = f y -> x = y.
Proof.
  induction l as [|a l IH]; simpl; intros Hnd Hx Hy Hf; [destruct Hx|].
  inversion Hnd as [|? ? Hnotin Hnd']; subst.
  destruct Hx as [<-|Hx], Hy as [<-|Hy]; auto.
  - exfalso. apply Hnotin. rewrite Hf. now apply in_map.
  - exfalso. apply Hnotin. rewrite <- Hf. now apply in_map.
Qed.

Lemma in_idsWhere_NoDup (sel : Z -> Land -> bool) (plots : list (Z * Land))
  (t : Z) (land : Land) :
  List.NoDup (map (fun tl => land_id (snd tl)) plots) -> In (t, land) plots ->
  In (land_id land) (idsWhere sel plots) <-> sel t land = true.
Proof.
  intros Hnd Hin. rewrite in_idsWhere. split.
  - intros (t' & l & Hl & Hsel & Hid).
    assert (Heq : (t', l) = (t, land)).
    { apply (NoDup_map_injective (fun tl => land_id (snd tl)) plots); auto. }
    injection Heq as <- <-. exact Hsel.
  - intros Hsel. eauto.
Qed.

Lemma sampleLands_ids : List.NoDup (map land_id sampleLands).
Proof.
  simpl. repeat constructor; simpl; intuition discriminate.
Qed.

Lemma Permutation_insert2 {A} (x : A) (l1 l2 l3 l4 : list A) :
  Permutation (l1 ++ (x :: l2) ++ l3 ++ l4) (x :: l1 ++ l2 ++ l3 ++ l4).
Proof. simpl. symmetry. apply Permutation_middle. Qed.

Lemma Permutation_insert3 {A} (x : A) (l1 l2 l3 l4 : list A) :
  Permutation (l1 ++ l2 ++ (x :: l3) ++ l4) (x :: l1 ++ l2 ++ l3 ++ l4).
Proof.
  replace (l1 ++ l2 ++ (x :: l3) ++ l4) with ((l1 ++ l2) ++ x :: l3 ++ l4)
    by (now rewrite <- app_assoc).
  replace (x :: l1 ++ l2 ++ l3 ++ l4) with (x :: (l1 ++ l2) ++ l3 ++ l4)
    by (now rewrite <- app_assoc).
  symmetry. apply Permutation_middle.
Qed.

Lemma Permutation_insert4 {A} (x : A) (l1 l2 l3 l4 : list A) :
  Permutation (l1 ++ l2 ++ l3 ++ x :: l4) (x :: l1 ++ l2 ++ l3 ++ l4).
Proof.
  replace (l1 ++ l2 ++ l3 ++ x :: l4) with ((l1 ++ l2 ++ l3) ++ x :: l4)
    by (now rewrite <- !app_assoc).
  replace (x :: l1 ++ l2 ++ l3 ++ l4) with (x :: (l1 ++ l2 ++ l3) ++ l4)
    by (now rewrite <- !app_assoc).
  symmetry. apply Permutation_middle.
Qed.

Lemma category_permutation `{Collaborators} (plots : list (Z * Land)) :
  Permutation
    (idsWhere (fun t l => bool_decide (categoryOf t l = Empty)) plots
     ++ idsWhere (fun t l => bool_decide (categoryOf t l = Dead)) plots
     ++ idsWhere (fun t l => bool_decide (categoryOf t l = Harvestable)) plots
     ++ idsWhere (fun t l => bool_decide (categoryOf t l = Growing)) plots)
    (map (fun tl => land_id (snd tl))
       (List.filter (fun tl => unlocked (snd tl)) plots)).
Proof.
  unfold idsWhere.
  induction plots as [|[t land] plots IH]; simpl; [constructor|].
  pose proof (category_locked t land) as Hl.
  destruct (categoryOf t land) eqn:Hc, (unlocked land) eqn:Hu; simpl;
    try (destruct Hl as [Hl _]; specialize (Hl eq_refl); discriminate);
    try (destruct Hl as [_ Hl]; specialize (Hl eq_refl); discriminate).
  - exact IH.
  - now constructor.
  - etransitivity; [apply Permutation_insert2|now apply perm_skip].
  - etransitivity; [apply Permutation_insert3|now apply perm_skip].
  - etransitivity; [apply Permutation_insert4|now apply perm_skip].
Qed.

Lemma NoDup_map_filter {A B} (f : A -> B) (sel : A -> bool) (l : list A) :
  List.NoDup (map f l) -> List.NoDup (map f (List.filter sel l)).
Proof.
  induction l as [|a l IH]; simpl; intros Hnd; [constructor|].
  inversion Hnd as [|? ? Hnotin Hnd']; subst.
  destruct (sel a); simpl; [|auto].
  constructor; [|auto].
  intros Hin. apply Hnotin. apply in_map_iff in Hin as (x & Hx & Hl).
  apply filter_In in Hl as [Hl _]. rewrite <- Hx. now apply in_map.
Qed.

(** C2. For every land list and all clock readings: the unlocked count is
    the number of unlocked plots, the sizes of the four category lists sum
    to it, and the four lists together hold the ids of the unlocked plots,
    each as often as it occurs among them.  When the plots have pairwise
    distinct ids, no id is repeated within the four lists or shared between
    two of them, the id of every unlocked plot is in exactly one of them,
    and the id of a locked plot is in no category list and in no affliction
    list. *)
Theorem analyzeLands_partition `{Collaborators} :
  forall lands nowSec phaseClock,
    let r := analyzeLands lands nowSec phaseClock in
    unlockedCount r = length (List.filter unlocked lands)
    /\ (length (empty r) + length (dead r) + length (harvestable r)
        + length (growing r))%nat = unlockedCount r
    /\ Permutation (empty r ++ dead r ++ harvestable r ++ growing r)
         (map land_id (List.filter unlocked lands))
    /\ (List.NoDup (map land_id lands) ->
        List.NoDup (empty r ++ dead r ++ harvestable r ++ growing r)
        /\ (forall c c' id, In id (idsOf c r) -> In id (idsOf c' r) -> c = c')
        /\ (forall land, In land lands -> unlocked land = true ->
            exists c, c <> Locked
                      /\ forall c', In (land_id land) (idsOf c' r) <-> c' = c)
        /\ (forall land, In land lands -> unlocked land = false ->
            (forall c, ~ In (land_id land) (idsOf c r))
            /\ forall a, ~ In (land_id land) (needOf a r))).
Proof.
  intros lands nowSec phaseClock r.
  destruct (analyzeLands_ids nowSec lands phaseClock) as (Hc & Ha & Hu).
  cbv zeta in Hc, Ha. fold r in Hc, Ha, Hu.
  set (plots := timedFrom phaseClock 0 lands) in *.
  assert (Hperm : Permutation
                    (empty r ++ dead r ++ harvestable r ++ growing r)
                    (map land_id (List.filter unlocked lands))).
  { change (Permutation
              (idsOf Empty r ++ idsOf Dead r ++ idsOf Harvestable r
               ++ idsOf Growing r)
              (map land_id (List.filter unlocked lands))).
    rewrite (Hc Empty), (Hc Dead), (Hc Harvestable), (Hc Growing)
      by discriminate.
    rewrite <- (timedFrom_unlocked phaseClock lands 0).
    apply category_permutation. }
  split; [assumption|]. split.
  { rewrite Hu. rewrite <- (length_map land_id).
    rewrite <- (timedFrom_unlocked phaseClock lands 0), length_map.
    fold plots. rewrite <- (category_count plots).
    rewrite <- (Hc Empty), <- (Hc Dead), <- (Hc Harvestable), <- (Hc Growing)
      by discriminate. reflexivity. }
  split; [exact Hperm|].
  intros Hnd.
  assert (Hnd' : List.NoDup (map (fun tl => land_id (snd tl)) plots)).
  { subst plots. now rewrite timedFrom_ids. }
  assert (Htimed : forall land, In land lands -> exists t, In (t, land) plots).
  { intros land Hland. subst plots.
    rewrite <- (timedFrom_snd phaseClock lands 0) in Hland.
    apply in_map_iff in Hland as ([t l] & Heq & Hin). simpl in Heq.
    subst l. now exists t. }
  assert (Hin : forall c t land, In (t, land) plots ->
                  In (land_id land) (idsOf c r)
                  <-> c <> Locked /\ categoryOf t land = c).
  { intros c t land Hland. destruct (decide (c = Locked)) as [->|Hne].
    - simpl. tauto.
    - rewrite (Hc c Hne), (in_idsWhere_NoDup _ _ _ _ Hnd' Hland).
      rewrite bool_decide_eq_true. tauto. }
  split.
  { apply (Permutation_NoDup (Permutation_sym Hperm)).
    now apply NoDup_map_filter. }
  split.
  { intros c c' id Hid Hid'.
    assert (Hne : c <> Locked) by (intros ->; destruct Hid).
    assert (Hne' : c' <> Locked) by (intros ->; destruct Hid').
    rewrite (Hc c Hne) in Hid. rewrite (Hc c' Hne') in Hid'.
    apply in_idsWhere in Hid as (t & l & Hl & Hsel & Hlid).
    apply in_idsWhere in Hid' as (t' & l' & Hl' & Hsel' & Hlid').
    assert (Heq : (t, l) = (t', l')).
    { apply (NoDup_map_injective (fun tl => land_id (snd tl)) plots); auto.
      simpl. congruence. }
    injection Heq as <- <-.
    apply bool_decide_eq_true in Hsel, Hsel'. congruence. }
  split.
  { intros land Hland Hunl. destruct (Htimed land Hland) as [t Ht].
    exists (categoryOf t land).
    assert (Hne : categoryOf t land <> Locked).
    { rewrite category_locked. congruence. }
    split; [assumption|]. intros c'. rewrite (Hin c' t land Ht).
    split; [intros [_ <-]; reflexivity|intros ->; auto]. }
  intros land Hland Hlock. destruct (Htimed land Hland) as [t Ht].
  apply category_locked with (phaseNow := t) in Hlock.
  split.
  - intros c. rewrite (Hin c t land Ht). intros [Hne <-]. contradiction.
  - intros a. rewrite Ha, (in_idsWhere_NoDup _ _ _ _ Hnd' Ht).
    unfold growingWith. rewrite Hlock. simpl. discriminate.
Qed.

Lemma analyzeLands_partition_witness :
  List.NoDup (map land_id sampleLands)
  /\ let r := analyzeLands sampleLands 200 (fun _ => 201) in
     unlockedCount r = length (List.filter unlocked sampleLands)
     /\ (length (empty r) + length (dead r) + length (harvestable r)
         + length (growing r))%nat = unlockedCount r
     /\ Permutation (empty r ++ dead r ++ harvestable r ++ growing r)
          (map land_id (List.filter unlocked sampleLands))
     /\ List.NoDup (empty r ++ dead r ++ harvestable r ++ growing r)
     /\ (forall c c' id, In id (idsOf c r) -> In id (idsOf c' r) -> c = c')
     /\ (forall land, In land sampleLands -> unlocked land = true ->
         exists c, c <> Locked
                   /\ forall c', In (land_id land) (idsOf c' r) <-> c' = c)
     /\ (forall land, In land sampleLands -> unlocked land = false ->
         (forall c, ~ In (land_id land) (idsOf c r))
         /\ forall a, ~ In (land_id land) (needOf a r)).
Proof.
  split; [exact sampleLands_ids|].
  destruct (analyzeLands_partition sampleLands 200 (fun _ => 201))
    as (A & B & C & D).
  exact (conj A (conj B (conj C (D sampleLands_ids)))).
Defined.

(** The second plot of the sample matures at 300: analysed at 299 it is
    growing, unless the clock has moved to 300 when its phase is taken. *)
Example analyzeLands_sample :
  let r := analyzeLands sampleLands 200 (fun _ => 200) in
  empty r = [2] /\ growing r = [3] /\ harvestable r = [4] /\ dead r = [5]
  /\ needWeed r = [3] /\ needWater r = [] /\ unlockedCount r = 4%nat
  /\ minRemainingSec r = Some 100
  /\ growing (analyzeLands sampleLands 299 (fun _ => 299)) = [3]
  /\ harvestable (analyzeLands sampleLands 299 (fun _ => 300)) = [3; 4].
Proof. vm_compute. repeat split. Qed.

(** *** Affliction flags *)

Lemma nonEmpty_true {A} (l : list A) : nonEmpty l = true <-> l <> [].
Proof. unfold nonEmpty, Nat.ltb. destruct l; simpl; split; congruence. Qed.

Lemma elapsedThreshold_true (t nowSec : Z) :
  0 <= t -> elapsedThreshold t nowSec = true <-> t <> 0 /\ t <= nowSec.
Proof.
  intros Ht. unfold elapsedThreshold.
  rewrite andb_true_iff, Z.ltb_lt, Z.leb_le. lia.
Qed.

(** The flag code decides the affliction rules of the specification. *)
Lemma afflicted_spec `{Collaborators} (a : Affliction) (pl : Plant)
  (cur : Phase) (nowSec : Z) :
  (forall v, 0 <= toTimeSec v) ->
  afflicted a pl cur nowSec = true <-> afflictedBy a pl cur nowSec.
Proof.
  intros Hnn. destruct a; simpl.
  - unfold needsWater.
    rewrite orb_true_iff, Z.ltb_lt, elapsedThreshold_true by apply Hnn.
    reflexivity.
  - unfold hasWeeds.
    rewrite orb_true_iff, nonEmpty_true, elapsedThreshold_true by apply Hnn.
    reflexivity.
  - unfold hasBugs.
    rewrite orb_true_iff, nonEmpty_true, elapsedThreshold_true by apply Hnn.
    reflexivity.
Qed.

Lemma growingWith_spec `{Collaborators} (a : Affliction)
  (nowSec phaseNow : Z) (land : Land) :
  (forall v, 0 <= toTimeSec v) ->
  growingWith a nowSec phaseNow land = true
  <-> exists pl cur,
        growsAt phaseNow land pl cur /\ afflictedBy a pl cur nowSec.
Proof.
  intros Hnn. unfold growingWith.
  rewrite andb_true_iff, bool_decide_eq_true, category_growing. split.
  - intros [(pl & cur & Hg) Hflag].
    exists pl, cur. split; [exact Hg|].
    destruct Hg as (_ & Hpl & Hcur & _). rewrite Hpl, Hcur in Hflag.
    now apply afflicted_spec.
  - intros (pl & cur & Hg & Hflag). split; [now exists pl, cur|].
    destruct Hg as (_ & Hpl & Hcur & _). rewrite Hpl, Hcur.
    now apply afflicted_spec.
Qed.

(** C4. With timestamps that are never negative, for every land list and
    all clock readings, [cur] being the current phase of a plot at the
    reading made for it:
    - an id is in the growing list iff it is the id of a growing plot
      (unlocked, with a plant whose current phase is neither dead nor
      mature);
    - an id is in the water list iff it is the id of a growing plot whose
      dryness counter is positive or whose dry-time threshold in [cur] is
      non-zero and not after the server time; it is in the weed (resp. bug)
      list iff it is the id of a growing plot whose weed-owner (resp.
      insect-owner) set is non-empty or whose corresponding threshold is
      non-zero and not after the server time; so only growing plots are
      flagged;
    - a growing plot with a non-empty weed-owner (resp. insect-owner) set
      is in the weed (resp. bug) list, whatever the threshold timestamps;
    - when the plots have pairwise distinct ids, a growing plot is in the
      growing list and is flagged for an affliction iff its own data meet
      the rule of that affliction. *)
Theorem affliction_flags `{Collaborators} :
  (forall v, 0 <= toTimeSec v) ->
  forall lands nowSec phaseClock,
    let r := analyzeLands lands nowSec phaseClock in
    (forall id,
        In id (growing r)
        <-> exists i land pl cur,
              nth_error lands i = Some land /\ land_id land = id
              /\ growsAt (phaseClock i) land pl cur)
    /\ (forall a id,
          In id (needOf a r)
          <-> exists i land pl cur,
                nth_error lands i = Some land /\ land_id land = id
                /\ growsAt (phaseClock i) land pl cur
                /\ afflictedBy a pl cur nowSec)
    /\ (forall a id, In id (needOf a r) -> In id (growing r))
    /\ (forall i land pl cur,
          nth_error lands i = Some land ->
          growsAt (phaseClock i) land pl cur ->
          (weed_owners pl <> [] -> In (land_id land) (needWeed r))
          /\ (insect_owners pl <> [] -> In (land_id land) (needBug r)))
    /\ (List.NoDup (map land_id lands) ->
        forall i land pl cur,
          nth_error lands i = Some land ->
          growsAt (phaseClock i) land pl cur ->
          In (land_id land) (growing r)
          /\ forall a,
               In (land_id land) (needOf a r) <-> afflictedBy a pl cur nowSec).
Proof.
  intros Hnn lands nowSec phaseClock r.
  destruct (analyzeLands_ids nowSec lands phaseClock) as (Hc & Ha & _).
  cbv zeta in Hc, Ha. fold r in Hc, Ha.
  set (plots := timedFrom phaseClock 0 lands) in *.
  assert (Hgrow : forall id,
             In id (growing r)
             <-> exists i land pl cur,
                   nth_error lands i = Some land /\ land_id land = id
                   /\ growsAt (phaseClock i) land pl cur).
  { intros id. change (growing r) with (idsOf Growing r).
    rewrite (Hc Growing) by discriminate. rewrite in_idsWhere. split.
    - intros (t & l & Hin & Hsel & Hid).
      apply bool_decide_eq_true in Hsel.
      apply category_growing in Hsel as (pl & cur & Hg).
      destruct (timedFrom_In phaseClock lands 0 t l Hin) as (i & Hi & ->).
      exists i, l, pl, cur. auto.
    - intros (i & land & pl & cur & Hi & Hid & Hg).
      exists (phaseClock i), land. split.
      + exact (timedFrom_nth phaseClock lands 0 i land Hi).
      + split; [|exact Hid]. apply bool_decide_eq_true.
        apply category_growing. now exists pl, cur. }
  assert (Hneed : forall a id,
             In id (needOf a r)
             <-> exists i land pl cur,
                   nth_error lands i = Some land /\ land_id land = id
                   /\ growsAt (phaseClock i) land pl cur
                   /\ afflictedBy a pl cur nowSec).
  { intros a id. rewrite Ha, in_idsWhere. split.
    - intros (t & l & Hin & Hsel & Hid).
      apply (growingWith_spec a nowSec t l Hnn) in Hsel
        as (pl & cur & Hg & Hflag).
      destruct (timedFrom_In phaseClock lands 0 t l Hin) as (i & Hi & ->).
      exists i, l, pl, cur. auto.
    - intros (i & land & pl & cur & Hi & Hid & Hg & Hflag).
      exists (phaseClock i), land. split.
      + exact (timedFrom_nth phaseClock lands 0 i land Hi).
      + split; [|exact Hid]. apply (growingWith_spec a nowSec _ land Hnn).
        now exists pl, cur. }
  split; [exact Hgrow|]. split; [exact Hneed|]. split.
  { intros a id Hin. apply Hgrow. apply Hneed in Hin.
    destruct Hin as (i & land & pl & cur & Hi & Hid & Hg & _).
    exists i, land, pl, cur. auto. }
  split.
  { intros i land pl cur Hi Hg. split; intros Hown.
    - apply (Hneed Weeds). exists i, land, pl, cur.
      split; [exact Hi|]. split; [reflexivity|]. split; [exact Hg|].
      left. exact Hown.
    - apply (Hneed Bugs). exists i, land, pl, cur.
      split; [exact Hi|]. split; [reflexivity|]. split; [exact Hg|].
      left. exact Hown. }
  intros Hnd i land pl cur Hi Hg. split.
  { apply Hgrow. exists i, land, pl, cur. auto. }
  intros a. rewrite Hneed. split.
  - intros (j & land' & pl' & cur' & Hj & Hid & Hg' & Hflag).
    assert (Hsame : j = i).
    { apply (proj1 (NoDup_nth_error (map land_id lands)) Hnd).
      - apply nth_error_Some. rewrite nth_error_map, Hj. discriminate.
      - rewrite !nth_error_map, Hj, Hi. simpl. now rewrite Hid. }
    subst j. rewrite Hj in Hi. injection Hi as ->.
    destruct Hg as (_ & Hpl & Hcur & _), Hg' as (_ & Hpl' & Hcur' & _).
    rewrite Hpl in Hpl'. injection Hpl' as <-.
    rewrite Hcur in Hcur'. injection Hcur' as <-. exact Hflag.
  - intros Hflag. exists i, land, pl, cur. auto.
Qed.

Lemma affliction_flags_witness :
  (forall v, 0 <= toTimeSec v)
  /\ In 3 (needWeed (analyzeLands sampleLands 200 (fun _ => 201)))
  /\ ~ In 3 (needWater (analyzeLands sampleLands 200 (fun _ => 201)))
  /\ In 3 (growing (analyzeLands sampleLands 200 (fun _ => 201))).
Proof.
  split; [exact sample_toTimeSec_nonneg|].
  destruct (affliction_flags sample_toTimeSec_nonneg sampleLands 200
              (fun _ => 201)) as (_ & _ & _ & _ & Hplot).
  destruct (Hplot sampleLands_ids 2%nat
              (mkLand 3 true
                 (Some (mkPlant 1020002
                          [mkPhase 1 100 0 0 0; mkPhase 6 300 0 0 0]
                          0 [77] [])))
              (mkPlant 1020002 [mkPhase 1 100 0 0 0; mkPhase 6 300 0 0 0]
                 0 [77] [])
              (mkPhase 1 100 0 0 0) eq_refl)
    as [Hgrowing Hflags].
  { repeat split; discriminate. }
  split; [|split; [|exact Hgrowing]].
  - apply (Hflags Weeds). left. discriminate.
  - intros Hin. apply (Hflags Dry) in Hin.
    destruct Hin as [Hdry|[Hset _]]; [discriminate Hdry|].
    now apply Hset.
Defined.

(** ** Properties of the Scheduling Controller: when to refresh *)

(** C6. [shouldCheckFarmNow] answers true exactly on the first check, when
    the forced flag is set, when there is no cached snapshot, when the cached
    snapshot counts an empty, dead, harvestable, needs-water, needs-weed or
    needs-bug plot, or when its minimum remaining time minus the time
    elapsed since the snapshot (never negative) is at most 2 seconds. *)
Theorem shouldCheckFarmNow_iff :
  forall (e : Engine) (nowSec : Z),
    shouldCheckFarmNow e nowSec = true
    <-> isFirstFarmCheck e = true
        \/ forceFarmCheck e = true
        \/ lastFarmSnapshot e = None
        \/ exists s,
             lastFarmSnapshot e = Some s
             /\ ((0 < emptyCount s)%nat
                 \/ (0 < deadCount s)%nat
                 \/ (0 < harvestableCount s)%nat
                 \/ (0 < needWaterCount s)%nat
                 \/ (0 < needWeedCount s)%nat
                 \/ (0 < needBugCount s)%nat
                 \/ exists minRemaining,
                      snap_minRemainingSec s = Some minRemaining
                      /\ minRemaining
                         - Z.max 0 (nowSec - snap_serverTimeSec s) <= 2).
Proof.
  intros e nowSec. unfold shouldCheckFarmNow.
  destruct (isFirstFarmCheck e); [tauto|].
  destruct (forceFarmCheck e); [tauto|].
  destruct (lastFarmSnapshot e) as [s|]; [|tauto].
  split.
  - intros Hyes. do 3 right. exists s. split; [reflexivity|].
    destruct (Nat.ltb_spec 0 (emptyCount s)); [tauto|].
    destruct (Nat.ltb_spec 0 (deadCount s)); [tauto|].
    destruct (Nat.ltb_spec 0 (harvestableCount s)); [tauto|].
    destruct (Nat.ltb_spec 0 (needWaterCount s)); [tauto|].
    destruct (Nat.ltb_spec 0 (needWeedCount s)); [tauto|].
    destruct (Nat.ltb_spec 0 (needBugCount s)); [tauto|].
    destruct (snap_minRemainingSec s) as [m|]; [|discriminate].
    destruct (Z.leb_spec (m - Z.max 0 (nowSec - snap_serverTimeSec s)) 2);
      [|discriminate].
    do 6 right. exists m. auto.
  - intros [?|[?|[?|(s' & Hs & Hcases)]]]; try discriminate.
    injection Hs as <-.
    destruct (Nat.ltb_spec 0 (emptyCount s)); [reflexivity|].
    destruct (Nat.ltb_spec 0 (deadCount s)); [reflexivity|].
    destruct (Nat.ltb_spec 0 (harvestableCount s)); [reflexivity|].
    destruct (Nat.ltb_spec 0 (needWaterCount s)); [reflexivity|].
    destruct (Nat.ltb_spec 0 (needWeedCount s)); [reflexivity|].
    destruct (Nat.ltb_spec 0 (needBugCount s)); [reflexivity|].
    destruct Hcases as [?|[?|[?|[?|[?|[?|(m & Hm & Hle)]]]]]]; try lia.
    rewrite Hm. apply Z.leb_le in Hle. now rewrite Hle.
Qed.

(** ** Properties of the Action Executor *)

Section PerPlot.
Variable srv : Server.

Lemma pace_effect several e :
  fst (pace several e) = Some tt
  /\ calls (snd (pace several e)) = calls e
  /\ warnings (snd (pace several e)) = warnings e.
Proof. destruct several; repeat split. Qed.

Lemma fertilizeLoop_cons several fertilizerId landId rest successCount e :
  fertilizeLoop srv several fertilizerId (landId :: rest) successCount e
  = let e0 := set_calls (calls e ++ [Fertilize landId fertilizerId]) e in
    match srv (length (calls e)) (Fertilize landId fertilizerId) with
    | Some _ =>
        fertilizeLoop srv several fertilizerId rest (S successCount)
          (snd (pace several e0))
    | None => (Some successCount, e0)
    end.
Proof.
  simpl. unfold bind, attempt, sendMsgAsync.
  destruct (srv (length (calls e)) (Fertilize landId fertilizerId));
    [|reflexivity].
  destruct several; reflexivity.
Qed.

Lemma plantLoop_cons several seedId landId rest successCount e :
  plantLoop srv several seedId (landId :: rest) successCount e
  = let e0 := set_calls (calls e ++ [PlantSeed seedId landId]) e in
    match srv (length (calls e)) (PlantSeed seedId landId) with
    | Some _ =>
        plantLoop srv several seedId rest (S successCount)
          (snd (pace several e0))
    | None =>
        plantLoop srv several seedId rest successCount
          (snd (pace several (set_warnings (S (warnings e0)) e0)))
    end.
Proof.
  simpl. unfold bind, attempt, sendMsgAsync.
  destruct (srv (length (calls e)) (PlantSeed seedId landId));
    destruct several; reflexivity.
Qed.

Lemma fertilizeLoop_stops several fertilizerId landIds :
  forall (k successCount : nat) (e : Engine),
    (k < length landIds)%nat ->
    (forall i c, (i < k)%nat -> srv (length (calls e) + i)%nat c <> None) ->
    (forall c, srv (length (calls e) + k)%nat c = None) ->
    let out := fertilizeLoop srv several fertilizerId landIds successCount e in
    fst out = Some (successCount + k)%nat
    /\ calls (snd out)
       = calls e
         ++ map (fun id => Fertilize id fertilizerId) (firstn (S k) landIds)
    /\ warnings (snd out) = warnings e.
Proof.
  induction landIds as [|landId rest IH]; intros k n e Hk Hok Hfail out;
    [simpl in Hk; lia|].
  subst out. rewrite fertilizeLoop_cons. cbv zeta.
  destruct k as [|k].
  - specialize (Hfail (Fertilize landId fertilizerId)).
    rewrite Nat.add_0_r in Hfail. rewrite Hfail. simpl.
    rewrite Nat.add_0_r. repeat split.
  - destruct (srv (length (calls e)) (Fertilize landId fertilizerId))
      as [reply|] eqn:Hsrv.
    2:{ exfalso. apply (Hok 0%nat (Fertilize landId fertilizerId)); [lia|].
        now rewrite Nat.add_0_r. }
    set (e0 := set_calls (calls e ++ [Fertilize landId fertilizerId]) e).
    destruct (pace_effect several e0) as (_ & Hp2 & Hp3).
    set (e1 := snd (pace several e0)) in *.
    assert (Hlen : length (calls e1) = S (length (calls e))).
    { rewrite Hp2. subst e0. simpl. rewrite length_app. simpl. lia. }
    destruct (IH k (S n) e1) as (H1 & H2 & H3).
    + simpl in Hk. lia.
    + intros i c Hi. rewrite Hlen.
      replace (S (length (calls e)) + i)%nat
        with (length (calls e) + S i)%nat by lia.
      apply Hok. lia.
    + intros c. rewrite Hlen.
      replace (S (length (calls e)) + k)%nat
        with (length (calls e) + S k)%nat by lia.
      apply Hfail.
    + split; [rewrite H1; f_equal; lia|]. split.
      * rewrite H2, Hp2. subst e0. simpl. rewrite <- app_assoc. reflexivity.
      * rewrite H3, Hp3. reflexivity.
Qed.

Lemma plantLoop_counts several seedId landIds :
  forall (successCount : nat) (e : Engine),
    let out := plantLoop srv several seedId landIds successCount e in
    let ok := countOk srv (length (calls e)) (PlantSeed seedId) landIds in
    fst out = Some (successCount + ok)%nat
    /\ calls (snd out) = calls e ++ map (PlantSeed seedId) landIds
    /\ (warnings (snd out) + ok = warnings e + length landIds)%nat.
Proof.
  induction landIds as [|landId rest IH]; intros n e out ok.
  - subst out ok. simpl. rewrite Nat.add_0_r, app_nil_r. repeat split; lia.
  - subst out ok. rewrite plantLoop_cons. cbv zeta. simpl countOk.
    set (e0 := set_calls (calls e ++ [PlantSeed seedId landId]) e).
    assert (Hlen0 : length (calls e0) = S (length (calls e))).
    { subst e0. simpl. rewrite length_app. simpl. lia. }
    destruct (srv (length (calls e)) (PlantSeed seedId landId)) as [reply|].
    + destruct (pace_effect several e0) as (_ & Hp2 & Hp3).
      set (e1 := snd (pace several e0)) in *.
      clearbody e1.
      assert (Hlen1 : length (calls e1) = S (length (calls e)))
        by (now rewrite Hp2).
      destruct (IH (S n) e1) as (H1 & H2 & H3).
      rewrite Hlen1 in H1, H3. rewrite Hp2 in H2.
      split; [rewrite H1; f_equal; lia|]. split.
      * rewrite H2. subst e0. simpl. rewrite <- app_assoc. reflexivity.
      * rewrite Hp3 in H3. subst e0. simpl in H3. simpl length. lia.
    + set (e0' := set_warnings (S (warnings e0)) e0).
      destruct (pace_effect several e0') as (_ & Hp2 & Hp3).
      set (e1 := snd (pace several e0')) in *.
      clearbody e1.
      assert (Hlen1 : length (calls e1) = S (length (calls e)))
        by (now rewrite Hp2).
      destruct (IH n e1) as (H1 & H2 & H3).
      rewrite Hlen1 in H1, H3. rewrite Hp2 in H2.
      subst e0'. simpl in H2, Hp3.
      split; [rewrite H1; f_equal|]. split.
      * rewrite H2. subst e0. simpl. rewrite <- app_assoc. reflexivity.
      * rewrite Hp3 in H3. subst e0. simpl in H3. simpl length. lia.
Qed.

Lemma countOk_prefix (mk : Z -> Call) (ids : list Z) :
  forall (first k : nat),
    (k < length ids)%nat ->
    (forall i c, (i < k)%nat -> srv (first + i)%nat c <> None) ->
    (forall c, srv (first + k)%nat c = None) ->
    countOk srv first mk ids
    = (k + countOk srv (first + S k)%nat mk (skipn (S k) ids))%nat.
Proof.
  induction ids as [|id rest IH]; intros first k Hk Hok Hfail;
    [simpl in Hk; lia|].
  destruct k as [|k]; simpl.
  - rewrite <- (Nat.add_0_r first) at 1. rewrite Hfail.
    now rewrite Nat.add_1_r.
  - destruct (srv first (mk id)) eqn:Hsrv.
    2:{ exfalso. apply (Hok 0%nat (mk id)); [lia|]. now rewrite Nat.add_0_r. }
    rewrite (IH (S first) k).
    + replace (S first + S k)%nat with (first + S (S k))%nat by lia. lia.
    + simpl in Hk. lia.
    + intros i c Hi. replace (S first + i)%nat with (first + S i)%nat by lia.
      apply Hok. lia.
    + intros c. replace (S first + k)%nat with (first + S k)%nat by lia.
      apply Hfail.
Qed.
End PerPlot.

(** C7. When the [k]-th remote call fails and all earlier ones succeed,
    [fertilize] issues exactly [k] calls, for the first [k] ids, and returns
    [k - 1]; [plantSeeds] issues one call per id, logs one warning per failed
    call, and returns the number of calls that succeeded, which is [k - 1]
    plus the successes among the calls after the [k]-th. *)
Theorem fertilize_stops_plantSeeds_continues :
  forall (srv : Server) (landIds : list Z) (fertilizerId seedId : Z)
         (k : nat) (e : Engine),
    (1 <= k <= length landIds)%nat ->
    (forall i c, (i < k - 1)%nat -> srv (length (calls e) + i)%nat c <> None) ->
    (forall c, srv (length (calls e) + (k - 1))%nat c = None) ->
    let fertilized := fertilize srv landIds fertilizerId e in
    let planted := plantSeeds srv seedId landIds e in
    let ok := countOk srv (length (calls e)) (PlantSeed seedId) landIds in
    fst fertilized = Some (k - 1)%nat
    /\ calls (snd fertilized)
       = calls e
         ++ map (fun id => Fertilize id fertilizerId) (firstn k landIds)
    /\ fst planted = Some ok
    /\ calls (snd planted) = calls e ++ map (PlantSeed seedId) landIds
    /\ (warnings (snd planted) + ok = warnings e + length landIds)%nat
    /\ ok = (k - 1
             + countOk srv (length (calls e) + k)%nat (PlantSeed seedId)
                 (skipn k landIds))%nat
    /\ (ok < length landIds)%nat.
Proof.
  intros srv landIds fertilizerId seedId k e Hk Hok Hfail fertilized planted ok.
  destruct k as [|k]; [lia|].
  replace (S k - 1)%nat with k in * by lia.
  destruct (fertilizeLoop_stops srv (1 <? length landIds)%nat fertilizerId
              landIds k 0%nat e ltac:(lia) Hok Hfail) as (F1 & F2 & _).
  destruct (plantLoop_counts srv (1 <? length landIds)%nat seedId landIds
              0%nat e) as (P1 & P2 & P3).
  pose proof (countOk_prefix srv (PlantSeed seedId) landIds
                (length (calls e)) k ltac:(lia) Hok Hfail) as Hprefix.
  fold ok in P1, P3, Hprefix.
  assert (Hrest : forall first ids,
             (countOk srv first (PlantSeed seedId) ids <= length ids)%nat).
  { intros first ids. revert first.
    induction ids as [|id ids IH]; intros first; simpl; [lia|].
    specialize (IH (S first)).
    destruct (srv first (PlantSeed seedId id)); lia. }
  split; [exact F1|]. split; [exact F2|]. split; [exact P1|].
  split; [exact P2|]. split; [exact P3|]. split; [exact Hprefix|].
  rewrite Hprefix.
  pose proof (Hrest (length (calls e) + S k)%nat (skipn (S k) landIds)) as Hle.
  rewrite length_skipn in Hle. lia.
Qed.

Lemma fertilize_stops_plantSeeds_continues_witness :
  (1 <= 2 <= length [11; 12; 13])%nat
  /\ (forall i c, (i < 2 - 1)%nat ->
        secondCallFails (length (calls (initialEngine 1 5 100)) + i)%nat c
        <> None)
  /\ (forall c,
        secondCallFails (length (calls (initialEngine 1 5 100)) + (2 - 1))%nat c
        = None)
  /\ fst (fertilize secondCallFails [11; 12; 13] NORMAL_FERTILIZER_ID
            (initialEngine 1 5 100)) = Some 1%nat
  /\ fst (plantSeeds secondCallFails 20002 [11; 12; 13]
            (initialEngine 1 5 100)) = Some 2%nat.
Proof.
  assert (H1 : (1 <= 2 <= length [11; 12; 13])%nat) by (simpl; lia).
  assert (H2 : forall i c, (i < 2 - 1)%nat ->
             secondCallFails (length (calls (initialEngine 1 5 100)) + i)%nat c
             <> None).
  { intros i c Hi. destruct i as [|i]; [discriminate|simpl in Hi; lia]. }
  assert (H3 : forall c,
             secondCallFails
               (length (calls (initialEngine 1 5 100)) + (2 - 1))%nat c = None).
  { reflexivity. }
  split; [exact H1|]. split; [exact H2|]. split; [exact H3|].
  destruct (fertilize_stops_plantSeeds_continues secondCallFails [11; 12; 13]
              NORMAL_FERTILIZER_ID 20002 2 (initialEngine 1 5 100) H1 H2 H3)
    as (F & _ & P & _).
  split; [exact F|exact P].
Defined.

(** *** The purchase step of the replant pipeline *)

Lemma fertilizeLoop_calls srv several fertilizerId landIds :
  forall successCount e,
    let out := fertilizeLoop srv several fertilizerId landIds successCount e in
    exists j,
      (j <= length landIds)%nat
      /\ calls (snd out)
         = calls e
           ++ map (fun id => Fertilize id fertilizerId) (firstn j landIds)
      /\ gold (snd out) = gold e.
Proof.
  induction landIds as [|landId rest IH]; intros n e out; subst out.
  - exists 0%nat. simpl. rewrite app_nil_r. auto.
  - rewrite fertilizeLoop_cons. cbv zeta.
    set (e0 := set_calls (calls e ++ [Fertilize landId fertilizerId]) e).
    destruct (srv (length (calls e)) (Fertilize landId fertilizerId)).
    + destruct (IH (S n) (snd (pace several e0))) as (j & Hj & Hc & Hg).
      exists (S j). split; [simpl; lia|].
      rewrite Hc, Hg. destruct several; simpl; rewrite <- app_assoc; auto.
    + exists 1%nat. split; [simpl; lia|]. simpl. auto.
Qed.

Lemma plantLoop_gold srv several seedId landIds :
  forall successCount e,
    gold (snd (plantLoop srv several seedId landIds successCount e)) = gold e.
Proof.
  induction landIds as [|landId rest IH]; intros n e; [reflexivity|].
  rewrite plantLoop_cons. cbv zeta.
  destruct (srv (length (calls e)) (PlantSeed seedId landId));
    rewrite IH; destruct several; reflexivity.
Qed.

Lemma spend_calls (cost_items : list Item) (e : Engine) :
  calls (fold_left (fun e item => set_gold (gold e - item_count item) e)
           cost_items e) = calls e.
Proof.
  revert e. induction cost_items as [|item rest IH]; intros e; simpl;
    [reflexivity|]. now rewrite IH.
Qed.

Lemma buySeeds_abort srv bestSeed landsToPlant e :
  gold e < av_price bestSeed * Z.of_nat (length landsToPlant) ->
  gold e / av_price bestSeed <= 0 ->
  buySeeds srv bestSeed landsToPlant e
  = (Some None, set_warnings (S (warnings e)) e).
Proof.
  intros Hcost Hnone. unfold buySeeds, bind, gets, logWarn, modify.
  apply Z.ltb_lt in Hcost. rewrite Hcost.
  apply Z.leb_le in Hnone. simpl. rewrite Hnone. reflexivity.
Qed.

Lemma buySeeds_clamped srv bestSeed landsToPlant e :
  gold e < av_price bestSeed * Z.of_nat (length landsToPlant) ->
  0 < gold e / av_price bestSeed ->
  let affordable :=
    firstn (Z.to_nat (gold e / av_price bestSeed)) landsToPlant in
  let out := buySeeds srv bestSeed landsToPlant e in
  calls (snd out)
  = calls e
    ++ [BuyGoods (av_goodsId bestSeed) (Z.of_nat (length affordable))
          (av_price bestSeed)]
  /\ (fst out = Some None
      \/ exists actualSeedId, fst out = Some (Some (affordable, actualSeedId))).
Proof.
  intros Hcost Hsome affordable out. subst out.
  unfold buySeeds, bind, gets, logWarn, modify.
  apply Z.ltb_lt in Hcost. rewrite Hcost. simpl.
  destruct (Z.leb_spec (gold e / av_price bestSeed) 0) as [|_]; [lia|].
  simpl. fold affordable.
  unfold attempt, buyGoods, bind, sendMsgAsync. simpl.
  destruct (srv (length (calls e))
              (BuyGoods (av_goodsId bestSeed) (Z.of_nat (length affordable))
                 (av_price bestSeed))) as [[| | | |get_items cost_items]|];
    simpl; try (split; [reflexivity|left; reflexivity]).
  split; [now rewrite spend_calls|]. right. eauto.
Qed.

Lemma planted_prefix {A} (planted : nat) (l : list A) :
  (if (0 <? planted)%nat then firstn planted l else []) = firstn planted l.
Proof. destruct planted; reflexivity. Qed.

Lemma plantAndFertilize_calls srv actualSeedId landsToPlant e :
  exists j,
    calls (snd (plantAndFertilize srv actualSeedId landsToPlant e))
    = calls e
      ++ map (PlantSeed actualSeedId) landsToPlant
      ++ map (fun id => Fertilize id NORMAL_FERTILIZER_ID)
           (firstn j landsToPlant).
Proof.
  unfold plantAndFertilize, plantSeeds.
  destruct (plantLoop_counts srv (1 <? length landsToPlant)%nat actualSeedId
              landsToPlant 0%nat e) as (P1 & P2 & _).
  unfold bind at 1. unfold attempt.
  destruct (plantLoop srv (1 <? length landsToPlant)%nat actualSeedId
              landsToPlant 0 e) as [r e1].
  simpl in P1, P2. subst r. unfold bind at 1. rewrite planted_prefix.
  unfold ret at 1. cbv iota beta.
  set (plantedLands := firstn _ landsToPlant).
  destruct (nonEmpty plantedLands).
  - unfold bind, fertilize.
    destruct (fertilizeLoop_calls srv (1 <? length plantedLands)%nat
                NORMAL_FERTILIZER_ID plantedLands 0%nat e1)
      as (j & _ & Hc & _).
    destruct (fertilizeLoop srv (1 <? length plantedLands)%nat
                NORMAL_FERTILIZER_ID plantedLands 0 e1) as [[n|] e2];
      simpl in Hc |- *; subst plantedLands;
      rewrite firstn_firstn in Hc; eexists;
      rewrite Hc, P2, <- app_assoc; reflexivity.
  - exists 0%nat. simpl. rewrite P2, app_nil_r. reflexivity.
Qed.

(** C8. With a positive seed price, when the total cost exceeds the gold at
    hand: if [floor (gold / price)] is zero or less, steps 3 to 5 of the
    replant pipeline issue no remote call and spend nothing; otherwise the
    purchase is for exactly [floor (gold / price)] units and the only plots
    planted (and then fertilized) are the first [floor (gold / price)] plots
    of the list. *)
Theorem buyPlantFertilize_clamps_to_gold :
  forall (srv : Server) (bestSeed : Available) (landsToPlant : list Z)
         (e : Engine),
    0 < av_price bestSeed ->
    gold e < av_price bestSeed * Z.of_nat (length landsToPlant) ->
    let canBuy := gold e / av_price bestSeed in
    let affordable := firstn (Z.to_nat canBuy) landsToPlant in
    let e' := snd (buyPlantFertilize srv bestSeed landsToPlant e) in
    (canBuy <= 0 -> calls e' = calls e /\ gold e' = gold e)
    /\ (0 < canBuy ->
        Z.of_nat (length affordable) = canBuy
        /\ (calls e'
            = calls e
              ++ [BuyGoods (av_goodsId bestSeed) canBuy (av_price bestSeed)]
            \/ exists actualSeedId j,
                 calls e'
                 = calls e
                   ++ [BuyGoods (av_goodsId bestSeed) canBuy
                         (av_price bestSeed)]
                   ++ map (PlantSeed actualSeedId) affordable
                   ++ map (fun id => Fertilize id NORMAL_FERTILIZER_ID)
                        (firstn j affordable))).
Proof.
  intros srv bestSeed landsToPlant e Hprice Hcost canBuy affordable e'.
  split.
  - intros Hnone. subst e'. unfold buyPlantFertilize, bind.
    rewrite (buySeeds_abort srv bestSeed landsToPlant e Hcost Hnone).
    split; reflexivity.
  - intros Hsome.
    assert (Hlen : Z.of_nat (length affordable) = canBuy).
    { subst affordable. rewrite length_firstn.
      assert (canBuy < Z.of_nat (length landsToPlant)).
      { apply Z.div_lt_upper_bound; assumption. }
      lia. }
    split; [exact Hlen|].
    destruct (buySeeds_clamped srv bestSeed landsToPlant e Hcost Hsome)
      as (Hcalls & Hres).
    fold canBuy affordable in Hcalls, Hres. rewrite Hlen in Hcalls.
    subst e'. unfold buyPlantFertilize, bind.
    destruct (buySeeds srv bestSeed landsToPlant e) as [res e1].
    simpl in Hcalls, Hres.
    destruct Hres as [->|(actualSeedId & ->)].
    + left. exact Hcalls.
    + right.
      destruct (plantAndFertilize_calls srv actualSeedId affordable e1)
        as (j & Hj).
      exists actualSeedId, j. rewrite Hj, Hcalls, <- app_assoc. reflexivity.
Qed.

Lemma buyPlantFertilize_clamps_to_gold_witness :
  0 < av_price (mkAvailable 5002 20002 10 1)
  /\ gold (initialEngine 1 5 25)
     < av_price (mkAvailable 5002 20002 10 1) * Z.of_nat (length [1; 2; 3])
  /\ ((gold (initialEngine 1 5 25) / 10 <= 0 ->
       calls (snd (buyPlantFertilize sampleShop (mkAvailable 5002 20002 10 1)
                     [1; 2; 3] (initialEngine 1 5 25)))
       = calls (initialEngine 1 5 25)
       /\ gold (snd (buyPlantFertilize sampleShop
                       (mkAvailable 5002 20002 10 1) [1; 2; 3]
                       (initialEngine 1 5 25)))
          = gold (initialEngine 1 5 25))
      /\ (0 < gold (initialEngine 1 5 25) / 10 ->
          Z.of_nat (length (firstn (Z.to_nat (25 / 10)) [1; 2; 3])) = 25 / 10
          /\ (calls (snd (buyPlantFertilize sampleShop
                            (mkAvailable 5002 20002 10 1) [1; 2; 3]
                            (initialEngine 1 5 25)))
              = [] ++ [BuyGoods 5002 (25 / 10) 10]
              \/ exists actualSeedId j,
                   calls (snd (buyPlantFertilize sampleShop
                                 (mkAvailable 5002 20002 10 1) [1; 2; 3]
                                 (initialEngine 1 5 25)))
                   = [] ++ [BuyGoods 5002 (25 / 10) 10]
                     ++ map (PlantSeed actualSeedId)
                          (firstn (Z.to_nat (25 / 10)) [1; 2; 3])
                     ++ map (fun id => Fertilize id NORMAL_FERTILIZER_ID)
                          (firstn j
                             (firstn (Z.to_nat (25 / 10)) [1; 2; 3]))))).
Proof.
  split; [reflexivity|]. split; [reflexivity|].
  exact (buyPlantFertilize_clamps_to_gold sampleShop
           (mkAvailable 5002 20002 10 1) [1; 2; 3] (initialEngine 1 5 25)
           eq_refl eq_refl).
Defined.

Example buyPlantFertilize_sample :
  calls (snd (buyPlantFertilize sampleShop (mkAvailable 5002 20002 10 1)
                [1; 2; 3] (initialEngine 1 5 25)))
  = [BuyGoods 5002 2 10; PlantSeed 20002 1; PlantSeed 20002 2;
     Fertilize 1 1011; Fertilize 2 1011]
  /\ gold (snd (buyPlantFertilize sampleShop (mkAvailable 5002 20002 10 1)
                  [1; 2; 3] (initialEngine 1 5 25))) = 5.
Proof. split; reflexivity. Qed.

(** ** Properties of the Scheduling Controller: the guard and the debounce *)

Lemma frames_ret {A} (a : A) : frames (ret a).
Proof. intros e. reflexivity. Qed.

Lemma frames_throw {A} : frames (@throw A).
Proof. intros e. reflexivity. Qed.

Lemma frames_gets {A} (f : Engine -> A) : frames (gets f).
Proof. intros e. reflexivity. Qed.

Lemma frames_bind {A B} (m : M A) (k : A -> M B) :
  frames m -> (forall a, frames (k a)) -> frames (bind m k).
Proof.
  intros Hm Hk e. unfold bind. specialize (Hm e).
  destruct (m e) as [[a|] e1]; simpl in *; [|assumption].
  now rewrite Hk.
Qed.

Lemma frames_attempt {A} (m : M A) : frames m -> frames (attempt m).
Proof.
  intros Hm e. unfold attempt. specialize (Hm e).
  destruct (m e) as [[a|] e1]; assumption.
Qed.

Lemma frames_modify (f : Engine -> Engine) :
  (forall e, guardOf (f e) = guardOf e) -> frames (modify f).
Proof. intros Hf e. apply Hf. Qed.

Lemma frames_logWarn : frames logWarn.
Proof. intros e. reflexivity. Qed.

Lemma frames_sleep ms : frames (sleep ms).
Proof. intros e. reflexivity. Qed.

Lemma frames_sendMsgAsync srv c : frames (sendMsgAsync srv c).
Proof. intros e. reflexivity. Qed.

Lemma frames_spend (cost_items : list Item) (e : Engine) :
  guardOf (fold_left (fun e item => set_gold (gold e - item_count item) e)
             cost_items e) = guardOf e.
Proof.
  revert e. induction cost_items as [|item rest IH]; intros e; simpl;
    [reflexivity|]. now rewrite IH.
Qed.

Create HintDb frames.

#[local] Hint Resolve frames_ret frames_throw frames_gets frames_attempt
  frames_logWarn frames_sleep frames_sendMsgAsync frames_spend : frames.

(** Decompose a computation along its binds and case distinctions. *)
Ltac frames_step :=
  match goal with
  | |- frames (bind _ _) => apply frames_bind; [|intros]
  | |- frames (attempt _) => apply frames_attempt
  | |- frames (modify _) => apply frames_modify; intros; try reflexivity
  | |- frames (match ?x with _ => _ end) => destruct x
  | |- frames (let '(_, _) := ?x in _) => destruct x
  | |- frames _ => solve [auto with frames]
  | |- guardOf _ = guardOf _ => solve [auto with frames]
  end.

Ltac frames_auto := repeat frames_step.

Lemma frames_pace several : frames (pace several).
Proof. unfold pace. frames_auto. Qed.

Lemma frames_fertilizeLoop srv several fertilizerId landIds :
  forall successCount,
    frames (fertilizeLoop srv several fertilizerId landIds successCount).
Proof.
  induction landIds as [|landId rest IH]; intros n; simpl.
  - frames_auto.
  - pose proof frames_pace. frames_auto.
Qed.

Lemma frames_plantLoop srv several seedId landIds :
  forall successCount,
    frames (plantLoop srv several seedId landIds successCount).
Proof.
  induction landIds as [|landId rest IH]; intros n; simpl.
  - frames_auto.
  - pose proof frames_pace. frames_auto.
Qed.

#[local] Hint Resolve frames_pace frames_fertilizeLoop frames_plantLoop
  : frames.

Lemma frames_fertilize srv landIds fertilizerId :
  frames (fertilize srv landIds fertilizerId).
Proof. unfold fertilize. frames_auto. Qed.

Lemma frames_plantSeeds srv seedId landIds :
  frames (plantSeeds srv seedId landIds).
Proof. unfold plantSeeds. frames_auto. Qed.

Lemma frames_getAllLands srv : frames (getAllLands srv).
Proof. unfold getAllLands. frames_auto. Qed.

Lemma frames_getShopInfo srv shopId : frames (getShopInfo srv shopId).
Proof. unfold getShopInfo. frames_auto. Qed.

Lemma frames_buyGoods srv goodsId num price :
  frames (buyGoods srv goodsId num price).
Proof. unfold buyGoods. frames_auto. Qed.

Lemma frames_getBag srv : frames (getBag srv).
Proof. unfold getBag. frames_auto. Qed.

#[local] Hint Resolve frames_fertilize frames_plantSeeds frames_getAllLands
  frames_getShopInfo frames_buyGoods frames_getBag : frames.

Lemma frames_getFertilizerCount srv : frames (getFertilizerCount srv).
Proof. unfold getFertilizerCount. frames_auto. Qed.

Lemma frames_ensureBestSeedCache `{Collaborators} lv lands :
  frames (ensureBestSeedCache lv lands).
Proof. unfold ensureBestSeedCache. frames_auto. Qed.

Lemma frames_selectBestSeedFromAvailable `{Collaborators} available
  preferNoFert lv lands :
  frames (selectBestSeedFromAvailable available preferNoFert lv lands).
Proof. unfold selectBestSeedFromAvailable. frames_auto. Qed.

#[local] Hint Resolve frames_getFertilizerCount frames_ensureBestSeedCache
  frames_selectBestSeedFromAvailable : frames.

Lemma frames_findBestSeed `{Collaborators} srv preferNoFert lv lands :
  frames (findBestSeed srv preferNoFert lv lands).
Proof. unfold findBestSeed. frames_auto. Qed.

Lemma frames_buySeeds srv bestSeed landsToPlant :
  frames (buySeeds srv bestSeed landsToPlant).
Proof. unfold buySeeds. frames_auto. Qed.

Lemma frames_plantAndFertilize srv actualSeedId landsToPlant :
  frames (plantAndFertilize srv actualSeedId landsToPlant).
Proof. unfold plantAndFertilize. frames_auto. Qed.

#[local] Hint Resolve frames_findBestSeed frames_buySeeds
  frames_plantAndFertilize : frames.

Lemma frames_buyPlantFertilize srv bestSeed landsToPlant :
  frames (buyPlantFertilize srv bestSeed landsToPlant).
Proof. unfold buyPlantFertilize. frames_auto. Qed.

#[local] Hint Resolve frames_buyPlantFertilize : frames.

Lemma frames_autoPlantEmptyLands `{Collaborators} srv deadLandIds
  emptyLandIds :
  frames (autoPlantEmptyLands srv deadLandIds emptyLandIds).
Proof. unfold autoPlantEmptyLands, removePlant. frames_auto. Qed.

Lemma frames_batchOp ids op :
  (forall l, frames (op l)) -> frames (batchOp ids op).
Proof. intros Hop. unfold batchOp. frames_auto. Qed.

#[local] Hint Resolve frames_autoPlantEmptyLands frames_batchOp : frames.

Lemma frames_checkFarmTry `{Collaborators} srv clk :
  frames (checkFarmTry srv clk).
Proof.
  unfold checkFarmTry, weedOut, insecticide, waterLand, harvest.
  frames_auto.
Qed.

Section Guard.
Context `{Collaborators}.
Variable srv : Server.

Lemma checkFarmLeave_guard clk e :
  isCheckingFarm (checkFarmLeave srv clk e) = false
  /\ lastPushTime (checkFarmLeave srv clk e) = lastPushTime e
  /\ pendingChecks (checkFarmLeave srv clk e) = pendingChecks e.
Proof.
  unfold checkFarmLeave.
  pose proof (frames_checkFarmTry srv clk e) as Hf.
  destruct (checkFarmTry srv clk e) as [[[]|] e1]; simpl in *;
    injection Hf as _ H2 H3; auto.
Qed.

Lemma onLevelChanged_guard lv e :
  guardOf (onLevelChanged lv e) = guardOf e.
Proof.
  unfold onLevelChanged. destruct (lv =? 0); [reflexivity|].
  destruct (lastUnlockedCount e =? 0)%nat; [reflexivity|].
  apply frames_ensureBestSeedCache.
Qed.

Lemma callCheckFarm_consistent clk s :
  consistent s -> consistent (callCheckFarm clk s).
Proof.
  intros Hs. unfold callCheckFarm, checkFarmSkips.
  destruct Hs as [(Hflag & Hin)|(Hflag & Hin)]; rewrite Hflag; simpl.
  - destruct (gid (engine s) =? 0); [left; auto|].
    right. simpl. rewrite Hin. eauto.
  - right. auto.
Qed.

Lemma step_consistent s ev : consistent s -> consistent (step srv s ev).
Proof.
  intros Hs. destruct ev as [clk| |now lands|clk|lv|g l gd]; simpl.
  - now apply callCheckFarm_consistent.
  - destruct Hs as [(Hflag & Hin)|(Hflag & clk & Hin)]; rewrite Hin.
    + left. auto.
    + left. simpl. split; [apply checkFarmLeave_guard|reflexivity].
  - unfold onLandsChangedPush.
    destruct Hs as [(Hflag & Hin)|(Hflag & Hin)]; rewrite Hflag.
    + destruct (now - lastPushTime (engine s) <? 500); left; auto.
    + right. auto.
  - destruct (pendingChecks (engine s)) as [|n]; [assumption|]. simpl.
    destruct Hs as [(Hflag & Hin)|(Hflag & Hin)]; rewrite Hflag.
    + apply callCheckFarm_consistent. left. auto.
    + right. auto.
  - pose proof (onLevelChanged_guard lv (engine s)) as Hg.
    injection Hg as Hg _ _.
    destruct Hs as [(Hflag & Hin)|(Hflag & Hin)]; [left|right]; simpl;
      rewrite Hg; auto.
  - exact Hs.
Qed.

Lemma run_consistent evs : forall s, consistent s -> consistent (run srv s evs).
Proof.
  induction evs as [|ev evs IH]; intros s Hs; simpl; [assumption|].
  apply IH. now apply step_consistent.
Qed.

Lemma step_lastPushTime s ev :
  lastPushTime (engine (step srv s ev))
  = match ev with
    | LandsChanged now _ =>
        if pushAccepted (engine s) now then now else lastPushTime (engine s)
    | _ => lastPushTime (engine s)
    end.
Proof.
  destruct ev as [clk| |now lands|clk|lv|g l gd]; simpl.
  - unfold callCheckFarm. destruct (checkFarmSkips (engine s)); reflexivity.
  - destruct (inFlight s); [reflexivity|]. simpl. apply checkFarmLeave_guard.
  - unfold onLandsChangedPush, pushAccepted.
    destruct (isCheckingFarm (engine s)); [reflexivity|].
    destruct (now - lastPushTime (engine s) <? 500); reflexivity.
  - destruct (pendingChecks (engine s)); [reflexivity|]. simpl.
    destruct (isCheckingFarm (engine s)); [reflexivity|].
    unfold callCheckFarm. simpl.
    destruct (checkFarmSkips _); reflexivity.
  - pose proof (onLevelChanged_guard lv (engine s)) as Hg.
    now injection Hg as _ Hg _.
  - reflexivity.
Qed.
End Guard.

(** C9. A call of [checkFarm] while the guard is set changes nothing, and a
    cycle that ran leaves the guard cleared whatever the service answered.
    In every run of the event loop from the initial state at most one cycle
    is in flight, the controller is Checking exactly when one is, a call of
    [checkFarm] in the Checking state is a no-op, the end of the cycle
    returns the controller to Idle, and the state changes only from Idle to
    Checking when a call passes the guard and from Checking to Idle when the
    cycle in flight ends. *)
Theorem checkFarm_mutual_exclusion `{Collaborators} :
  forall (srv : Server),
    (forall clk e, isCheckingFarm e = true -> checkFarm srv clk e = e)
    /\ (forall clk e, isCheckingFarm e = false ->
                      isCheckingFarm (checkFarm srv clk e) = false)
    /\ (forall gid level gold evs,
          let s := run srv (initialSystem gid level gold) evs in
          (length (inFlight s) <= 1)%nat
          /\ (ctlState s = Checking <-> length (inFlight s) = 1%nat)
          /\ (ctlState s = Checking ->
              forall clk, step srv s (CheckFarmCalled clk) = s)
          /\ (ctlState s = Checking -> ctlState (step srv s CycleEnds) = Idle)
          /\ forall ev,
               (ctlState s = Idle -> ctlState (step srv s ev) = Checking ->
                exists clk,
                  (ev = CheckFarmCalled clk \/ ev = PushTimerFires clk)
                  /\ inFlight (step srv s ev) = [clk])
               /\ (ctlState s = Checking -> ctlState (step srv s ev) = Idle ->
                   ev = CycleEnds /\ inFlight (step srv s ev) = [])).
Proof.
  intros srv. split; [|split].
  - intros clk e Hflag. unfold checkFarm, checkFarmSkips. now rewrite Hflag.
  - intros clk e Hflag. unfold checkFarm, checkFarmSkips. rewrite Hflag.
    simpl. destruct (gid e =? 0); [assumption|apply checkFarmLeave_guard].
  - intros gid0 level0 gold0 evs s.
    assert (Hs : consistent s).
    { apply run_consistent. left. split; reflexivity. }
    assert (Hnext : forall ev, consistent (step srv s ev)).
    { intros ev. now apply step_consistent. }
    clearbody s. unfold ctlState.
    destruct Hs as [(Hflag & Hin)|(Hflag & clk0 & Hin)]; rewrite Hflag, Hin.
    + split; [simpl; lia|]. split; [simpl; split; discriminate|].
      split; [discriminate|]. split; [discriminate|].
      intros ev. split; [|discriminate]. intros _ Hchk.
      specialize (Hnext ev).
      destruct (isCheckingFarm (engine (step srv s ev))) eqn:Hflag';
        [|discriminate].
      destruct ev as [clk| |now lands|clk|lv|g l gd]; simpl in *.
      * exists clk. split; [auto|].
        unfold callCheckFarm in *. destruct (checkFarmSkips (engine s)).
        -- congruence.
        -- simpl. now rewrite Hin.
      * rewrite Hin in Hflag'. congruence.
      * unfold onLandsChangedPush in Hflag'. rewrite Hflag in Hflag'.
        destruct (now - lastPushTime (engine s) <? 500); simpl in Hflag';
          congruence.
      * exists clk. split; [auto|].
        destruct (pendingChecks (engine s)); [congruence|].
        simpl in *. rewrite Hflag in *.
        unfold callCheckFarm in *. simpl in *.
        destruct (checkFarmSkips _); simpl in *; [congruence|].
        now rewrite Hin.
      * pose proof (onLevelChanged_guard lv (engine s)) as Hg.
        injection Hg as Hg _ _. congruence.
      * congruence.
    + split; [simpl; lia|]. split; [simpl; tauto|].
      split.
      { intros _ clk. simpl. unfold callCheckFarm, checkFarmSkips.
        now rewrite Hflag. }
      split.
      { intros _. simpl. rewrite Hin. simpl.
        now rewrite (proj1 (checkFarmLeave_guard srv clk0 (engine s))). }
      intros ev. split; [discriminate|]. intros _ Hidle.
      destruct (isCheckingFarm (engine (step srv s ev))) eqn:Hflag';
        [discriminate|].
      destruct ev as [clk| |now lands|clk|lv|g l gd]; simpl in *.
      * unfold callCheckFarm, checkFarmSkips in Hflag'.
        rewrite Hflag in Hflag'. simpl in Hflag'. congruence.
      * rewrite Hin. auto.
      * unfold onLandsChangedPush in Hflag'. rewrite Hflag in Hflag'.
        congruence.
      * destruct (pendingChecks (engine s)); [congruence|].
        simpl in *. rewrite Hflag in *. simpl in *. congruence.
      * pose proof (onLevelChanged_guard lv (engine s)) as Hg.
        injection Hg as Hg _ _. congruence.
      * congruence.
Qed.

Lemma accepted_spacing `{Collaborators} (srv : Server) (evs : list Event) :
  forall s,
    Forall (fun a => lastPushTime (engine s) + 500 <= a)
      (acceptedPushes srv s evs)
    /\ Sorted.StronglySorted (fun a b => a + 500 <= b)
         (acceptedPushes srv s evs).
Proof.
  induction evs as [|ev evs IH]; intros s; simpl.
  - split; constructor.
  - destruct (IH (step srv s ev)) as (Hall & Hsorted).
    rewrite step_lastPushTime in Hall.
    destruct ev as [clk| |now lands|clk|lv|g l gd]; simpl; auto.
    destruct (pushAccepted (engine s) now) eqn:Hacc; simpl; [|auto].
    unfold pushAccepted in Hacc. apply andb_true_iff in Hacc as [_ Hacc].
    apply negb_true_iff, Z.ltb_ge in Hacc.
    split.
    + constructor; [lia|].
      eapply List.Forall_impl; [|exact Hall]. simpl. intros a Ha. lia.
    + constructor; assumption.
Qed.

(** C10 (as amended). Over any run of the event loop, the push
    notifications that pass the handler's guards are at least 500 ms apart
    from one another and from the last one accepted before the run; a push
    that is not accepted changes nothing; an accepted push sets the forced
    flag, schedules one check and becomes the reference of the debounce; a
    push less than 500 ms after the last accepted one is not accepted. *)
Theorem push_debounce `{Collaborators} :
  forall (srv : Server) (s : System) (evs : list Event),
    Sorted.StronglySorted (fun a b => a + 500 <= b) (acceptedPushes srv s evs)
    /\ Forall (fun a => lastPushTime (engine s) + 500 <= a)
         (acceptedPushes srv s evs)
    /\ (forall now lands e,
          pushAccepted e now = false -> onLandsChangedPush lands now e = e)
    /\ (forall now lands e,
          pushAccepted e now = true ->
          forceFarmCheck (onLandsChangedPush lands now e) = true
          /\ pendingChecks (onLandsChangedPush lands now e)
             = S (pendingChecks e)
          /\ lastPushTime (onLandsChangedPush lands now e) = now)
    /\ (forall now e,
          now - lastPushTime e < 500 -> pushAccepted e now = false).
Proof.
  intros srv s evs.
  destruct (accepted_spacing srv evs s) as (Hall & Hsorted).
  split; [exact Hsorted|]. split; [exact Hall|].
  split; [|split].
  - intros now lands e Hacc. unfold pushAccepted in Hacc.
    unfold onLandsChangedPush.
    destruct (isCheckingFarm e); [reflexivity|].
    destruct (now - lastPushTime e <? 500); [reflexivity|discriminate].
  - intros now lands e Hacc. unfold pushAccepted in Hacc.
    unfold onLandsChangedPush.
    destruct (isCheckingFarm e); [discriminate|].
    destruct (now - lastPushTime e <? 500); [discriminate|].
    repeat split.
  - intros now e Hlt. unfold pushAccepted.
    apply Z.ltb_lt in Hlt. rewrite Hlt. now rewrite andb_false_r.
Qed.

(** C10 as stated fails: the pushes at 1400 and 1600 arrive 200 ms apart and
    the second one is accepted, because the one at 1400 was itself ignored
    (it came 400 ms after the accepted push at 1000) and left the reference
    of the debounce at 1000.  The check scheduled by the push at 1000 has run
    to its end before, so the guard flag is clear and the forced flag has
    been reset: the push at 1600 sets it again and schedules a check. *)
Lemma second_push_within_500ms_accepted :
  let before :=
    run quietFarm (initialSystem 1 5 100)
      [LandsChanged 1000 [1];
       PushTimerFires (mkCycleClock 200 200 (fun _ => 200) 1100);
       CycleEnds; LandsChanged 1400 [1]] in
  acceptedPushes quietFarm (initialSystem 1 5 100)
    [LandsChanged 1000 [1];
     PushTimerFires (mkCycleClock 200 200 (fun _ => 200) 1100);
     CycleEnds; LandsChanged 1400 [1]; LandsChanged 1600 [1]]
  = [1000; 1600]
  /\ 1600 - 1400 < 500
  /\ forceFarmCheck (engine before) = false
  /\ pendingChecks (engine before) = 0%nat
  /\ forceFarmCheck (engine (step quietFarm before (LandsChanged 1600 [1])))
     = true
  /\ pendingChecks (engine (step quietFarm before (LandsChanged 1600 [1])))
     = 1%nat.
Proof. vm_compute. repeat split. Qed.

(** ** Properties of the Yield Optimizer *)

Section Yield.
Context `{Collaborators}.
Local Open Scope Q_scope.

Lemma Qpositive_true (x : Q) : Qpositive x = true <-> 0 < x.
Proof.
  unfold Qpositive. rewrite negb_true_iff.
  split.
  - intros Hb. apply Qnot_le_lt. intros Hle.
    apply Qle_bool_iff in Hle. congruence.
  - intros Hlt. destruct (Qle_bool x 0) eqn:Hb; [|reflexivity].
    apply Qle_bool_iff in Hb. lra.
Qed.

Lemma inject_Z_ge_1 (n : Z) : (1 <= n)%Z -> 1 <= inject_Z n.
Proof. intros Hn. change 1 with (inject_Z 1). rewrite <- Zle_Qle. lia. Qed.

Lemma cycleSecNoFert_spec (n : Z) (s : Seed) :
  cycleSecNoFert n s == spec_cycleNoFert (growTimeSec s) n.
Proof.
  unfold cycleSecNoFert, spec_cycleNoFert, NO_FERT_PLANT_SPEED_PER_SEC,
    NO_FERT_PLANTS_PER_2_SEC.
  assert (E : 18 / 2 == 9) by reflexivity. rewrite E. reflexivity.
Qed.

Lemma cycleSecNormalFert_floored (n : Z) (s : Seed) :
  cycleSecNormalFert n s == floored_cycleNormalFert (growTimeSec s) n.
Proof.
  unfold cycleSecNormalFert, floored_cycleNormalFert, calcEffectiveGrowTime,
    NORMAL_FERT_PLANT_SPEED_PER_SEC, NORMAL_FERT_PLANTS_PER_2_SEC,
    FERT_PERCENT, FERT_MIN_REDUCE_SEC.
  assert (E : 12 / 2 == 6) by reflexivity. rewrite E.
  rewrite (Qmult_comm (growTimeSec s) (2 # 10)). reflexivity.
Qed.

Lemma floored_cycle_is_spec (grow : Q) (n : Z) :
  31 <= grow ->
  floored_cycleNormalFert grow n == spec_cycleNormalFert grow n.
Proof.
  intros Hg. unfold floored_cycleNormalFert, spec_cycleNormalFert.
  apply Qplus_inj_r. apply Q.max_r.
  destruct (Q.max_spec ((2 # 10) * grow) 30) as [[H1 H2]|[H1 H2]];
    rewrite H2; lra.
Qed.

Lemma spec_cycleNoFert_pos (grow : Q) (n : Z) :
  0 < grow -> (1 <= n)%Z -> 0 < spec_cycleNoFert grow n.
Proof.
  intros Hg Hn. apply inject_Z_ge_1 in Hn. unfold spec_cycleNoFert.
  assert (E : inject_Z n / 9 == inject_Z n * (1 # 9)) by field. rewrite E.
  lra.
Qed.

Lemma floored_cycle_pos (grow : Q) (n : Z) :
  (1 <= n)%Z -> 0 < floored_cycleNormalFert grow n.
Proof.
  intros Hn. apply inject_Z_ge_1 in Hn. unfold floored_cycleNormalFert.
  assert (E : inject_Z n / 6 == inject_Z n * (1 # 6)) by field. rewrite E.
  pose proof (Q.le_max_l 1 (grow - Qmax ((2 # 10) * grow) 30)). lra.
Qed.

Lemma expPerHour_spec (n : Z) (x cycle cycle' : Q) :
  cycle == cycle' -> 0 < cycle' ->
  expPerHour n x cycle == spec_expPerHour n x cycle'.
Proof.
  intros Heq Hpos. unfold expPerHour, spec_expPerHour.
  assert (Hp : Qpositive cycle = true).
  { apply Qpositive_true. now rewrite Heq. }
  rewrite Hp, Heq. reflexivity.
Qed.

Lemma computeSeedYieldRows_fold (n : Z) (raws : list RawSeed) :
  forall rows,
    fold_left (fun rows raw =>
                 match seedYieldRow n raw with
                 | Some row => rows ++ [row]
                 | None => rows
                 end) raws rows
    = rows ++ flat_map (fun raw =>
                          match seedYieldRow n raw with
                          | Some row => [row]
                          | None => []
                          end) raws.
Proof.
  induction raws as [|raw raws IH]; intros rows; simpl.
  - now rewrite app_nil_r.
  - rewrite IH. destruct (seedYieldRow n raw); simpl.
    + now rewrite <- app_assoc.
    + reflexivity.
Qed.

Lemma buildSeedYieldRows_rows (lands : Z) (c : SeedYieldCache) :
  cacheValid c ->
  fst (buildSeedYieldRows lands c) = computeSeedYieldRows (Z.max 1 lands)
  /\ cacheValid (snd (buildSeedYieldRows lands c)).
Proof.
  intros Hc. unfold buildSeedYieldRows.
  destruct (Z.eqb_spec (cache_lands c) (Z.max 1 lands)) as [Heq|Hne]; simpl.
  - destruct (nonEmpty (cache_rows c)) eqn:Hrows; simpl.
    + apply nonEmpty_true in Hrows.
      destruct Hc as [Hc|Hc]; [contradiction|].
      rewrite <- Heq. split; [assumption|now right].
    + split; [reflexivity|]. right. reflexivity.
  - split; [reflexivity|]. right. reflexivity.
Qed.
End Yield.

(** C5 (as amended). For every plot count [n >= 1], and a cache that holds
    nothing or the rows of its own plot count, the rows of the yield table
    are the configured seeds with a non-zero id and a positive grow time,
    and for each of them: the unfertilized cycle time is
    grow-time + n/9; the fertilized cycle time is
    max(1, grow-time - max(0.2 * grow-time, 30)) + n/6, which is
    (grow-time - max(0.2 * grow-time, 30)) + n/6 when the grow time is at
    least 31 seconds; each experience-per-hour figure is
    n * harvest-experience / cycle-time * 3600. *)
Theorem seed_yield_formulas `{Collaborators} :
  forall (seedYieldCache : SeedYieldCache) (n : Z),
    cacheValid seedYieldCache ->
    1 <= n ->
    let rows := fst (buildSeedYieldRows n seedYieldCache) in
    map seed rows
    = List.filter (fun s => negb (seedId s =? 0) && Qpositive (growTimeSec s))
        (map normalizeSeedRow seedShopRows)
    /\ Forall
         (fun row =>
            (0 < growTimeSec (seed row))%Q
            /\ (cycleSecNoFert n (seed row)
                == spec_cycleNoFert (growTimeSec (seed row)) n)%Q
            /\ (cycleSecNormalFert n (seed row)
                == floored_cycleNormalFert (growTimeSec (seed row)) n)%Q
            /\ ((31 <= growTimeSec (seed row))%Q ->
                (cycleSecNormalFert n (seed row)
                 == spec_cycleNormalFert (growTimeSec (seed row)) n)%Q)
            /\ (farmExpPerHourNoFert row
                == spec_expPerHour n (expHarvest (seed row))
                     (spec_cycleNoFert (growTimeSec (seed row)) n))%Q
            /\ (farmExpPerHourNormalFert row
                == spec_expPerHour n (expHarvest (seed row))
                     (floored_cycleNormalFert (growTimeSec (seed row)) n))%Q)
         rows.
Proof.
  intros c n Hc Hn rows. subst rows.
  rewrite (proj1 (buildSeedYieldRows_rows n c Hc)).
  rewrite Z.max_r by assumption.
  unfold computeSeedYieldRows. rewrite computeSeedYieldRows_fold. simpl.
  induction seedShopRows as [|raw raws IH].
  - split; [reflexivity|constructor].
  - destruct IH as (IHmap & IHall).
    cbn [flat_map map List.filter]. unfold seedYieldRow at 1 3.
    set (s := normalizeSeedRow raw). clearbody s.
    destruct (seedId s =? 0); cbn [orb negb andb app map]; [auto|].
    destruct (Qpositive (growTimeSec s)) eqn:Hpos; cbn [negb app map];
      [|auto].
    split; [simpl; now rewrite IHmap|].
    constructor; [|assumption]. simpl.
    apply Qpositive_true in Hpos.
    split; [assumption|].
    split; [apply cycleSecNoFert_spec|].
    split; [apply cycleSecNormalFert_floored|].
    split.
    { intros Hg. rewrite cycleSecNormalFert_floored.
      now apply floored_cycle_is_spec. }
    split.
    + apply expPerHour_spec; [apply cycleSecNoFert_spec|].
      now apply spec_cycleNoFert_pos.
    + apply expPerHour_spec; [apply cycleSecNormalFert_floored|].
      now apply floored_cycle_pos.
Qed.

Lemma initialSeedYieldCache_valid `{Collaborators} :
  cacheValid initialSeedYieldCache.
Proof. left. reflexivity. Qed.

Lemma seed_yield_formulas_witness :
  cacheValid initialSeedYieldCache
  /\ 1 <= 10
  /\ map seed (fst (buildSeedYieldRows 10 initialSeedYieldCache))
     = List.filter
         (fun s => negb (seedId s =? 0) && Qpositive (growTimeSec s))
         (map normalizeSeedRow seedShopRows)
  /\ Forall
       (fun row =>
          (0 < growTimeSec (seed row))%Q
          /\ (cycleSecNoFert 10 (seed row)
              == spec_cycleNoFert (growTimeSec (seed row)) 10)%Q
          /\ (cycleSecNormalFert 10 (seed row)
              == floored_cycleNormalFert (growTimeSec (seed row)) 10)%Q
          /\ ((31 <= growTimeSec (seed row))%Q ->
              (cycleSecNormalFert 10 (seed row)
               == spec_cycleNormalFert (growTimeSec (seed row)) 10)%Q)
          /\ (farmExpPerHourNoFert row
              == spec_expPerHour 10 (expHarvest (seed row))
                   (spec_cycleNoFert (growTimeSec (seed row)) 10))%Q
          /\ (farmExpPerHourNormalFert row
              == spec_expPerHour 10 (expHarvest (seed row))
                   (floored_cycleNormalFert (growTimeSec (seed row)) 10))%Q)
       (fst (buildSeedYieldRows 10 initialSeedYieldCache)).
Proof.
  split; [exact initialSeedYieldCache_valid|]. split; [lia|].
  exact (seed_yield_formulas initialSeedYieldCache 10
           initialSeedYieldCache_valid ltac:(lia)).
Defined.

(** The example of C5: a grow time of 1200 seconds gives a
    fertilized cycle of 960 seconds plus the planting time. *)
Example fertilized_cycle_1200 (n : Z) :
  (cycleSecNormalFert n (mkSeed 20004 5004 0 5 30 true 30 1200)
   == 960 + inject_Z n / 6)%Q.
Proof.
  rewrite cycleSecNormalFert_floored. unfold floored_cycleNormalFert. simpl.
  apply Qplus_inj_r. reflexivity.
Qed.

(** C5 as stated fails for a grow time under 31 seconds: seed 20003 of the
    sample table grows in 20 seconds, the code's fertilized cycle for one
    plot is 1 + 1/6 seconds where the stated formula gives
    (20 - 30) + 1/6, and the experience per hour differs accordingly. *)
Lemma fertilized_cycle_not_spec_below_31 :
  exists row,
    In row (fst (buildSeedYieldRows 1 initialSeedYieldCache))
    /\ seedId (seed row) = 20003
    /\ (growTimeSec (seed row) == 20)%Q
    /\ (expHarvest (seed row) == 10)%Q
    /\ (cycleSecNormalFert 1 (seed row) == 7 # 6)%Q
    /\ (spec_cycleNormalFert 20 1 == - (59 # 6))%Q
    /\ ~ (farmExpPerHourNormalFert row
          == spec_expPerHour 1 10 (spec_cycleNormalFert 20 1))%Q.
Proof.
  eexists. split; [right; left; reflexivity|].
  split; [reflexivity|]. split; [reflexivity|]. split; [reflexivity|].
  split; [reflexivity|]. split; [reflexivity|].
  vm_compute. discriminate.
Qed.

(** * Further properties of the code *)

(** ** More on the Land State Analyzer *)

(** X1. [getCurrentPhase] returns [null] exactly for an empty phase list,
    and what it returns otherwise is a phase of the list. *)
Theorem getCurrentPhase_member `{Collaborators} :
  forall phases nowSec,
    (getCurrentPhase phases nowSec = None <-> phases = [])
    /\ forall p, getCurrentPhase phases nowSec = Some p -> In p phases.
Proof.
  intros phases nowSec. destruct phases as [|first rest].
  - split; [tauto|discriminate].
  - unfold getCurrentPhase.
    destruct (find (begun nowSec) (rev (first :: rest))) as [cur|] eqn:Hf.
    + split; [split; discriminate|].
      intros p Hp. injection Hp as <-.
      apply find_some in Hf as [Hin _]. now apply in_rev in Hin.
    + split; [split; discriminate|].
      intros p Hp. injection Hp as <-. now left.
Qed.

Lemma two_decompositions {A} (x y : A) (b' a' : list A) :
  forall b a,
    b ++ x :: a = b' ++ y :: a' -> (length b' < length b)%nat -> In x a'.
Proof.
  induction b' as [|z b' IH]; intros b a Heq Hlen.
  - destruct b as [|z b]; [simpl in Hlen; lia|].
    simpl in Heq. injection Heq as _ <-. apply in_or_app. right. now left.
  - destruct b as [|w b]; [simpl in Hlen; lia|].
    simpl in Heq. injection Heq as _ Heq.
    apply (IH b a Heq). simpl in Hlen. lia.
Qed.

(** X2. As the server time advances the current phase never moves towards
    the front of the list. *)
Theorem getCurrentPhase_advances `{Collaborators} :
  forall phases nowSec nowSec' p p',
    nowSec <= nowSec' ->
    getCurrentPhase phases nowSec = Some p ->
    getCurrentPhase phases nowSec' = Some p' ->
    exists before after before' after',
      phases = before ++ p :: after
      /\ phases = before' ++ p' :: after'
      /\ (length before <= length before')%nat.
Proof.
  intros phases nowSec nowSec' p p' Hle Hp Hp'.
  destruct phases as [|first rest]; [discriminate|].
  unfold getCurrentPhase in Hp, Hp'.
  destruct (find (begun nowSec) (rev (first :: rest))) as [cur|] eqn:Hf.
  - injection Hp as <-.
    destruct (find_rev_last _ _ _ Hf) as (b & a & Heq & Hcur & _).
    assert (Hcur' : begun nowSec' cur = true).
    { unfold begun in *. apply andb_true_iff in Hcur as [H1 H2].
      apply andb_true_iff. split; [assumption|].
      apply Z.leb_le in H2. apply Z.leb_le. lia. }
    destruct (find (begun nowSec') (rev (first :: rest))) as [cur'|] eqn:Hf'.
    + injection Hp' as <-.
      destruct (find_rev_last _ _ _ Hf') as (b' & a' & Heq' & _ & Hafter').
      exists b, a, b', a'. split; [assumption|]. split; [assumption|].
      destruct (le_lt_dec (length b) (length b')) as [|Hlt]; [assumption|].
      exfalso. rewrite Heq in Heq'.
      pose proof (two_decompositions cur cur' b' a' b a Heq' Hlt) as Hin.
      apply Hafter' in Hin. congruence.
    + exfalso. rewrite find_rev_none in Hf'.
      assert (Hin : In cur (first :: rest)).
      { rewrite Heq. apply in_or_app. right. now left. }
      specialize (Hf' cur Hin). congruence.
  - injection Hp as <-.
    destruct (find (begun nowSec') (rev (first :: rest))) as [cur'|] eqn:Hf'.
    + injection Hp' as <-.
      destruct (find_rev_last _ _ _ Hf') as (b' & a' & Heq' & _).
      exists [], rest, b', a'. split; [reflexivity|].
      split; [assumption|]. simpl. lia.
    + injection Hp' as <-. exists [], rest, [], rest. auto.
Qed.

Lemma getCurrentPhase_advances_witness :
  100 <= 400
  /\ getCurrentPhase [mkPhase 1 100 0 0 0; mkPhase 6 300 0 0 0] 100
     = Some (mkPhase 1 100 0 0 0)
  /\ getCurrentPhase [mkPhase 1 100 0 0 0; mkPhase 6 300 0 0 0] 400
     = Some (mkPhase 6 300 0 0 0)
  /\ exists before after before' after',
       [mkPhase 1 100 0 0 0; mkPhase 6 300 0 0 0]
       = before ++ mkPhase 1 100 0 0 0 :: after
       /\ [mkPhase 1 100 0 0 0; mkPhase 6 300 0 0 0]
          = before' ++ mkPhase 6 300 0 0 0 :: after'
       /\ (length before <= length before')%nat.
Proof.
  split; [lia|]. split; [reflexivity|]. split; [reflexivity|].
  apply (getCurrentPhase_advances
           [mkPhase 1 100 0 0 0; mkPhase 6 300 0 0 0] 100 400);
    [lia|reflexivity|reflexivity].
Defined.

Section Display.
Context `{Collaborators}.
Variable nowSec : Z.

Lemma getCurrentPhase_cons (phaseNow : Z) (p : Phase) (l : list Phase) :
  getCurrentPhase (p :: l) phaseNow <> None.
Proof.
  unfold getCurrentPhase.
  destruct (find (begun phaseNow) (rev (p :: l))); discriminate.
Qed.

Lemma min_update_display (known : bool) (rem : Z) (r : LandStatus) :
  let r' :=
    if known then
      match minRemainingSec r with
      | None => set_minRemainingSec (Some rem) r
      | Some m => if rem <? m then set_minRemainingSec (Some rem) r else r
      end
    else r in
  landSnapshots r' = landSnapshots r
  /\ harvestableInfo r' = harvestableInfo r
  /\ serverTimeSec r' = serverTimeSec r
  /\ minRemainingSec r'
     = if known then optMin (minRemainingSec r) rem else minRemainingSec r.
Proof.
  destruct known; simpl; [|repeat split].
  unfold optMin.
  destruct (minRemainingSec r) as [m|] eqn:Hm; [destruct (rem <? m)|];
    simpl; rewrite ?Hm; repeat split.
Qed.

Lemma analyzeGrowing_display id pl cur total (r : LandStatus) :
  let info := getRemainingToMatureInfo (phases pl) nowSec total in
  let r' := analyzeGrowing nowSec id pl cur total r in
  landSnapshots r'
  = landSnapshots r
    ++ [SnapGrowing id total (remainingSec info) (known info)]
  /\ harvestableInfo r' = harvestableInfo r
  /\ serverTimeSec r' = serverTimeSec r
  /\ minRemainingSec r'
     = if known info then optMin (minRemainingSec r) (remainingSec info)
       else minRemainingSec r.
Proof.
  intros info. unfold analyzeGrowing. fold info.
  set (r1 := if needsWater pl cur nowSec then push_needWater id r else r).
  set (r2 := if hasWeeds pl cur nowSec then push_needWeed id r1 else r1).
  set (r3 := if hasBugs pl cur nowSec then push_needBug id r2 else r2).
  destruct (min_update_display (known info) (remainingSec info)
              (push_growing id r3)) as (Hs & Hh & Ht & Hm).
  assert (Hr3 : landSnapshots r3 = landSnapshots r
                /\ harvestableInfo r3 = harvestableInfo r
                /\ serverTimeSec r3 = serverTimeSec r
                /\ minRemainingSec r3 = minRemainingSec r).
  { subst r1 r2 r3.
    destruct (needsWater pl cur nowSec), (hasWeeds pl cur nowSec),
      (hasBugs pl cur nowSec); repeat split. }
  destruct Hr3 as (Hs3 & Hh3 & Ht3 & Hm3).
  cbv zeta.
  split; [|split; [|split]].
  - change (landSnapshots (push_snapshot ?s ?x)) with (landSnapshots x ++ [s]).
    rewrite Hs. simpl. rewrite Hs3. reflexivity.
  - change (harvestableInfo (push_snapshot ?s ?x)) with (harvestableInfo x).
    rewrite Hh. simpl. rewrite Hh3. reflexivity.
  - change (serverTimeSec (push_snapshot ?s ?x)) with (serverTimeSec x).
    rewrite Ht. simpl. rewrite Ht3. reflexivity.
  - change (minRemainingSec (push_snapshot ?s ?x)) with (minRemainingSec x).
    rewrite Hm. simpl. rewrite Hm3. reflexivity.
Qed.

Lemma analyzeLand_display (phaseNow : Z) (r : LandStatus) (land : Land) :
  let r' := analyzeLand nowSec phaseNow r land in
  landSnapshots r' = landSnapshots r ++ [snapshotOf nowSec phaseNow land]
  /\ harvestableInfo r' = harvestableInfo r ++ harvestInfoOf phaseNow land
  /\ serverTimeSec r' = serverTimeSec r
  /\ minRemainingSec r'
     = fold_left optMin (knownRemaining nowSec phaseNow land)
         (minRemainingSec r).
Proof.
  unfold analyzeLand, knownRemaining, snapshotOf, harvestInfoOf, categoryOf.
  destruct (unlocked land); simpl;
    [|rewrite ?app_nil_r; repeat split].
  destruct (plant land) as [pl|]; simpl;
    [|rewrite ?app_nil_r; repeat split].
  destruct (phases pl) as [|p0 rest] eqn:Hph.
  { simpl. rewrite ?app_nil_r; repeat split. }
  pose proof (getCurrentPhase_cons phaseNow p0 rest) as Hsome.
  destruct (getCurrentPhase (p0 :: rest) phaseNow) as [cur|]; [|congruence].
  destruct (phase cur =? DEAD).
  { simpl. rewrite ?app_nil_r; repeat split. }
  destruct (phase cur =? MATURE).
  { simpl. repeat split. }
  destruct (analyzeGrowing_display (land_id land) pl cur
              (getPlantGrowTime (plant_id pl)) (incr_unlockedCount r))
    as (Hs & Hh & Ht & Hm).
  rewrite Hph in Hs, Hm.
  rewrite Hs, Hh, Ht, Hm.
  set (info := getRemainingToMatureInfo (p0 :: rest) nowSec
                 (getPlantGrowTime (plant_id pl))).
  clearbody info.
  destruct (known info); simpl; rewrite ?app_nil_r; repeat split.
Qed.

Lemma analyzeLands_display (plots : list (Z * Land)) :
  forall r,
    let r' := fold_left (fun r tl => analyzeLand nowSec (fst tl) r (snd tl))
                plots r in
    landSnapshots r'
    = landSnapshots r
      ++ map (fun tl => snapshotOf nowSec (fst tl) (snd tl)) plots
    /\ harvestableInfo r'
       = harvestableInfo r
         ++ flat_map (fun tl => harvestInfoOf (fst tl) (snd tl)) plots
    /\ serverTimeSec r' = serverTimeSec r
    /\ minRemainingSec r'
       = fold_left optMin
           (flat_map (fun tl => knownRemaining nowSec (fst tl) (snd tl)) plots)
           (minRemainingSec r).
Proof.
  induction plots as [|[t land] plots IH]; intros r; simpl.
  - rewrite !app_nil_r. repeat split.
  - destruct (IH (analyzeLand nowSec t r land)) as (Hs & Hh & Ht & Hm).
    destruct (analyzeLand_display t r land) as (Hs1 & Hh1 & Ht1 & Hm1).
    rewrite Hs, Hh, Ht, Hm, Hs1, Hh1, Ht1, Hm1.
    rewrite <- !app_assoc, fold_left_app. repeat split.
Qed.

Lemma analyzeLands_timed (lands : list Land) (phaseClock : nat -> Z) :
  let r := analyzeLands lands nowSec phaseClock in
  let plots := timedFrom phaseClock 0 lands in
  landSnapshots r = map (fun tl => snapshotOf nowSec (fst tl) (snd tl)) plots
  /\ harvestableInfo r
     = flat_map (fun tl => harvestInfoOf (fst tl) (snd tl)) plots
  /\ serverTimeSec r = nowSec
  /\ minRemainingSec r
     = fold_left optMin
         (flat_map (fun tl => knownRemaining nowSec (fst tl) (snd tl)) plots)
         None.
Proof.
  intros r plots. subst r. unfold analyzeLands.
  rewrite analyzeLandsFrom_timed. fold plots.
  exact (analyzeLands_display plots (emptyStatus nowSec)).
Qed.


(** A remaining time is recorded for a plot exactly when the plot is growing
    and its time to maturity is known. *)
Lemma knownRemaining_spec (phaseNow : Z) (land : Land) (m : Z) :
  In m (knownRemaining nowSec phaseNow land)
  <-> remainsAt nowSec phaseNow land m.
Proof.
  unfold knownRemaining, snapshotOf, remainsAt. split.
  - destruct (categoryOf phaseNow land) eqn:Hc, (plant land) as [pl|] eqn:Hpl;
      simpl; try contradiction.
    destruct (known _) eqn:Hk; [|contradiction].
    intros [<-|[]].
    apply category_growing in Hc as (pl' & cur & Hg).
    assert (pl' = pl) as -> by (destruct Hg as (_ & Hpl' & _); congruence).
    exists pl, cur. auto.
  - intros (pl & cur & Hg & Hk & Hr).
    assert (Hc : categoryOf phaseNow land = Growing).
    { apply category_growing. now exists pl, cur. }
    destruct Hg as (_ & Hpl & _). rewrite Hc, Hpl. simpl.
    rewrite Hk. now left.
Qed.
End Display.



(** A plot that matures at 201: analysed at 200 it is growing with one
    second left, unless the clock has reached 201 when its phase is taken;
    then its record is that of a mature plot and no remaining time is
    kept. *)
Example analyzeLands_between_readings :
  let land := mkLand 1 true
                (Some (mkPlant 1020002
                         [mkPhase 1 100 0 0 0; mkPhase 6 201 0 0 0] 0 [] [])) in
  landSnapshots (analyzeLands [land] 200 (fun _ => 200))
  = [SnapGrowing 1 60 1 true]
  /\ minRemainingSec (analyzeLands [land] 200 (fun _ => 200)) = Some 1
  /\ landSnapshots (analyzeLands [land] 200 (fun _ => 201)) = [SnapMature 1 60]
  /\ harvestable (analyzeLands [land] 200 (fun _ => 201)) = [1]
  /\ minRemainingSec (analyzeLands [land] 200 (fun _ => 201)) = None.
Proof. vm_compute. repeat split. Qed.

Lemma optMin_fold (l : list Z) :
  forall acc,
    match fold_left optMin l acc with
    | None => acc = None /\ l = []
    | Some m =>
        (acc = Some m \/ In m l)
        /\ (forall a, acc = Some a -> m <= a)
        /\ Forall (fun x => m <= x) l
    end.
Proof.
  induction l as [|x l IH]; intros acc; simpl.
  - destruct acc as [a|]; [|auto].
    split; [auto|]. split; [|constructor].
    intros a' Ha. injection Ha as <-. lia.
  - specialize (IH (optMin acc x)).
    destruct (fold_left optMin l (optMin acc x)) as [m|].
    + destruct IH as (Hin & Hacc & Hall).
      assert (Hx : m <= x /\ forall a, acc = Some a -> m <= a).
      { unfold optMin in Hacc. destruct acc as [a|].
        - destruct (Z.ltb_spec x a).
          + specialize (Hacc x eq_refl). split; [lia|].
            intros a' Ha. injection Ha as <-. lia.
          + specialize (Hacc a eq_refl). split; [lia|].
            intros a' Ha. injection Ha as <-. lia.
        - specialize (Hacc x eq_refl). split; [lia|discriminate]. }
      destruct Hx as (Hx & Hacc').
      split; [|split; [assumption|now constructor]].
      destruct Hin as [Hin|Hin]; [|auto].
      unfold optMin in Hin. destruct acc as [a|].
      * destruct (x <? a); injection Hin as <-; auto.
      * injection Hin as <-. auto.
    + destruct IH as (Hnone & _). unfold optMin in Hnone.
      destruct acc as [a|]; [destruct (x <? a)|]; discriminate.
Qed.

Lemma remainingSec_nonneg `{Collaborators} phases nowSec total :
  0 <= remainingSec (getRemainingToMatureInfo phases nowSec total).
Proof.
  unfold getRemainingToMatureInfo. destruct phases as [|p rest]; [simpl; lia|].
  destruct (fold_left remainStep (p :: rest) (0, 0)) as [mb eb].
  destruct (0 <? mb); [simpl; lia|].
  destruct ((0 <? total) && (0 <? eb)); simpl; lia.
Qed.

Lemma in_timed_remaining `{Collaborators} (nowSec : Z)
  (phaseClock : nat -> Z) (lands : list Land) (m : Z) :
  In m (flat_map (fun tl => knownRemaining nowSec (fst tl) (snd tl))
          (timedFrom phaseClock 0 lands))
  <-> exists i land,
        nth_error lands i = Some land
        /\ remainsAt nowSec (phaseClock i) land m.
Proof.
  rewrite in_flat_map. split.
  - intros ([t land] & Hin & Hm). simpl in Hm.
    destruct (timedFrom_In phaseClock lands 0 t land Hin) as (i & Hi & ->).
    exists i, land. split; [exact Hi|]. now apply knownRemaining_spec.
  - intros (i & land & Hi & Hm). exists (phaseClock i, land). split.
    + exact (timedFrom_nth phaseClock lands 0 i land Hi).
    + now apply knownRemaining_spec.
Qed.

(** X4. The [minRemainingSec] of an analysis is the least remaining time
    among the plots that are growing at the clock reading made for them and
    whose time to maturity, taken at the server time of the analysis, is
    known: it is [null] exactly when there is no such plot, and otherwise it
    is the remaining time of one of them, at most that of every one of them,
    and not negative. *)
Theorem minRemainingSec_least `{Collaborators} :
  forall lands nowSec phaseClock,
    match minRemainingSec (analyzeLands lands nowSec phaseClock) with
    | None =>
        forall i land m,
          nth_error lands i = Some land ->
          ~ remainsAt nowSec (phaseClock i) land m
    | Some m =>
        (exists i land,
            nth_error lands i = Some land
            /\ remainsAt nowSec (phaseClock i) land m)
        /\ (forall i land x,
              nth_error lands i = Some land ->
              remainsAt nowSec (phaseClock i) land x -> m <= x)
        /\ 0 <= m
    end.
Proof.
  intros lands nowSec phaseClock.
  destruct (analyzeLands_timed nowSec lands phaseClock) as (_ & _ & _ & Hm).
  cbv zeta in Hm. rewrite Hm.
  set (known := flat_map (fun tl => knownRemaining nowSec (fst tl) (snd tl))
                  (timedFrom phaseClock 0 lands)).
  pose proof (optMin_fold known None) as Hf.
  pose proof (in_timed_remaining nowSec phaseClock lands) as Hin.
  fold known in Hin.
  destruct (fold_left optMin known None) as [m|].
  - destruct Hf as ([Hf|Hm0] & _ & Hall); [discriminate|].
    split; [now apply Hin|]. split.
    + intros i land x Hi Hx.
      rewrite List.Forall_forall in Hall. apply Hall. apply Hin. eauto.
    + apply Hin in Hm0 as (i & land & _ & pl & cur & _ & _ & <-).
      apply remainingSec_nonneg.
  - destruct Hf as [_ Hnil]. intros i land m Hi Hm0.
    assert (Hnot : In m known) by (apply Hin; eauto).
    rewrite Hnil in Hnot. destruct Hnot.
Qed.

(** X5. Ageing a remaining time by the seconds that have passed never
    overshoots: [d] seconds later the remaining time computed afresh is at
    most the earlier one and at least the earlier one minus [d], floored at
    zero, and whether it is known does not depend on the time. *)
Theorem remaining_after_delay `{Collaborators} :
  forall phases nowSec totalGrowTime d,
    0 <= d ->
    let earlier := getRemainingToMatureInfo phases nowSec totalGrowTime in
    let later := getRemainingToMatureInfo phases (nowSec + d) totalGrowTime in
    known later = known earlier
    /\ Z.max 0 (remainingSec earlier - d) <= remainingSec later
    /\ remainingSec later <= remainingSec earlier.
Proof.
  intros phases nowSec total d Hd earlier later. subst earlier later.
  destruct phases as [|p rest]; [simpl; repeat split; lia|].
  rewrite !getRemainingToMatureInfo_unfold by discriminate. cbv zeta.
  destruct (0 <? fold_left (minStep (fun p => phase p =? MATURE)) (p :: rest) 0).
  - simpl. repeat split; lia.
  - destruct ((0 <? total)
              && (0 <? fold_left (minStep (fun _ => true)) (p :: rest) 0));
      simpl; repeat split; lia.
Qed.

Lemma remaining_after_delay_witness :
  0 <= 30
  /\ known (getRemainingToMatureInfo
              [mkPhase 1 100 0 0 0; mkPhase 6 300 0 0 0] (200 + 30) 60)
     = known (getRemainingToMatureInfo
                [mkPhase 1 100 0 0 0; mkPhase 6 300 0 0 0] 200 60)
  /\ Z.max 0 (remainingSec (getRemainingToMatureInfo
                              [mkPhase 1 100 0 0 0; mkPhase 6 300 0 0 0]
                              200 60) - 30)
     <= remainingSec (getRemainingToMatureInfo
                        [mkPhase 1 100 0 0 0; mkPhase 6 300 0 0 0]
                        (200 + 30) 60)
  /\ remainingSec (getRemainingToMatureInfo
                     [mkPhase 1 100 0 0 0; mkPhase 6 300 0 0 0]
                     (200 + 30) 60)
     <= remainingSec (getRemainingToMatureInfo
                        [mkPhase 1 100 0 0 0; mkPhase 6 300 0 0 0] 200 60).
Proof.
  split; [lia|].
  exact (remaining_after_delay [mkPhase 1 100 0 0 0; mkPhase 6 300 0 0 0]
           200 60 30 ltac:(lia)).
Defined.

(** ** More on the Scheduling Controller *)

(** X6. With the engine state unchanged, a refresh that is due stays due at
    every later server time. *)
Theorem shouldCheckFarmNow_stays_due :
  forall (e : Engine) (nowSec nowSec' : Z),
    nowSec <= nowSec' ->
    shouldCheckFarmNow e nowSec = true ->
    shouldCheckFarmNow e nowSec' = true.
Proof.
  intros e nowSec nowSec' Hle. unfold shouldCheckFarmNow.
  destruct (isFirstFarmCheck e); [reflexivity|].
  destruct (forceFarmCheck e); [reflexivity|].
  destruct (lastFarmSnapshot e) as [s|]; [|reflexivity].
  destruct (0 <? emptyCount s)%nat; [reflexivity|].
  destruct (0 <? deadCount s)%nat; [reflexivity|].
  destruct (0 <? harvestableCount s)%nat; [reflexivity|].
  destruct (0 <? needWaterCount s)%nat; [reflexivity|].
  destruct (0 <? needWeedCount s)%nat; [reflexivity|].
  destruct (0 <? needBugCount s)%nat; [reflexivity|].
  destruct (snap_minRemainingSec s) as [m|]; [|discriminate].
  destruct (Z.leb_spec (m - Z.max 0 (nowSec - snap_serverTimeSec s)) 2);
    [|discriminate].
  intros _.
  destruct (Z.leb_spec (m - Z.max 0 (nowSec' - snap_serverTimeSec s)) 2);
    [reflexivity|lia].
Qed.

Lemma shouldCheckFarmNow_stays_due_witness :
  100000 <= 100500
  /\ shouldCheckFarmNow restingEngine 100000 = true
  /\ shouldCheckFarmNow restingEngine 100500 = true.
Proof.
  assert (H1 : 100000 <= 100500) by lia.
  assert (H2 : shouldCheckFarmNow restingEngine 100000 = true)
    by (vm_compute; reflexivity).
  split; [exact H1|]. split; [exact H2|].
  exact (shouldCheckFarmNow_stays_due restingEngine 100000 100500 H1 H2).
Defined.

Lemma leave_enter (e : Engine) :
  isCheckingFarm e = false ->
  set_isCheckingFarm false (set_isCheckingFarm true e) = e.
Proof. destruct e. simpl. intros ->. reflexivity. Qed.

(** X7. A call of [checkFarm] when no refresh is due returns the engine as
    it was: no remote call, no change of any variable (the source refreshes
    the status display, which is not part of the engine). *)
Theorem checkFarm_not_due `{Collaborators} :
  forall (srv : Server) (clk : CycleClock) (e : Engine),
    isCheckingFarm e = false ->
    shouldCheckFarmNow e (atDecision clk) = false ->
    checkFarm srv clk e = e.
Proof.
  intros srv clk e Hflag Hdue. unfold checkFarm.
  destruct (checkFarmSkips e); [reflexivity|].
  unfold checkFarmLeave, checkFarmEnter, checkFarmTry, bind, gets.
  change (shouldCheckFarmNow (set_isCheckingFarm true e) (atDecision clk))
    with (shouldCheckFarmNow e (atDecision clk)).
  rewrite Hdue. simpl. now apply leave_enter.
Qed.

Lemma checkFarm_not_due_witness :
  isCheckingFarm restingEngine = false
  /\ shouldCheckFarmNow restingEngine
       (atDecision (mkCycleClock 300 300 (fun _ => 300) 1200)) = false
  /\ checkFarm offline (mkCycleClock 300 300 (fun _ => 300) 1200) restingEngine
     = restingEngine.
Proof.
  assert (H1 : isCheckingFarm restingEngine = false)
    by (vm_compute; reflexivity).
  assert (H2 : shouldCheckFarmNow restingEngine
                 (atDecision (mkCycleClock 300 300 (fun _ => 300) 1200))
                   = false)
    by (vm_compute; reflexivity).
  split; [exact H1|]. split; [exact H2|].
  exact (checkFarm_not_due offline (mkCycleClock 300 300 (fun _ => 300) 1200)
    restingEngine
           H1 H2).
Defined.

Lemma bind_run {A B} (m : M A) (k : A -> M B) (e : Engine) :
  bind m k e
  = match m e with
    | (Some a, e') => k a e'
    | (None, e') => (None, e')
    end.
Proof. reflexivity. Qed.

(** [getAllLands] run on an engine. *)
Lemma getAllLands_run (srv : Server) (e : Engine) :
  getAllLands srv e
  = (match srv (length (calls e)) AllLands with
     | Some (AllLandsReply lands) => Some lands
     | _ => None
     end,
     set_calls (calls e ++ [AllLands]) e).
Proof.
  unfold getAllLands, bind, sendMsgAsync.
  now destruct (srv (length (calls e)) AllLands) as [[]|].
Qed.

(** *** What a computation leaves alone *)

Create HintDb respects.

Section Respects.
Variable R : Engine -> Engine -> Prop.
Hypothesis R_refl : forall e, R e e.
Hypothesis R_trans : forall e1 e2 e3, R e1 e2 -> R e2 e3 -> R e1 e3.

Lemma respects_ret {A} (a : A) : respects R (ret a).
Proof. intros e. apply R_refl. Qed.

Lemma respects_throw {A} : respects R (@throw A).
Proof. intros e. apply R_refl. Qed.

Lemma respects_gets {A} (f : Engine -> A) : respects R (gets f).
Proof. intros e. apply R_refl. Qed.

Lemma respects_bind {A B} (m : M A) (k : A -> M B) :
  respects R m -> (forall a, respects R (k a)) -> respects R (bind m k).
Proof.
  intros Hm Hk e. unfold bind. specialize (Hm e).
  destruct (m e) as [[a|] e1]; simpl in *; [|assumption].
  apply (R_trans _ _ _ Hm). apply Hk.
Qed.

Lemma respects_attempt {A} (m : M A) : respects R m -> respects R (attempt m).
Proof.
  intros Hm e. unfold attempt. specialize (Hm e).
  destruct (m e) as [[a|] e1]; assumption.
Qed.

Lemma respects_modify (f : Engine -> Engine) :
  (forall e, R e (f e)) -> respects R (modify f).
Proof. intros Hf e. apply Hf. Qed.

#[local] Hint Resolve respects_ret respects_throw respects_gets : respects.

Ltac respects_step :=
  match goal with
  | |- respects _ (bind _ _) => apply respects_bind; [|intros]
  | |- respects _ (attempt _) => apply respects_attempt
  | |- respects _ (modify _) =>
      apply respects_modify; intros; solve [auto with respects]
  | |- respects _ (match ?x with _ => _ end) => destruct x
  | |- respects _ (let '(_, _) := ?x in _) => destruct x
  | |- respects _ _ => solve [auto with respects]
  end.

Ltac respects_auto := repeat respects_step.

(** Relations that allow any change of the two caches. *)
Hypothesis R_seedYieldCache : forall c e, R e (set_seedYieldCache c e).
Hypothesis R_bestSeedCache : forall c e, R e (set_bestSeedCache c e).

#[local] Hint Resolve R_seedYieldCache R_bestSeedCache : respects.

Lemma respects_ensureBestSeedCache `{Collaborators} lv lands :
  respects R (ensureBestSeedCache lv lands).
Proof. unfold ensureBestSeedCache. respects_auto. Qed.

Lemma respects_selectBestSeedFromAvailable `{Collaborators} available
  preferNoFert lv lands :
  respects R (selectBestSeedFromAvailable available preferNoFert lv lands).
Proof. unfold selectBestSeedFromAvailable. respects_auto. Qed.

(** Relations that, besides, allow one more call, a pause, a warning and
    a change of the gold. *)
Hypothesis R_call : forall c e, R e (set_calls (calls e ++ [c]) e).
Hypothesis R_slept : forall z e, R e (set_slept z e).
Hypothesis R_warnings : forall n e, R e (set_warnings n e).
Hypothesis R_gold : forall z e, R e (set_gold z e).

#[local] Hint Resolve R_call R_slept R_warnings R_gold : respects.

Lemma respects_sendMsgAsync srv c : respects R (sendMsgAsync srv c).
Proof. intros e. apply R_call. Qed.

Lemma respects_logWarn : respects R logWarn.
Proof. intros e. apply R_warnings. Qed.

Lemma respects_sleep ms : respects R (sleep ms).
Proof. intros e. apply R_slept. Qed.

#[local] Hint Resolve respects_sendMsgAsync respects_logWarn
  respects_sleep : respects.

Lemma respects_pace several : respects R (pace several).
Proof. unfold pace. respects_auto. Qed.

#[local] Hint Resolve respects_pace : respects.

Lemma respects_fertilizeLoop srv several fertilizerId landIds :
  forall successCount,
    respects R (fertilizeLoop srv several fertilizerId landIds successCount).
Proof.
  induction landIds as [|landId rest IH]; intros n; simpl; respects_auto.
Qed.

Lemma respects_plantLoop srv several seedId landIds :
  forall successCount,
    respects R (plantLoop srv several seedId landIds successCount).
Proof.
  induction landIds as [|landId rest IH]; intros n; simpl; respects_auto.
Qed.

#[local] Hint Resolve respects_fertilizeLoop respects_plantLoop : respects.

Lemma respects_spend (cost_items : list Item) (e : Engine) :
  R e (fold_left (fun e item => set_gold (gold e - item_count item) e)
         cost_items e).
Proof.
  revert e. induction cost_items as [|item rest IH]; intros e; simpl;
    [apply R_refl|].
  eapply R_trans; [|apply IH]. apply R_gold.
Qed.

#[local] Hint Resolve respects_spend respects_ensureBestSeedCache
  respects_selectBestSeedFromAvailable : respects.

Lemma respects_getFertilizerCount srv : respects R (getFertilizerCount srv).
Proof. unfold getFertilizerCount, getBag. respects_auto. Qed.

Lemma respects_findBestSeed `{Collaborators} srv preferNoFert lv lands :
  respects R (findBestSeed srv preferNoFert lv lands).
Proof. unfold findBestSeed, getShopInfo. respects_auto. Qed.

Lemma respects_plantAndFertilize srv actualSeedId landsToPlant :
  respects R (plantAndFertilize srv actualSeedId landsToPlant).
Proof. unfold plantAndFertilize, plantSeeds, fertilize. respects_auto. Qed.

Lemma respects_buyPlantFertilize srv bestSeed landsToPlant :
  respects R (buyPlantFertilize srv bestSeed landsToPlant).
Proof.
  unfold buyPlantFertilize, buySeeds, plantAndFertilize, plantSeeds,
    fertilize, buyGoods.
  respects_auto.
Qed.

#[local] Hint Resolve respects_getFertilizerCount respects_findBestSeed
  respects_buyPlantFertilize : respects.

Lemma respects_autoPlantEmptyLands `{Collaborators} srv deadLandIds
  emptyLandIds :
  respects R (autoPlantEmptyLands srv deadLandIds emptyLandIds).
Proof. unfold autoPlantEmptyLands, removePlant. respects_auto. Qed.

#[local] Hint Resolve respects_autoPlantEmptyLands : respects.

Lemma respects_actOn `{Collaborators} srv status :
  respects R (actOn srv status).
Proof.
  unfold actOn, batchOp, weedOut, insecticide, waterLand, harvest.
  respects_auto.
Qed.
End Respects.

Lemma sameControl_refl e : sameControl e e.
Proof. reflexivity. Qed.

Lemma sameControl_trans e1 e2 e3 :
  sameControl e1 e2 -> sameControl e2 e3 -> sameControl e1 e3.
Proof. unfold sameControl. congruence. Qed.

Lemma sameOutsideCaches_trans e1 e2 e3 :
  sameOutsideCaches e1 e2 -> sameOutsideCaches e2 e3 ->
  sameOutsideCaches e1 e3.
Proof. unfold sameOutsideCaches. congruence. Qed.

Lemma callsGrow_refl e : callsGrow e e.
Proof. exists []. now rewrite app_nil_r. Qed.

Lemma callsGrow_trans e1 e2 e3 :
  callsGrow e1 e2 -> callsGrow e2 e3 -> callsGrow e1 e3.
Proof.
  intros [cs1 H1] [cs2 H2]. exists (cs1 ++ cs2).
  now rewrite H2, H1, app_assoc.
Qed.

(** The executor never touches the variables of the controller. *)
Lemma autoPlantEmptyLands_control `{Collaborators} srv deadLandIds
  emptyLandIds :
  respects sameControl (autoPlantEmptyLands srv deadLandIds emptyLandIds).
Proof.
  apply respects_autoPlantEmptyLands;
    first [exact sameControl_refl | exact sameControl_trans
          | intros; reflexivity].
Qed.

Lemma actOn_control `{Collaborators} srv status :
  respects sameControl (actOn srv status).
Proof.
  apply respects_actOn;
    first [exact sameControl_refl | exact sameControl_trans
          | intros; reflexivity].
Qed.

Lemma autoPlantEmptyLands_grows `{Collaborators} srv deadLandIds
  emptyLandIds :
  respects callsGrow (autoPlantEmptyLands srv deadLandIds emptyLandIds).
Proof.
  apply respects_autoPlantEmptyLands;
    first [exact callsGrow_refl | exact callsGrow_trans
          | intros; exists []; simpl; now rewrite app_nil_r
          | intros; eexists; reflexivity].
Qed.

Lemma ensureBestSeedCache_outside `{Collaborators} lv lands :
  respects sameOutsideCaches (ensureBestSeedCache lv lands).
Proof.
  apply respects_ensureBestSeedCache;
    first [exact sameOutsideCaches_trans | intros; reflexivity].
Qed.

(** *** Computations that never throw *)

Lemma returns_ret {A} (a : A) : returns (ret a).
Proof. intros e. discriminate. Qed.

Lemma returns_gets {A} (f : Engine -> A) : returns (gets f).
Proof. intros e. discriminate. Qed.

Lemma returns_modify (f : Engine -> Engine) : returns (modify f).
Proof. intros e. discriminate. Qed.

Lemma returns_bind {A B} (m : M A) (k : A -> M B) :
  returns m -> (forall a, returns (k a)) -> returns (bind m k).
Proof.
  intros Hm Hk e. unfold bind. specialize (Hm e).
  destruct (m e) as [[a|] e1]; [apply Hk|now contradiction Hm].
Qed.

Lemma returns_attempt {A} (m : M A) : returns (attempt m).
Proof. intros e. unfold attempt. now destruct (m e) as [[a|] e1]. Qed.

Create HintDb returns.

#[local] Hint Resolve returns_ret returns_gets returns_modify
  returns_attempt : returns.

Ltac returns_step :=
  match goal with
  | |- returns (bind _ _) => apply returns_bind; [|intros]
  | |- returns (match ?x with _ => _ end) => destruct x
  | |- returns (let '(_, _) := ?x in _) => destruct x
  | |- returns _ => solve [auto with returns]
  end.

Ltac returns_auto := repeat returns_step.

Lemma returns_logWarn : returns logWarn.
Proof. apply returns_modify. Qed.

Lemma returns_pace several : returns (pace several).
Proof. unfold pace, sleep. returns_auto. Qed.

#[local] Hint Resolve returns_logWarn returns_pace : returns.

Lemma returns_fertilizeLoop srv several fertilizerId landIds :
  forall successCount,
    returns (fertilizeLoop srv several fertilizerId landIds successCount).
Proof.
  induction landIds as [|landId rest IH]; intros n; simpl; returns_auto.
Qed.

Lemma returns_plantLoop srv several seedId landIds :
  forall successCount,
    returns (plantLoop srv several seedId landIds successCount).
Proof.
  induction landIds as [|landId rest IH]; intros n; simpl; returns_auto.
Qed.

Lemma returns_getFertilizerCount srv : returns (getFertilizerCount srv).
Proof. unfold getFertilizerCount. returns_auto. Qed.

Lemma returns_ensureBestSeedCache `{Collaborators} lv lands :
  returns (ensureBestSeedCache lv lands).
Proof. unfold ensureBestSeedCache. returns_auto. Qed.

Lemma returns_selectBestSeedFromAvailable `{Collaborators} available
  preferNoFert lv lands :
  returns (selectBestSeedFromAvailable available preferNoFert lv lands).
Proof. unfold selectBestSeedFromAvailable. returns_auto. Qed.

#[local] Hint Resolve returns_fertilizeLoop returns_plantLoop
  returns_getFertilizerCount returns_ensureBestSeedCache
  returns_selectBestSeedFromAvailable : returns.

Lemma returns_buySeeds srv bestSeed landsToPlant :
  returns (buySeeds srv bestSeed landsToPlant).
Proof. unfold buySeeds. returns_auto. Qed.

Lemma returns_plantAndFertilize srv actualSeedId landsToPlant :
  returns (plantAndFertilize srv actualSeedId landsToPlant).
Proof. unfold plantAndFertilize, fertilize. returns_auto. Qed.

#[local] Hint Resolve returns_buySeeds returns_plantAndFertilize : returns.

Lemma returns_buyPlantFertilize srv bestSeed landsToPlant :
  returns (buyPlantFertilize srv bestSeed landsToPlant).
Proof. unfold buyPlantFertilize. returns_auto. Qed.

#[local] Hint Resolve returns_buyPlantFertilize : returns.

Lemma returns_autoPlantEmptyLands `{Collaborators} srv deadLandIds
  emptyLandIds :
  returns (autoPlantEmptyLands srv deadLandIds emptyLandIds).
Proof. unfold autoPlantEmptyLands. returns_auto. Qed.

Lemma returns_batchOp ids op : returns (batchOp ids op).
Proof. unfold batchOp. returns_auto. Qed.

#[local] Hint Resolve returns_autoPlantEmptyLands returns_batchOp : returns.

Lemma returns_actOn `{Collaborators} srv status : returns (actOn srv status).
Proof. unfold actOn. returns_auto. Qed.

Lemma returns_recordAnalysis `{Collaborators} status now :
  returns (recordAnalysis status now).
Proof. unfold recordAnalysis. returns_auto. Qed.

(** *** The parts of a cycle *)

(** The [try] block when a refresh is due: the fetch, then the two
    parts. *)
Lemma checkFarmTry_parts `{Collaborators} (srv : Server) (clk : CycleClock)
  (e : Engine) :
  shouldCheckFarmNow e (atDecision clk) = true ->
  checkFarmTry srv clk e
  = let e0 := set_calls (calls e ++ [AllLands]) e in
    match srv (length (calls e)) AllLands with
    | Some (AllLandsReply lands) =>
        if nonEmpty lands then
          let status := analyzeLands lands (atAnalysis clk) (atPhase clk) in
          match recordAnalysis status (atSnapshot clk) e0 with
          | (Some _, e1) => actOn srv status e1
          | (None, e1) => (None, e1)
          end
        else (Some tt, e0)
    | _ => (None, e0)
    end.
Proof.
  intros Hdue. unfold checkFarmTry.
  rewrite bind_run. unfold gets at 1. rewrite Hdue. cbn [negb].
  rewrite bind_run, getAllLands_run. cbv zeta.
  destruct (srv (length (calls e)) AllLands) as [[|lands| | |]|];
    try reflexivity.
  destruct (nonEmpty lands); cbn [negb]; [|reflexivity].
  unfold recordAnalysis, actOn.
  cbv beta iota delta [bind modify gets fst snd].
  match goal with
  | |- context [ensureBestSeedCache ?a ?b ?c] =>
      destruct (ensureBestSeedCache a b c) as [[[]|] e2]
  end; reflexivity.
Qed.

Lemma recordAnalysis_effect `{Collaborators} (status : LandStatus) (now : Z)
  (e : Engine) :
  exists e1,
    recordAnalysis status now e = (Some tt, e1)
    /\ lastFarmSnapshot e1 = Some (buildFarmSnapshot status now)
    /\ isFirstFarmCheck e1 = false
    /\ forceFarmCheck e1 = false
    /\ lastUnlockedCount e1
       = (if (unlockedCount status =? 0)%nat then lastUnlockedCount e
          else unlockedCount status)
    /\ (isCheckingFarm e1, lastPushTime e1, pendingChecks e1, gid e1, level e1)
       = (isCheckingFarm e, lastPushTime e, pendingChecks e, gid e, level e)
    /\ (gold e1, calls e1, slept e1, warnings e1)
       = (gold e, calls e, slept e, warnings e).
Proof.
  unfold recordAnalysis.
  cbv beta iota delta [bind modify gets fst snd].
  match goal with
  | |- context [ensureBestSeedCache ?a ?b ?c] =>
      pose proof (returns_ensureBestSeedCache a b c) as Hret;
      pose proof (ensureBestSeedCache_outside a b c) as Hout;
      destruct (ensureBestSeedCache a b c) as [[[]|] e2]
  end; [|now contradiction Hret].
  unfold sameOutsideCaches, outsideCaches, controlOf in Hout.
  simpl in Hout. inversion Hout as [Heq]. clear Hout Hret.
  eexists. split; [reflexivity|]. simpl.
  repeat split; congruence.
Qed.

Lemma batchOp_run (srv : Server) (mk : list Z -> Call) (ids : list Z)
  (e : Engine) :
  exists e1,
    batchOp ids (fun l => sendMsgAsync srv (mk l)) e = (Some tt, e1)
    /\ calls e1 = calls e ++ batchCall mk ids.
Proof.
  unfold batchOp, batchCall, bind, attempt, sendMsgAsync, logWarn, modify.
  destruct (nonEmpty ids).
  - destruct (srv (length (calls e)) (mk ids));
      eexists; split; reflexivity.
  - eexists. split; [reflexivity|]. now rewrite app_nil_r.
Qed.

Lemma actOn_calls `{Collaborators} (srv : Server) (status : LandStatus)
  (e : Engine) :
  exists tail,
    calls (snd (actOn srv status e)) = calls e ++ batchCalls status ++ tail
    /\ (dead status = [] -> empty status = [] -> harvestable status = [] ->
        tail = []).
Proof.
  unfold actOn, batchCalls, weedOut, insecticide, waterLand, harvest.
  rewrite bind_run.
  destruct (batchOp_run srv WeedOut (needWeed status) e) as (e1 & -> & C1).
  rewrite bind_run.
  destruct (batchOp_run srv Insecticide (needBug status) e1) as (e2 & -> & C2).
  rewrite bind_run.
  destruct (batchOp_run srv WaterLand (needWater status) e2) as (e3 & -> & C3).
  rewrite bind_run.
  assert (Hharvest :
    exists harvested e4,
      (if nonEmpty (harvestable status)
       then
         let* r := attempt (sendMsgAsync srv (Harvest (harvestable status))) in
         match r with
         | Some _ => ret (harvestable status)
         | None => let* _ := logWarn in ret []
         end
       else ret []) e3 = (Some harvested, e4)
      /\ calls e4 = calls e3 ++ batchCall Harvest (harvestable status)
      /\ (harvestable status = [] -> harvested = [])).
  { unfold batchCall, bind, attempt, sendMsgAsync, logWarn, modify, ret.
    destruct (nonEmpty (harvestable status)).
    - destruct (srv (length (calls e3)) (Harvest (harvestable status)));
        eexists; eexists; repeat split; auto.
    - eexists; eexists; repeat split. now rewrite app_nil_r. }
  destruct Hharvest as (harvested & e4 & -> & C4 & Hnone).
  cbv zeta.
  assert (Hchain : calls e4 = calls e
                   ++ batchCall WeedOut (needWeed status)
                   ++ batchCall Insecticide (needBug status)
                   ++ batchCall WaterLand (needWater status)
                   ++ batchCall Harvest (harvestable status)).
  { rewrite C4, C3, C2, C1. now rewrite <- !app_assoc. }
  destruct (nonEmpty (dead status ++ harvested) || nonEmpty (empty status))
    eqn:Hplant.
  - destruct (autoPlantEmptyLands_grows srv (dead status ++ harvested)
                (empty status) e4) as [cs Hcs].
    exists cs. split.
    + unfold bind, attempt, logWarn, modify.
      destruct (autoPlantEmptyLands srv (dead status ++ harvested)
                  (empty status) e4) as [[r|] e5]; simpl in *;
        rewrite Hcs, Hchain; now rewrite <- !app_assoc.
    + intros Hd He Hh. rewrite Hd, He, (Hnone Hh) in Hplant. discriminate.
  - exists []. split; [|reflexivity].
    simpl. rewrite Hchain. now rewrite <- !app_assoc, app_nil_r.
Qed.

Lemma checkFarm_enters `{Collaborators} (srv : Server) (clk : CycleClock)
  (e : Engine) :
  isCheckingFarm e = false ->
  gid e <> 0 ->
  checkFarm srv clk e = checkFarmLeave srv clk (set_isCheckingFarm true e).
Proof.
  intros Hflag Hgid. unfold checkFarm, checkFarmSkips, checkFarmEnter.
  rewrite Hflag. apply Z.eqb_neq in Hgid. now rewrite Hgid.
Qed.

(** X8. When a refresh is due and the plots cannot be fetched, the cycle
    issues the one [AllLands] call, logs one warning and changes nothing
    else; when the reply holds no plot, it issues the call and changes
    nothing else, so the first-check and forced flags stay as they were. *)
Theorem checkFarm_without_lands `{Collaborators} :
  forall (srv : Server) (clk : CycleClock) (e : Engine),
    isCheckingFarm e = false ->
    gid e <> 0 ->
    shouldCheckFarmNow e (atDecision clk) = true ->
    ((forall lands,
         srv (length (calls e)) AllLands <> Some (AllLandsReply lands)) ->
     checkFarm srv clk e
     = set_warnings (S (warnings e)) (set_calls (calls e ++ [AllLands]) e))
    /\ (srv (length (calls e)) AllLands = Some (AllLandsReply []) ->
        checkFarm srv clk e = set_calls (calls e ++ [AllLands]) e).
Proof.
  intros srv clk e Hflag Hgid Hdue.
  rewrite checkFarm_enters by assumption.
  unfold checkFarmLeave.
  rewrite checkFarmTry_parts by exact Hdue. cbv zeta.
  change (calls (set_isCheckingFarm true e)) with (calls e).
  split.
  - intros Hfail.
    destruct (srv (length (calls e)) AllLands) as [[|lands| | |]|];
      try (destruct e; simpl in *; subst; reflexivity).
    exfalso. now apply (Hfail lands).
  - intros ->. destruct e; simpl in *; subst; reflexivity.
Qed.

Lemma checkFarm_without_lands_witness :
  isCheckingFarm (initialEngine 1 5 100) = false
  /\ gid (initialEngine 1 5 100) <> 0
  /\ shouldCheckFarmNow (initialEngine 1 5 100)
       (atDecision (mkCycleClock 200 200 (fun _ => 200) 1100)) = true
  /\ (forall lands,
        offline (length (calls (initialEngine 1 5 100))) AllLands
        <> Some (AllLandsReply lands))
  /\ checkFarm offline (mkCycleClock 200 200 (fun _ => 200) 1100)
    (initialEngine 1 5 100)
     = set_warnings (S (warnings (initialEngine 1 5 100)))
         (set_calls (calls (initialEngine 1 5 100) ++ [AllLands])
            (initialEngine 1 5 100)).
Proof.
  assert (H1 : isCheckingFarm (initialEngine 1 5 100) = false)
    by reflexivity.
  assert (H2 : gid (initialEngine 1 5 100) <> 0) by discriminate.
  assert (H3 : shouldCheckFarmNow (initialEngine 1 5 100)
                 (atDecision (mkCycleClock 200 200 (fun _ => 200) 1100)) = true)
    by reflexivity.
  assert (H4 : forall lands,
             offline (length (calls (initialEngine 1 5 100))) AllLands
             <> Some (AllLandsReply lands)) by discriminate.
  split; [exact H1|]. split; [exact H2|]. split; [exact H3|].
  split; [exact H4|].
  exact (proj1 (checkFarm_without_lands offline
    (mkCycleClock 200 200 (fun _ => 200) 1100)
                  (initialEngine 1 5 100) H1 H2 H3) H4).
Defined.

Lemma shouldCheckFarmNow_fresh (e : Engine) (status : LandStatus)
  (now t : Z) :
  isFirstFarmCheck e = false ->
  forceFarmCheck e = false ->
  lastFarmSnapshot e = Some (buildFarmSnapshot status now) ->
  shouldCheckFarmNow e t
  = hasWork status
    || match minRemainingSec status with
       | Some m => m - Z.max 0 (t - serverTimeSec status) <=? 2
       | None => false
       end.
Proof.
  intros Hfirst Hforce Hsnap. unfold shouldCheckFarmNow, hasWork.
  rewrite Hfirst, Hforce, Hsnap.
  unfold buildFarmSnapshot, nonEmpty. simpl.
  destruct (0 <? length (empty status))%nat; [reflexivity|].
  destruct (0 <? length (dead status))%nat; [reflexivity|].
  destruct (0 <? length (harvestable status))%nat; [reflexivity|].
  destruct (0 <? length (needWater status))%nat; [reflexivity|].
  destruct (0 <? length (needWeed status))%nat; [reflexivity|].
  destruct (0 <? length (needBug status))%nat; [reflexivity|].
  simpl. destruct (minRemainingSec status) as [m|]; [|reflexivity].
  now destruct (m - Z.max 0 (t - serverTimeSec status) <=? 2).
Qed.

Lemma analyzeLands_serverTime `{Collaborators} (lands : list Land)
  (nowSec : Z) (phaseClock : nat -> Z) :
  serverTimeSec (analyzeLands lands nowSec phaseClock) = nowSec.
Proof.
  now destruct (analyzeLands_timed nowSec lands phaseClock)
    as (_ & _ & Ht & _).
Qed.

(** X9. A cycle that fetches at least one plot records the analysis of the
    reply as it was before the cycle acted on it: the snapshot is built from
    that analysis, the first-check and forced flags and the guard are clear,
    the plot count is updated unless the analysis counted none, and from
    then on a refresh is due exactly when that analysis found work or its
    least remaining time, less the time elapsed since, is at most two
    seconds. *)
Theorem checkFarm_records_analysis `{Collaborators} :
  forall (srv : Server) (clk : CycleClock) (e : Engine) (lands : list Land),
    isCheckingFarm e = false ->
    gid e <> 0 ->
    shouldCheckFarmNow e (atDecision clk) = true ->
    srv (length (calls e)) AllLands = Some (AllLandsReply lands) ->
    nonEmpty lands = true ->
    let status := analyzeLands lands (atAnalysis clk) (atPhase clk) in
    let e' := checkFarm srv clk e in
    lastFarmSnapshot e' = Some (buildFarmSnapshot status (atSnapshot clk))
    /\ isFirstFarmCheck e' = false
    /\ forceFarmCheck e' = false
    /\ isCheckingFarm e' = false
    /\ lastUnlockedCount e'
       = (if (unlockedCount status =? 0)%nat then lastUnlockedCount e
          else unlockedCount status)
    /\ forall t,
         shouldCheckFarmNow e' t
         = hasWork status
           || match minRemainingSec status with
              | Some m => m - Z.max 0 (t - atAnalysis clk) <=? 2
              | None => false
              end.
Proof.
  intros srv clk e lands Hflag Hgid Hdue Hreply Hlands status e'.
  assert (He' : exists e2,
             e' = set_isCheckingFarm false e2
             /\ lastFarmSnapshot e2
                = Some (buildFarmSnapshot status (atSnapshot clk))
             /\ isFirstFarmCheck e2 = false
             /\ forceFarmCheck e2 = false
             /\ lastUnlockedCount e2
                = (if (unlockedCount status =? 0)%nat then lastUnlockedCount e
                   else unlockedCount status)).
  { subst e'. rewrite checkFarm_enters by assumption.
    unfold checkFarmLeave.
    rewrite checkFarmTry_parts by exact Hdue. cbv zeta.
    change (calls (set_isCheckingFarm true e)) with (calls e).
    rewrite Hreply, Hlands. fold status.
    destruct (recordAnalysis_effect status (atSnapshot clk)
                (set_calls (calls e ++ [AllLands]) (set_isCheckingFarm true e)))
      as (e1 & -> & S1 & S2 & S3 & S4 & _).
    pose proof (actOn_control srv status e1) as Hc.
    pose proof (returns_actOn srv status e1) as Hr.
    destruct (actOn srv status e1) as [[[]|] e2]; [|now contradiction Hr].
    unfold sameControl, controlOf in Hc. simpl in Hc.
    inversion Hc as [Heq]. exists e2.
    split; [reflexivity|]. simpl in S4. repeat split; congruence. }
  destruct He' as (e2 & -> & S1 & S2 & S3 & S4).
  split; [exact S1|]. split; [exact S2|]. split; [exact S3|].
  split; [reflexivity|]. split; [exact S4|].
  intros t.
  rewrite (shouldCheckFarmNow_fresh (set_isCheckingFarm false e2) status
             (atSnapshot clk) t S2 S3 S1).
  subst status. now rewrite analyzeLands_serverTime.
Qed.

Lemma checkFarm_records_analysis_witness :
  isCheckingFarm (initialEngine 1 5 100) = false
  /\ gid (initialEngine 1 5 100) <> 0
  /\ nonEmpty quietLands = true
  /\ lastFarmSnapshot
       (checkFarm quietFarm (mkCycleClock 200 200 (fun _ => 200) 1100)
         (initialEngine 1 5 100))
     = Some (buildFarmSnapshot
       (analyzeLands quietLands 200 (fun _ => 200)) 1100).
Proof.
  assert (H1 : isCheckingFarm (initialEngine 1 5 100) = false)
    by reflexivity.
  assert (H2 : gid (initialEngine 1 5 100) <> 0) by discriminate.
  assert (H3 : nonEmpty quietLands = true) by reflexivity.
  split; [exact H1|]. split; [exact H2|]. split; [exact H3|].
  exact (proj1 (checkFarm_records_analysis quietFarm
                  (mkCycleClock 200 200 (fun _ => 200) 1100)
                    (initialEngine 1 5 100)
                  quietLands H1 H2 eq_refl eq_refl H3)).
Defined.



(** *** The best-seed cache *)


Lemma getBestSeedsForLevel_snd `{Collaborators} (lv lands : Z)
  (ids : option (list Z)) (c : SeedYieldCache) :
  snd (getBestSeedsForLevel lv lands ids c)
  = snd (buildSeedYieldRows (Z.max 1 lands) c).
Proof.
  unfold getBestSeedsForLevel.
  destruct (buildSeedYieldRows (Z.max 1 lands) c) as [rows c'].
  cbv beta iota zeta.
  repeat match goal with
         | |- context [pickBestSeed ?l ?key] =>
             destruct (pickBestSeed l key)
         end; reflexivity.
Qed.


(** With a valid yield cache the result is the one computed from the shop
    rows, and the cache stays valid. *)
Lemma getBestSeedsForLevel_fresh `{Collaborators} (lv lands : Z)
  (ids : option (list Z)) (c : SeedYieldCache) :
  cacheValid c ->
  fst (getBestSeedsForLevel lv lands ids c)
  = fst (getBestSeedsForLevel lv lands ids initialSeedYieldCache)
  /\ cacheValid (snd (getBestSeedsForLevel lv lands ids c)).
Proof.
  intros Hc. rewrite getBestSeedsForLevel_snd.
  destruct (buildSeedYieldRows_rows (Z.max 1 lands) c Hc) as [Hrows Hvalid].
  destruct (buildSeedYieldRows_rows (Z.max 1 lands) initialSeedYieldCache
              initialSeedYieldCache_valid) as [Hrows0 _].
  split; [|exact Hvalid].
  unfold getBestSeedsForLevel.
  destruct (buildSeedYieldRows (Z.max 1 lands) c) as [rows c'].
  destruct (buildSeedYieldRows (Z.max 1 lands) initialSeedYieldCache)
    as [rows0 c0].
  simpl in Hrows, Hrows0. rewrite Hrows, Hrows0. cbv beta iota zeta.
  repeat match goal with
         | |- context [pickBestSeed ?l ?key] =>
             destruct (pickBestSeed l key)
         end; reflexivity.
Qed.

(** [ensureBestSeedCache] past its first test. *)
Lemma ensureBestSeedCache_run `{Collaborators} (lv lands : Z) (e : Engine) :
  lv <> 0 -> lands <> 0 ->
  ensureBestSeedCache lv lands e
  = if (bsc_level (bestSeedCache e) =? lv)
       && (bsc_lands (bestSeedCache e) =? lands)
       && notNull (bsc_bestNoFert (bestSeedCache e))
       && notNull (bsc_bestNormalFert (bestSeedCache e))
    then (Some tt, e)
    else
      let out := getBestSeedsForLevel lv lands None (seedYieldCache e) in
      match fst out with
      | None => (Some tt, set_seedYieldCache (snd out) e)
      | Some b =>
          (Some tt,
           set_bestSeedCache
             (mkBestSeedCache lv lands (Some (bestNoFert b))
                (Some (bestNormalFert b)))
             (set_seedYieldCache (snd out) e))
      end.
Proof.
  intros Hlv Hlands. unfold ensureBestSeedCache.
  apply Z.eqb_neq in Hlv, Hlands. rewrite Hlv, Hlands. cbn [orb].
  unfold bind, gets, modify.
  destruct (_ && _ && _ && _); [reflexivity|].
  cbv zeta.
  destruct (getBestSeedsForLevel lv lands None (seedYieldCache e))
    as [[b|] yc]; reflexivity.
Qed.




(** X13. [ensureBestSeedCache] keeps the best-seed cache coherent: when
    the yield cache is valid and the cached entries are what the yield table
    of the shop rows gives for the cached level and plot count, the same
    holds after the call; it holds in the initial engine. *)
Theorem ensureBestSeedCache_coherent `{Collaborators} :
  forall (lv lands : Z) (e : Engine),
    bestSeedCacheCoherent e ->
    bestSeedCacheCoherent (snd (ensureBestSeedCache lv lands e)).
Proof.
  intros lv lands e [Hvalid Hbest].
  destruct (Z.eq_dec lv 0) as [->|Hlv]; [now split|].
  destruct (Z.eq_dec lands 0) as [->|Hlands].
  { unfold ensureBestSeedCache. rewrite orb_true_r. now split. }
  rewrite ensureBestSeedCache_run by assumption.
  destruct (_ && _ && _ && _); [now split|].
  cbv zeta.
  destruct (getBestSeedsForLevel_fresh lv lands None (seedYieldCache e) Hvalid)
    as [Hfresh Hvalid'].
  destruct (getBestSeedsForLevel lv lands None (seedYieldCache e))
    as [[b|] yc]; simpl in *.
  - split; [exact Hvalid'|]. simpl.
    intros n f [= <-] [= <-]. rewrite <- Hfresh. now destruct b.
  - split; [exact Hvalid'|]. exact Hbest.
Qed.

Lemma ensureBestSeedCache_coherent_witness :
  bestSeedCacheCoherent (initialEngine 1 5 100)
  /\ bestSeedCacheCoherent
       (snd (ensureBestSeedCache 5 3 (initialEngine 1 5 100))).
Proof.
  assert (H0 : bestSeedCacheCoherent (initialEngine 1 5 100)).
  { split; [left; reflexivity|]. intros n f Hn. discriminate Hn. }
  split; [exact H0|].
  exact (ensureBestSeedCache_coherent 5 3 (initialEngine 1 5 100) H0).
Defined.

(** ** More on the Action Executor *)

Lemma pace_slept several e :
  slept (snd (pace several e)) = slept e + (if several then 50 else 0)
  /\ gold (snd (pace several e)) = gold e.
Proof. destruct several; simpl; split; lia. Qed.

(** The loop of [fertilize] in full: [k] successes, followed by one failed
    call unless the list is exhausted. *)
Lemma fertilizeLoop_shape srv several fertilizerId landIds :
  forall successCount e,
    let out := fertilizeLoop srv several fertilizerId landIds successCount e in
    exists k : nat,
      (k <= length landIds)%nat
      /\ fst out = Some (successCount + k)%nat
      /\ calls (snd out)
         = calls e
           ++ map (fun id => Fertilize id fertilizerId)
                (firstn (S k) landIds)
      /\ slept (snd out)
         = slept e + (if several then 50 * Z.of_nat k else 0)
      /\ (forall i, (i < k)%nat ->
            srv (length (calls e) + i)%nat
              (Fertilize (nth i landIds 0) fertilizerId) <> None)
      /\ ((k < length landIds)%nat ->
          srv (length (calls e) + k)%nat
            (Fertilize (nth k landIds 0) fertilizerId) = None).
Proof.
  induction landIds as [|landId rest IH]; intros n e out; subst out.
  - exists 0%nat. simpl. rewrite app_nil_r, Nat.add_0_r.
    repeat split; try lia. destruct several; lia.
  - rewrite fertilizeLoop_cons. cbv zeta.
    set (e0 := set_calls (calls e ++ [Fertilize landId fertilizerId]) e).
    destruct (srv (length (calls e)) (Fertilize landId fertilizerId))
      as [reply|] eqn:Hsrv.
    + destruct (IH (S n) (snd (pace several e0)))
        as (k & Hk & F & C & Hs & Hok & Hfail).
      destruct (pace_effect several e0) as (_ & Pc & _).
      destruct (pace_slept several e0) as (Ps & _).
      assert (Hlen : length (calls (snd (pace several e0)))
                     = S (length (calls e))).
      { rewrite Pc. subst e0. simpl. rewrite length_app. simpl. lia. }
      exists (S k). simpl length.
      split; [lia|].
      split; [rewrite F; f_equal; lia|].
      split.
      { rewrite C, Pc. subst e0. simpl. now rewrite <- app_assoc. }
      split.
      { rewrite Hs, Ps. subst e0. simpl. destruct several; lia. }
      split.
      * intros [|i] Hi; simpl.
        -- rewrite Nat.add_0_r, Hsrv. discriminate.
        -- rewrite Hlen in Hok.
           replace (length (calls e) + S i)%nat
             with (S (length (calls e)) + i)%nat by lia.
           apply Hok. lia.
      * intros Hlt. simpl. rewrite Hlen in Hfail.
        replace (length (calls e) + S k)%nat
          with (S (length (calls e)) + k)%nat by lia.
        apply Hfail. lia.
    + exists 0%nat. simpl.
      split; [lia|].
      split; [f_equal; lia|]. split; [reflexivity|].
      split; [destruct several; lia|].
      split; [intros i Hi; lia|].
      intros _. now rewrite Nat.add_0_r.
Qed.

Lemma plantLoop_slept srv several seedId landIds :
  forall successCount e,
    slept (snd (plantLoop srv several seedId landIds successCount e))
    = slept e + (if several then 50 * Z.of_nat (length landIds) else 0).
Proof.
  induction landIds as [|landId rest IH]; intros n e.
  - simpl. destruct several; lia.
  - rewrite plantLoop_cons. cbv zeta.
    destruct (srv (length (calls e)) (PlantSeed seedId landId));
      rewrite IH; simpl length; destruct several; simpl; lia.
Qed.

(** X14. Pacing of the per-plot loops: with two plots or more,
    [plantSeeds] pauses 50 ms after every plot and [fertilize] after every
    successful call; with a single plot neither pauses.  [fertilize] never
    throws, returns the number [k] of its successful calls, which are its
    first [k] calls, and issues one more call, which fails, unless all
    succeeded. *)
Theorem per_plot_pacing :
  forall (srv : Server) (landIds : list Z) (fertilizerId seedId : Z)
         (e : Engine),
    let several := (1 <? length landIds)%nat in
    slept (snd (plantSeeds srv seedId landIds e))
    = slept e + (if several then 50 * Z.of_nat (length landIds) else 0)
    /\ exists k : nat,
         fst (fertilize srv landIds fertilizerId e) = Some k
         /\ (k <= length landIds)%nat
         /\ slept (snd (fertilize srv landIds fertilizerId e))
            = slept e + (if several then 50 * Z.of_nat k else 0)
         /\ calls (snd (fertilize srv landIds fertilizerId e))
            = calls e
              ++ map (fun id => Fertilize id fertilizerId)
                   (firstn (S k) landIds)
         /\ (forall i, (i < k)%nat ->
               srv (length (calls e) + i)%nat
                 (Fertilize (nth i landIds 0) fertilizerId) <> None)
         /\ ((k < length landIds)%nat ->
             srv (length (calls e) + k)%nat
               (Fertilize (nth k landIds 0) fertilizerId) = None).
Proof.
  intros srv landIds fertilizerId seedId e several.
  split; [apply plantLoop_slept|].
  unfold fertilize. fold several.
  destruct (fertilizeLoop_shape srv several fertilizerId landIds 0%nat e)
    as (k & Hk & F & C & Hs & Hok & Hfail).
  exists k. repeat split; assumption.
Qed.

Lemma countOk_le srv (mk : Z -> Call) (ids : list Z) :
  forall first, (countOk srv first mk ids <= length ids)%nat.
Proof.
  induction ids as [|id ids IH]; intros first; simpl; [lia|].
  specialize (IH (S first)). destruct (srv first (mk id)); lia.
Qed.

(** [plantAndFertilize] past the planting loop. *)
Lemma plantAndFertilize_run srv actualSeedId landsToPlant e :
  let ok := countOk srv (length (calls e)) (PlantSeed actualSeedId)
              landsToPlant in
  let e1 := snd (plantSeeds srv actualSeedId landsToPlant e) in
  calls e1 = calls e ++ map (PlantSeed actualSeedId) landsToPlant
  /\ plantAndFertilize srv actualSeedId landsToPlant e
     = if nonEmpty (firstn ok landsToPlant)
       then
         (let* _ := fertilize srv (firstn ok landsToPlant)
                      NORMAL_FERTILIZER_ID in
          ret tt) e1
       else (Some tt, e1).
Proof.
  intros ok e1. subst e1. unfold plantAndFertilize, plantSeeds.
  destruct (plantLoop_counts srv (1 <? length landsToPlant)%nat actualSeedId
              landsToPlant 0%nat e) as (P1 & P2 & _).
  split; [exact P2|].
  unfold bind at 1. unfold attempt.
  destruct (plantLoop srv (1 <? length landsToPlant)%nat actualSeedId
              landsToPlant 0 e) as [r e1].
  simpl in P1. subst r. unfold bind at 1. rewrite planted_prefix.
  unfold ret at 1. cbv iota beta. simpl snd. fold ok.
  now destruct (nonEmpty (firstn ok landsToPlant)).
Qed.

(** X15. [plantAndFertilize] (steps 4 and 5 of the replant pipeline) never
    throws; it issues one planting call per plot, then fertilizes a prefix
    of the plot list that is no longer than the number [ok] of successful
    plantings, and not empty when [ok] is positive: the fertilizer goes to
    the first plots of the list, whichever plots the successful plantings
    were. *)
Theorem plantAndFertilize_targets :
  forall (srv : Server) (actualSeedId : Z) (landsToPlant : list Z)
         (e : Engine),
    let ok := countOk srv (length (calls e)) (PlantSeed actualSeedId)
                landsToPlant in
    let out := plantAndFertilize srv actualSeedId landsToPlant e in
    fst out = Some tt
    /\ exists j : nat,
         (j <= ok <= length landsToPlant)%nat
         /\ ((0 < ok)%nat -> (1 <= j)%nat)
         /\ calls (snd out)
            = calls e
              ++ map (PlantSeed actualSeedId) landsToPlant
              ++ map (fun id => Fertilize id NORMAL_FERTILIZER_ID)
                   (firstn j landsToPlant).
Proof.
  intros srv actualSeedId landsToPlant e ok out. subst out.
  destruct (plantAndFertilize_run srv actualSeedId landsToPlant e)
    as [P2 ->]. fold ok.
  pose proof (countOk_le srv (PlantSeed actualSeedId) landsToPlant
                (length (calls e))) as Hle. fold ok in Hle.
  set (e1 := snd (plantSeeds srv actualSeedId landsToPlant e)) in *.
  destruct (nonEmpty (firstn ok landsToPlant)) eqn:Hne.
  - unfold bind, fertilize.
    destruct (fertilizeLoop_shape srv
                (1 <? length (firstn ok landsToPlant))%nat
                NORMAL_FERTILIZER_ID (firstn ok landsToPlant) 0%nat e1)
      as (k & Hk & F & C & _).
    destruct (fertilizeLoop srv (1 <? length (firstn ok landsToPlant))%nat
                NORMAL_FERTILIZER_ID (firstn ok landsToPlant) 0 e1)
      as [[n|] e2]; [|discriminate F].
    split; [reflexivity|].
    rewrite length_firstn in Hk.
    exists (Nat.min (S k) ok). split; [lia|]. split; [lia|].
    simpl in C |- *. rewrite C, P2, firstn_firstn, <- app_assoc.
    reflexivity.
  - split; [reflexivity|]. exists 0%nat.
    assert (Hzero : ok = 0%nat).
    { unfold nonEmpty in Hne. apply Nat.ltb_ge in Hne.
      rewrite length_firstn in Hne. lia. }
    split; [lia|]. split; [lia|].
    simpl. now rewrite P2, app_nil_r.
Qed.

Lemma spend_gold (cost_items : list Item) (e : Engine) :
  gold (fold_left (fun e item => set_gold (gold e - item_count item) e)
          cost_items e) = gold e - sumCounts cost_items.
Proof.
  revert e. induction cost_items as [|item rest IH]; intros e; simpl;
    [lia|]. rewrite IH. simpl. lia.
Qed.

(** The purchase step in full. *)
Lemma buySeeds_shape srv bestSeed landsToPlant e :
  let price := av_price bestSeed in
  let needed := Z.of_nat (length landsToPlant) in
  let out := buySeeds srv bestSeed landsToPlant e in
  (gold e < price * needed /\ gold e / price <= 0
   /\ out = (Some None, set_warnings (S (warnings e)) e))
  \/ exists n : nat,
       (n <= length landsToPlant)%nat
       /\ (price * needed <= gold e -> n = length landsToPlant)
       /\ (gold e < price * needed -> Z.of_nat n <= gold e / price)
       /\ (gold e < price * needed ->
           0 < gold e / price
           /\ n = Nat.min (Z.to_nat (gold e / price)) (length landsToPlant))
       /\ calls (snd out)
          = calls e ++ [BuyGoods (av_goodsId bestSeed) (Z.of_nat n) price]
       /\ match srv (length (calls e))
                  (BuyGoods (av_goodsId bestSeed) (Z.of_nat n) price) with
          | Some (BuyGoodsReply get_items cost_items) =>
              fst out = Some (Some (firstn n landsToPlant,
                                    seedReceived bestSeed get_items))
              /\ gold (snd out) = gold e - sumCounts cost_items
          | _ => fst out = Some None /\ gold (snd out) = gold e
          end.
Proof.
  intros price needed out. subst out price needed.
  unfold buySeeds, bind, gets, logWarn, modify.
  destruct (Z.ltb_spec (gold e)
              (av_price bestSeed * Z.of_nat (length landsToPlant)))
    as [Hcost|Hcost]; simpl.
  - destruct (Z.leb_spec (gold e / av_price bestSeed) 0) as [Hnone|Hsome];
      simpl.
    + left. auto.
    + right.
      set (affordable :=
             firstn (Z.to_nat (gold e / av_price bestSeed)) landsToPlant).
      exists (length affordable).
      assert (Hlen : (length affordable <= length landsToPlant)%nat
                     /\ Z.of_nat (length affordable)
                        <= gold e / av_price bestSeed).
      { subst affordable. rewrite length_firstn. lia. }
      assert (Hpre : firstn (length affordable) landsToPlant = affordable).
      { subst affordable. rewrite length_firstn.
        destruct (Nat.le_ge_cases (Z.to_nat (gold e / av_price bestSeed))
                    (length landsToPlant)) as [Hc|Hc].
        - now rewrite Nat.min_l by exact Hc.
        - rewrite Nat.min_r by exact Hc.
          rewrite firstn_all. symmetry. now apply firstn_all2. }
      split; [lia|]. split; [lia|]. split; [lia|].
      split.
      { intros _. split; [lia|]. subst affordable. apply length_firstn. }
      unfold attempt, buyGoods, bind, sendMsgAsync. simpl.
      destruct (srv (length (calls e))
                  (BuyGoods (av_goodsId bestSeed)
                     (Z.of_nat (length affordable)) (av_price bestSeed)))
        as [[| | | |get_items cost_items]|]; simpl;
        try (split; [reflexivity|split; reflexivity]).
      rewrite spend_calls, spend_gold, Hpre. simpl.
      split; [reflexivity|]. split; reflexivity.
  - right. exists (length landsToPlant).
    split; [lia|]. split; [reflexivity|]. split; [lia|]. split; [lia|].
    unfold attempt, buyGoods, bind, sendMsgAsync. simpl.
    destruct (srv (length (calls e))
                (BuyGoods (av_goodsId bestSeed)
                   (Z.of_nat (length landsToPlant)) (av_price bestSeed)))
      as [[| | | |get_items cost_items]|]; simpl;
      try (split; [reflexivity|split; reflexivity]).
    rewrite spend_calls, spend_gold, firstn_all. simpl.
    split; [reflexivity|]. split; reflexivity.
Qed.

Lemma plantAndFertilize_gold srv actualSeedId landsToPlant :
  respects sameGold (plantAndFertilize srv actualSeedId landsToPlant).
Proof.
  apply respects_plantAndFertilize;
    first [ intros ?; reflexivity
          | unfold sameGold; congruence
          | intros; reflexivity ].
Qed.

(** X16. Gold accounting of the replant pipeline, steps 3 to 5.  When the
    gold does not cover the seeds for all plots and not even one seed
    ([floor (gold / price) <= 0]), nothing is bought: no call is made and
    the gold is unchanged.  In every other case the purchase is made, as the
    next call, for all plots when the gold covers them and for the first
    [floor (gold / price)] plots (all of them, if there are fewer) when it
    does not; the gold then changes only through the purchase reply, by the
    sum of the costs the service reports in it: it is unchanged when the
    purchase call fails, and planting and fertilizing never change it. *)
Theorem buyPlantFertilize_gold :
  forall (srv : Server) (bestSeed : Available) (landsToPlant : list Z)
         (e : Engine),
    let price := av_price bestSeed in
    let needed := Z.of_nat (length landsToPlant) in
    let e' := snd (buyPlantFertilize srv bestSeed landsToPlant e) in
    (gold e < price * needed /\ gold e / price <= 0
     /\ calls e' = calls e /\ gold e' = gold e)
    \/ ((price * needed <= gold e \/ 0 < gold e / price)
        /\ exists n : nat,
             (n <= length landsToPlant)%nat
             /\ (price * needed <= gold e -> n = length landsToPlant)
             /\ (gold e < price * needed ->
                 Z.of_nat n <= gold e / price
                 /\ n = Nat.min (Z.to_nat (gold e / price))
                          (length landsToPlant))
             /\ nth_error (calls e') (length (calls e))
                = Some (BuyGoods (av_goodsId bestSeed) (Z.of_nat n) price)
             /\ gold e'
                = match srv (length (calls e))
                          (BuyGoods (av_goodsId bestSeed) (Z.of_nat n)
                             price) with
                  | Some (BuyGoodsReply _ cost_items) =>
                      gold e - sumCounts cost_items
                  | _ => gold e
                  end).
Proof.
  intros srv bestSeed landsToPlant e price needed e'. subst e'.
  destruct (buySeeds_shape srv bestSeed landsToPlant e)
    as [(Hshort & Hnone & Hout)
       |(n & Hn & Hall & Hclamp & Hsome & Hcalls & Hreply)].
  - left. fold price needed in Hshort, Hnone.
    split; [exact Hshort|]. split; [exact Hnone|].
    unfold buyPlantFertilize. rewrite bind_run, Hout. split; reflexivity.
  - right. fold price needed in Hall, Hclamp, Hsome.
    split.
    { destruct (Z.le_gt_cases (price * needed) (gold e)) as [Hc|Hc];
        [now left|right; now apply Hsome]. }
    exists n.
    split; [exact Hn|]. split; [exact Hall|].
    split; [intros Hc; split; [now apply Hclamp|now apply Hsome]|].
    fold price in Hcalls, Hreply.
    unfold buyPlantFertilize. rewrite bind_run.
    destruct (buySeeds srv bestSeed landsToPlant e) as [r e1].
    simpl in Hcalls, Hreply.
    assert (Hnth : forall cs,
               nth_error ((calls e
                           ++ [BuyGoods (av_goodsId bestSeed) (Z.of_nat n)
                                 price]) ++ cs) (length (calls e))
               = Some (BuyGoods (av_goodsId bestSeed) (Z.of_nat n) price)).
    { intros cs. rewrite <- app_assoc.
      rewrite nth_error_app2 by lia. now rewrite Nat.sub_diag. }
    destruct (srv (length (calls e))
                (BuyGoods (av_goodsId bestSeed) (Z.of_nat n) price))
      as [[| | | |get_items cost_items]|];
      destruct Hreply as [-> Hgold];
      try (simpl; rewrite Hcalls, Hgold;
           split; [rewrite <- (app_nil_r (_ ++ [_])); apply Hnth|reflexivity]).
    destruct (plantAndFertilize_calls srv (seedReceived bestSeed get_items)
                (firstn n landsToPlant) e1) as [j Hj].
    pose proof (plantAndFertilize_gold srv (seedReceived bestSeed get_items)
                  (firstn n landsToPlant) e1) as Hg.
    unfold sameGold in Hg. rewrite Hg, Hgold, Hj, Hcalls.
    split; [apply Hnth|reflexivity].
Qed.

(** With 25 gold and seeds at 10 each, two of three plots are bought for;
    with 5 gold nothing is bought. *)
Example purchase_by_gold_sample :
  let srv : Server := fun _ c =>
    match c with
    | BuyGoods _ num price =>
        Some (BuyGoodsReply [mkItem 20002 num] [mkItem 1001 (num * price)])
    | _ => Some PlainReply
    end in
  let after g :=
    snd (buyPlantFertilize srv (mkAvailable 5002 20002 10 1) [7; 8; 9]
           (initialEngine 1 5 g)) in
  nth_error (calls (after 25)) 0 = Some (BuyGoods 5002 2 10)
  /\ gold (after 25) = 5
  /\ nth_error (calls (after 30)) 0 = Some (BuyGoods 5002 3 10)
  /\ gold (after 30) = 0
  /\ calls (after 5) = [] /\ gold (after 5) = 5.
Proof. vm_compute. repeat split. Qed.

Lemma buyPlantFertilize_shape srv bestSeed landsToPlant e :
  exists purchase,
    calls (snd (buyPlantFertilize srv bestSeed landsToPlant e))
    = calls e ++ purchase
    /\ purchaseShape bestSeed landsToPlant purchase.
Proof.
  unfold buyPlantFertilize. rewrite bind_run.
  destruct (buySeeds_shape srv bestSeed landsToPlant e)
    as [(_ & _ & ->)|(n & Hn & _ & _ & _ & Hcalls & Hreply)].
  - exists []. split; [simpl; now rewrite app_nil_r|now left].
  - destruct (buySeeds srv bestSeed landsToPlant e) as [r e1].
    simpl in Hcalls, Hreply.
    destruct (srv (length (calls e))
                (BuyGoods (av_goodsId bestSeed) (Z.of_nat n)
                   (av_price bestSeed)))
      as [[| | | |get_items cost_items]|];
      destruct Hreply as [-> _];
      try (eexists; split; [simpl; exact Hcalls|];
           right; exists n, 0, 0%nat; split; [exact Hn|now left]).
    destruct (plantAndFertilize_calls srv (seedReceived bestSeed get_items)
                (firstn n landsToPlant) e1) as [j Hj].
    eexists. split.
    + rewrite Hj, Hcalls, <- app_assoc. reflexivity.
    + right. exists n, (seedReceived bestSeed get_items), j.
      split; [exact Hn|]. right. reflexivity.
Qed.

Lemma getFertilizerCount_run srv e :
  exists r e1,
    getFertilizerCount srv e = (Some r, e1)
    /\ calls e1 = calls e ++ [GetBag]
    /\ lastUnlockedCount e1 = lastUnlockedCount e
    /\ level e1 = level e.
Proof.
  unfold getFertilizerCount, getBag, bind, attempt, sendMsgAsync, logWarn,
    modify, ret.
  destruct (srv (length (calls e)) GetBag) as [[]|];
    eexists; eexists; repeat split.
Qed.

(** [findBestSeed] run on an engine. *)
Lemma findBestSeed_run `{Collaborators} srv preferNoFert lv lands e :
  findBestSeed srv preferNoFert lv lands e
  = let e0 := set_calls (calls e ++ [ShopInfo 2]) e in
    match srv (length (calls e)) (ShopInfo 2) with
    | Some (ShopInfoReply goods_list) =>
        if nonEmpty goods_list
           && nonEmpty (availableGoods (level e) goods_list)
        then selectBestSeedFromAvailable
               (availableGoods (level e) goods_list) preferNoFert lv lands e0
        else (Some None, set_warnings (S (warnings e0)) e0)
    | _ => (None, e0)
    end.
Proof.
  unfold findBestSeed, getShopInfo. cbv zeta.
  rewrite bind_run. unfold bind at 1, sendMsgAsync.
  destruct (srv (length (calls e)) (ShopInfo 2))
    as [[| | |goods_list|]|]; try reflexivity.
  unfold ret at 1. cbv iota beta.
  destruct goods_list as [|goods rest]; [reflexivity|].
  rewrite bind_run. unfold gets at 1. cbv iota beta.
  change (level (set_calls (calls e ++ [ShopInfo 2]) e)) with (level e).
  change (nonEmpty (goods :: rest)) with true. cbn [andb].
  destruct (availableGoods (level e) (goods :: rest)); reflexivity.
Qed.

Lemma selectBestSeedFromAvailable_outside `{Collaborators} available
  preferNoFert lv lands :
  respects sameOutsideCaches
    (selectBestSeedFromAvailable available preferNoFert lv lands).
Proof.
  apply respects_selectBestSeedFromAvailable;
    first [exact sameOutsideCaches_trans | intros; reflexivity].
Qed.

Lemma findBestSeed_calls `{Collaborators} srv preferNoFert lv lands e :
  calls (snd (findBestSeed srv preferNoFert lv lands e))
  = calls e ++ [ShopInfo 2].
Proof.
  rewrite findBestSeed_run. cbv zeta.
  destruct (srv (length (calls e)) (ShopInfo 2))
    as [[| | |goods_list|]|]; try reflexivity.
  destruct (_ && _); [|reflexivity].
  pose proof (selectBestSeedFromAvailable_outside
                (availableGoods (level e) goods_list) preferNoFert lv lands
                (set_calls (calls e ++ [ShopInfo 2]) e)) as Hout.
  apply (f_equal (fun t => snd (fst (fst t)))) in Hout. exact Hout.
Qed.

(** X17. [autoPlantEmptyLands] never throws and never touches a variable
    of the controller (the guard, the first-check and forced flags, the
    snapshot, the plot count, the debounce time, the level and the game id);
    with no dead and no empty plot it does nothing at all. *)
Theorem autoPlantEmptyLands_safe `{Collaborators} :
  forall (srv : Server) (deadLandIds emptyLandIds : list Z) (e : Engine),
    let out := autoPlantEmptyLands srv deadLandIds emptyLandIds e in
    fst out = Some tt
    /\ controlOf (snd out) = controlOf e
    /\ (deadLandIds = [] -> emptyLandIds = [] -> snd out = e).
Proof.
  intros srv deadLandIds emptyLandIds e out. subst out.
  split; [|split].
  - pose proof (returns_autoPlantEmptyLands srv deadLandIds emptyLandIds e)
      as Hr.
    destruct (fst (autoPlantEmptyLands srv deadLandIds emptyLandIds e))
      as [[]|]; [reflexivity|contradiction].
  - apply autoPlantEmptyLands_control.
  - intros -> ->. reflexivity.
Qed.

(** X18. The calls of [autoPlantEmptyLands], in order: one [RemovePlant]
    for all dead plots if there are any; then, if there is a plot to plant
    (the empty plots followed by the dead ones), one [GetBag] and one
    [ShopInfo] of shop 2; then at most one purchase, for at most as many
    seeds as plots; then, only after a purchase, planting calls for exactly
    the plots the purchase covers, which are the first plots of the list,
    and fertilizer calls for a prefix of these. *)
Theorem autoPlantEmptyLands_call_shape `{Collaborators} :
  forall (srv : Server) (deadLandIds emptyLandIds : list Z) (e : Engine),
    let landsToPlant :=
      if nonEmpty deadLandIds then emptyLandIds ++ deadLandIds
      else emptyLandIds in
    exists rest,
      calls (snd (autoPlantEmptyLands srv deadLandIds emptyLandIds e))
      = calls e ++ batchCall RemovePlant deadLandIds ++ rest
      /\ (landsToPlant = [] -> rest = [])
      /\ (landsToPlant <> [] ->
          exists purchase,
            rest = GetBag :: ShopInfo 2 :: purchase
            /\ (purchase = []
                \/ exists bestSeed,
                     purchaseShape bestSeed landsToPlant purchase)).
Proof.
  intros srv deadLandIds emptyLandIds e landsToPlant.
  unfold autoPlantEmptyLands, removePlant. rewrite bind_run.
  assert (Hremove :
    exists e0,
      (if nonEmpty deadLandIds
       then
         let* r := attempt (sendMsgAsync srv (RemovePlant deadLandIds)) in
         let* _ := match r with
                   | Some _ => ret tt
                   | None => logWarn
                   end in
         ret (emptyLandIds ++ deadLandIds)
       else ret emptyLandIds) e = (Some landsToPlant, e0)
      /\ calls e0 = calls e ++ batchCall RemovePlant deadLandIds).
  { subst landsToPlant.
    unfold batchCall, bind, attempt, sendMsgAsync, logWarn, modify, ret.
    destruct (nonEmpty deadLandIds).
    - destruct (srv (length (calls e)) (RemovePlant deadLandIds));
        eexists; split; reflexivity.
    - eexists. split; [reflexivity|]. now rewrite app_nil_r. }
  destruct Hremove as (e0 & -> & C0). cbv beta iota.
  destruct (nonEmpty landsToPlant) eqn:Hne; cbn [negb].
  2:{ exists []. simpl. rewrite C0, app_nil_r.
      split; [reflexivity|]. split; [reflexivity|].
      intros Hsome. apply nonEmpty_true in Hsome. congruence. }
  apply nonEmpty_true in Hne.
  rewrite bind_run.
  assert (Hchoose :
    exists chosen e3,
      attempt
        (let* fertilizerCount := getFertilizerCount srv in
         let preferNoFert :=
           match fertilizerCount with
           | Some n => n <? 10
           | None => false
           end in
         let* unlockedCount := gets lastUnlockedCount in
         let landsForCalc :=
           if (unlockedCount =? 0)%nat then Z.of_nat (length landsToPlant)
           else Z.of_nat unlockedCount in
         let* stateLevel := gets level in
         let* _ := ensureBestSeedCache stateLevel landsForCalc in
         findBestSeed srv preferNoFert stateLevel landsForCalc) e0
      = (Some chosen, e3)
      /\ calls e3 = calls e0 ++ [GetBag; ShopInfo 2]).
  { unfold attempt. rewrite bind_run.
    destruct (getFertilizerCount_run srv e0) as (r & e1 & -> & C1 & _).
    cbv zeta. rewrite bind_run. unfold gets at 1. cbv iota beta.
    rewrite bind_run. unfold gets at 1. cbv iota beta.
    rewrite bind_run.
    match goal with
    | |- context [ensureBestSeedCache ?a ?b ?c] =>
        pose proof (returns_ensureBestSeedCache a b c) as Hret;
        pose proof (ensureBestSeedCache_outside a b c) as Hout;
        destruct (ensureBestSeedCache a b c) as [[[]|] e2]
    end; [|now contradiction Hret].
    assert (Hcalls : calls e2 = calls e1)
      by exact (f_equal (fun t => snd (fst (fst t))) Hout).
    match goal with
    | |- context [findBestSeed ?s ?p ?l ?n ?x] =>
        pose proof (findBestSeed_calls s p l n x) as Hf;
        destruct (findBestSeed s p l n x) as [[chosen|] e3]
    end; simpl in Hf; eexists; eexists;
      (split; [reflexivity|]);
      rewrite Hf, Hcalls, C1, <- app_assoc; reflexivity. }
  destruct Hchoose as (chosen & e3 & Hchosen & C3).
  cbv zeta in Hchosen. rewrite Hchosen.
  destruct chosen as [[bestSeed|]|].
  - destruct (buyPlantFertilize_shape srv bestSeed landsToPlant e3)
      as (purchase & Hp & Hshape).
    exists (GetBag :: ShopInfo 2 :: purchase).
    split.
    { rewrite Hp, C3, C0. now rewrite <- !app_assoc. }
    split; [intros Hnil; contradiction|].
    intros _. exists purchase. split; [reflexivity|].
    right. now exists bestSeed.
  - exists [GetBag; ShopInfo 2]. split.
    { simpl. rewrite C3, C0. now rewrite <- !app_assoc. }
    split; [intros Hnil; contradiction|].
    intros _. exists []. split; [reflexivity|now left].
  - exists [GetBag; ShopInfo 2]. split.
    { simpl. rewrite C3, C0. now rewrite <- !app_assoc. }
    split; [intros Hnil; contradiction|].
    intros _. exists []. split; [reflexivity|now left].
Qed.

(** *** The choice of the seed *)

Lemma checkConds_spec (stateLevel : Z) (conds : list Cond) :
  forall requiredLevel,
    (fst (checkConds stateLevel conds requiredLevel) = true
     <-> forall c, In c conds -> cond_type c = 1 -> cond_param c <= stateLevel)
    /\ (snd (checkConds stateLevel conds requiredLevel) = requiredLevel
        \/ exists c, In c conds /\ cond_type c = 1
                     /\ snd (checkConds stateLevel conds requiredLevel)
                        = cond_param c).
Proof.
  induction conds as [|cond rest IH]; intros r; simpl.
  - split; [|now left]. split; [intros _ c []|reflexivity].
  - destruct (Z.eqb_spec (cond_type cond) 1) as [Htype|Htype].
    + destruct (Z.ltb_spec stateLevel (cond_param cond)) as [Hlt|Hge]; simpl.
      * split; [|right; exists cond; auto].
        split; [discriminate|]. intros Hall.
        specialize (Hall cond (or_introl eq_refl) Htype). lia.
      * destruct (IH (cond_param cond)) as [Hfst Hsnd]. split.
        -- rewrite Hfst. split.
           ++ intros Hall c [<-|Hin] Hc; [lia|now apply Hall].
           ++ intros Hall c Hin. apply Hall. now right.
        -- right. destruct Hsnd as [->|(c & Hin & Hc & ->)].
           ++ exists cond. auto.
           ++ exists c. auto.
    + destruct (IH r) as [Hfst Hsnd]. split.
      * rewrite Hfst. split.
        -- intros Hall c [<-|Hin] Hc; [contradiction|now apply Hall].
        -- intros Hall c Hin. apply Hall. now right.
      * destruct Hsnd as [->|(c & Hin & Hc & ->)]; [now left|].
        right. exists c. auto.
Qed.

(** The entries [findBestSeed] keeps are the purchasable entries of the
    shop. *)
Lemma availableGoods_spec (stateLevel : Z) (goods_list : list Goods)
  (a : Available) :
  In a (availableGoods stateLevel goods_list)
  <-> exists g,
        In g goods_list /\ purchasable stateLevel g
        /\ a = mkAvailable (goods_id g) (goods_item_id g) (goods_price g)
                 (snd (checkConds stateLevel (goods_conds g) 0)).
Proof.
  unfold availableGoods.
  assert (Hgen : forall acc,
             In a (fold_left
                     (fun available goods =>
                        if negb (goods_unlocked goods) then available
                        else
                          let '(meetsConditions, requiredLevel) :=
                            checkConds stateLevel (goods_conds goods) 0 in
                          if negb meetsConditions then available
                          else if (0 <? limit_count goods)
                                  && (limit_count goods <=? bought_num goods)
                          then available
                          else available
                               ++ [mkAvailable (goods_id goods)
                                     (goods_item_id goods)
                                     (goods_price goods) requiredLevel])
                     goods_list acc)
             <-> In a acc
                 \/ exists g,
                      In g goods_list /\ purchasable stateLevel g
                      /\ a = mkAvailable (goods_id g) (goods_item_id g)
                               (goods_price g)
                               (snd (checkConds stateLevel (goods_conds g) 0))).
  { induction goods_list as [|goods rest IH]; intros acc; simpl.
    - split; [now left|]. intros [Hin|(g & [] & _)]. exact Hin.
    - rewrite IH. clear IH.
      assert (Hone :
        In a (if negb (goods_unlocked goods) then acc
              else
                let '(meetsConditions, requiredLevel) :=
                  checkConds stateLevel (goods_conds goods) 0 in
                if negb meetsConditions then acc
                else if (0 <? limit_count goods)
                        && (limit_count goods <=? bought_num goods)
                then acc
                else acc ++ [mkAvailable (goods_id goods) (goods_item_id goods)
                               (goods_price goods) requiredLevel])
        <-> In a acc
            \/ (purchasable stateLevel goods
                /\ a = mkAvailable (goods_id goods) (goods_item_id goods)
                         (goods_price goods)
                         (snd (checkConds stateLevel (goods_conds goods) 0)))).
      { unfold purchasable.
        destruct (checkConds_spec stateLevel (goods_conds goods) 0)
          as [Hfst _].
        destruct (goods_unlocked goods); simpl.
        2:{ split; [now left|]. intros [Hin|((Hu & _) & _)];
            [exact Hin|discriminate]. }
        destruct (checkConds stateLevel (goods_conds goods) 0)
          as [meets required]. simpl in Hfst |- *.
        destruct meets; simpl.
        2:{ split; [now left|]. intros [Hin|((_ & Hall & _) & _)];
            [exact Hin|]. apply Hfst in Hall. discriminate. }
        destruct (Z.ltb_spec 0 (limit_count goods)) as [Hl|Hl];
          destruct (Z.leb_spec (limit_count goods) (bought_num goods))
            as [Hb|Hb]; simpl;
          try (rewrite in_app_iff; simpl; split;
               [ intros [Hin|[<-|[]]]; [now left|right];
                 split; [|reflexivity];
                 split; [reflexivity|]; split; [now apply Hfst|lia]
               | intros [Hin|(_ & ->)]; [now left|right; now left] ]).
        split; [now left|]. intros [Hin|((_ & _ & Hlim) & _)];
          [exact Hin|]. exfalso. apply Hlim. lia. }
      rewrite Hone. split.
      + intros [[Hin|(Hp & Ha)]|(g & Hin & Hp & Ha)]; [now left| |].
        * right. exists goods. auto.
        * right. exists g. auto.
      + intros [Hin|(g & [<-|Hin] & Hp & Ha)]; [left; now left| |].
        * left. right. auto.
        * right. exists g. auto. }
  rewrite Hgen. simpl. split; [intros [[]|Hex]; exact Hex|now right].
Qed.

Lemma lowestRequiredLevel_min (rest : list Available) :
  forall first,
    In (lowestRequiredLevel first rest) (first :: rest)
    /\ forall x, In x (first :: rest) ->
         av_requiredLevel (lowestRequiredLevel first rest)
         <= av_requiredLevel x.
Proof.
  unfold lowestRequiredLevel.
  induction rest as [|a rest IH]; intros first; simpl.
  - split; [now left|]. intros x [<-|[]]. lia.
  - destruct (Z.ltb_spec (av_requiredLevel a) (av_requiredLevel first))
      as [Hlt|Hge].
    + destruct (IH a) as [Hin Hmin]. split.
      * destruct Hin as [<-|Hin]; [right; now left|right; now right].
      * intros x [<-|[<-|Hx]].
        -- specialize (Hmin a (or_introl eq_refl)). lia.
        -- apply Hmin. now left.
        -- apply Hmin. now right.
    + destruct (IH first) as [Hin Hmin]. split.
      * destruct Hin as [<-|Hin]; [now left|right; now right].
      * intros x [<-|[<-|Hx]].
        -- apply Hmin. now left.
        -- specialize (Hmin first (or_introl eq_refl)). lia.
        -- apply Hmin. now right.
Qed.

(** [selectBestSeedFromAvailable] on a list that is not empty. *)
Lemma selectBestSeedFromAvailable_run `{Collaborators} (first : Available)
  (rest : list Available) (preferNoFert : bool) (lv lands : Z) (e : Engine) :
  let available := first :: rest in
  let fallback := lowestRequiredLevel first rest in
  exists a,
    fst (selectBestSeedFromAvailable available preferNoFert lv lands e)
    = Some (Some a)
    /\ (a = fallback
        \/ exists b,
             lv <> 0 /\ lands <> 0
             /\ fst (getBestSeedsForLevel lv lands
                       (Some (map av_seedId available)) (seedYieldCache e))
                = Some b
             /\ find (fun item =>
                        av_seedId item
                        =? best_seedId (if preferNoFert then bestNoFert b
                                        else bestNormalFert b))
                  available = Some a).
Proof.
  intros available fallback. subst available fallback.
  unfold selectBestSeedFromAvailable. cbv zeta. rewrite bind_run.
  destruct (Z.eqb_spec lv 0) as [Hlv|Hlv]; cbn [negb andb].
  { eexists. split; [reflexivity|now left]. }
  destruct (Z.eqb_spec lands 0) as [Hlands|Hlands]; cbn [negb andb].
  { eexists. split; [reflexivity|now left]. }
  unfold bind at 1, gets at 1. cbv iota beta.
  destruct (getBestSeedsForLevel lv lands
              (Some (map av_seedId (first :: rest))) (seedYieldCache e))
    as [[b|] yc] eqn:Hbest; unfold bind, modify, ret; cbv iota beta.
  2:{ eexists. split; [reflexivity|now left]. }
  destruct (best_seedId (if preferNoFert then bestNoFert b
                         else bestNormalFert b) =? 0).
  { eexists. split; [reflexivity|now left]. }
  destruct (find _ (first :: rest)) as [found|] eqn:Hfind.
  - exists found. split; [reflexivity|]. right. exists b.
    split; [exact Hlv|]. split; [exact Hlands|]. split; [reflexivity|].
    exact Hfind.
  - eexists. split; [reflexivity|now left].
Qed.

(** X19. [findBestSeed] issues one [ShopInfo] call for shop 2 and throws
    exactly when that call does not return the goods of a shop.  A seed it
    returns comes from a purchasable entry of the reply (unlocked, every
    level condition met at the player's level, purchase limit not reached)
    and carries the goods id, the item id and the price of that entry; and
    it returns a seed whenever the reply holds a purchasable entry. *)
Theorem findBestSeed_sound `{Collaborators} :
  forall (srv : Server) (preferNoFert : bool) (lv lands : Z) (e : Engine),
    let out := findBestSeed srv preferNoFert lv lands e in
    calls (snd out) = calls e ++ [ShopInfo 2]
    /\ (fst out = None
        <-> forall goods_list,
              srv (length (calls e)) (ShopInfo 2)
              <> Some (ShopInfoReply goods_list))
    /\ (forall a,
          fst out = Some (Some a) ->
          exists goods_list g,
            srv (length (calls e)) (ShopInfo 2)
            = Some (ShopInfoReply goods_list)
            /\ In g goods_list
            /\ purchasable (level e) g
            /\ av_goodsId a = goods_id g
            /\ av_seedId a = goods_item_id g
            /\ av_price a = goods_price g)
    /\ (forall goods_list g,
          srv (length (calls e)) (ShopInfo 2)
          = Some (ShopInfoReply goods_list) ->
          In g goods_list -> purchasable (level e) g ->
          exists a, fst out = Some (Some a)).
Proof.
  intros srv preferNoFert lv lands e out. subst out.
  split; [apply findBestSeed_calls|].
  rewrite findBestSeed_run. cbv zeta.
  destruct (srv (length (calls e)) (ShopInfo 2))
    as [[| | |goods_list|]|] eqn:Hsrv;
    try (split; [split; [intros _ l; discriminate|reflexivity]|];
         split; [intros a Ha; discriminate Ha|];
         intros l g Hl; discriminate Hl).
  set (e0 := set_calls (calls e ++ [ShopInfo 2]) e).
  assert (Hsome : forall first rest,
             availableGoods (level e) goods_list = first :: rest ->
             exists a,
               fst (selectBestSeedFromAvailable (first :: rest) preferNoFert
                      lv lands e0) = Some (Some a)
               /\ In a (first :: rest)).
  { intros first rest _.
    destruct (selectBestSeedFromAvailable_run first rest preferNoFert lv lands
                e0) as (a & Ha & Hwhich).
    exists a. split; [exact Ha|].
    destruct Hwhich as [->|(b & _ & _ & _ & Hfind)].
    - apply lowestRequiredLevel_min.
    - now apply find_some in Hfind. }
  destruct (nonEmpty goods_list) eqn:Hgoods; cbn [andb].
  2:{ split.
      { split; [discriminate|]. intros Hno. now contradiction (Hno goods_list). }
      split; [intros a Ha; discriminate Ha|].
      intros l g [= <-] Hin _.
      destruct goods_list; [contradiction|discriminate Hgoods]. }
  destruct (availableGoods (level e) goods_list) as [|first rest] eqn:Hav.
  { cbn [nonEmpty length Nat.ltb Nat.leb]. split.
    { split; [discriminate|]. intros Hno. now contradiction (Hno goods_list). }
    split; [intros a Ha; discriminate Ha|].
    intros l g [= <-] Hin Hp.
    assert (Hmem : In (mkAvailable (goods_id g) (goods_item_id g)
                         (goods_price g)
                         (snd (checkConds (level e) (goods_conds g) 0)))
                     (availableGoods (level e) goods_list)).
    { apply availableGoods_spec. exists g. auto. }
    rewrite Hav in Hmem. contradiction. }
  change (nonEmpty (first :: rest)) with true. cbv iota.
  destruct (Hsome first rest eq_refl) as (a & Ha & Hin).
  split.
  { split; [rewrite Ha; discriminate|].
    intros Hno. now contradiction (Hno goods_list). }
  split.
  - intros a' Ha'. rewrite Ha in Ha'. injection Ha' as <-.
    rewrite <- Hav in Hin. apply availableGoods_spec in Hin.
    destruct Hin as (g & Hg & Hp & ->).
    exists goods_list, g. split; [reflexivity|]. split; [exact Hg|].
    split; [exact Hp|]. repeat split.
  - intros l g _ _ _. exists a. exact Ha.
Qed.

Lemma find_firstWithSeed (sid : Z) (available : list Available)
  (a : Available) :
  find (fun item => av_seedId item =? sid) available = Some a ->
  firstWithSeed sid available a.
Proof.
  unfold firstWithSeed.
  induction available as [|x l IH]; simpl; [discriminate|].
  destruct (Z.eqb_spec (av_seedId x) sid) as [Heq|Hneq].
  - intros [= <-]. exists [], l. split; [reflexivity|].
    split; [exact Heq|]. intros y [].
  - intros Hfind. destruct (IH Hfind) as (before & after & -> & Hid & Hbefore).
    exists (x :: before), after. split; [reflexivity|].
    split; [exact Hid|].
    intros y [<-|Hy]; [exact Hneq|now apply Hbefore].
Qed.

Lemma lowestRequiredLevel_fold (rest : list Available) :
  forall before best seen,
    (forall x, In x before -> av_requiredLevel best < av_requiredLevel x) ->
    (forall x, In x seen -> av_requiredLevel best <= av_requiredLevel x) ->
    firstOfLeastLevel (before ++ best :: seen ++ rest)
      (lowestRequiredLevel best rest).
Proof.
  unfold lowestRequiredLevel, firstOfLeastLevel.
  induction rest as [|a rest IH]; intros before best seen Hbefore Hseen; simpl.
  - exists before, seen. rewrite app_nil_r. auto.
  - destruct (Z.ltb_spec (av_requiredLevel a) (av_requiredLevel best))
      as [Hlt|Hge].
    + destruct (IH (before ++ best :: seen) a []) as (b' & a' & Heq & Hb & Ha).
      * intros x Hx. apply in_app_or in Hx as [Hx|[<-|Hx]].
        -- specialize (Hbefore x Hx). lia.
        -- exact Hlt.
        -- specialize (Hseen x Hx). lia.
      * intros x [].
      * exists b', a'. split; [|auto].
        rewrite <- Heq, <- app_assoc. reflexivity.
    + destruct (IH before best (seen ++ [a])) as (b' & a' & Heq & Hb & Ha).
      * exact Hbefore.
      * intros x Hx. apply in_app_or in Hx as [Hx|[<-|[]]]; auto.
      * exists b', a'. split; [|auto].
        rewrite <- Heq, <- app_assoc. reflexivity.
Qed.

(** The fallback is the first candidate of least required level. *)
Lemma lowestRequiredLevel_first (first : Available) (rest : list Available) :
  firstOfLeastLevel (first :: rest) (lowestRequiredLevel first rest).
Proof.
  apply (lowestRequiredLevel_fold rest [] first []); intros x [].
Qed.

Lemma pickBestSeed_member (rows : list SeedYield) (key : SeedYield -> Q)
  (r : SeedYield) :
  pickBestSeed rows key = Some r -> In r rows.
Proof.
  destruct rows as [|r0 rest]; [discriminate|]. simpl. intros [= <-].
  revert r0. induction rest as [|x rest IH]; intros r0; simpl; [now left|].
  destruct (Qgtb (key x) (key r0)).
  - right. apply IH.
  - destruct (IH r0) as [Heq|Hin]; [now left|right; now right].
Qed.

(** The seeds the optimizer chooses are among the seeds it was given. *)
Lemma getBestSeedsForLevel_within `{Collaborators} (lv lands : Z)
  (ids : list Z) (yc : SeedYieldCache) (b : BestSeeds) :
  fst (getBestSeedsForLevel lv lands (Some ids) yc) = Some b ->
  In (best_seedId (bestNoFert b)) ids
  /\ In (best_seedId (bestNormalFert b)) ids.
Proof.
  unfold getBestSeedsForLevel. cbv zeta.
  destruct (buildSeedYieldRows (Z.max 1 lands) yc) as [rows yc'].
  cbv beta iota zeta.
  assert (Hmem : forall key r,
             pickBestSeed
               (List.filter
                  (fun r => existsb (Z.eqb (seedId (seed r))) ids)
                  (List.filter
                     (fun r => (requiredLevel (seed r) <=? Z.max 1 lv)
                               && seed_unlocked (seed r)) rows)) key
             = Some r ->
             In (seedId (seed r)) ids).
  { intros key r Hr. apply pickBestSeed_member in Hr.
    apply filter_In in Hr as [_ Hr].
    apply existsb_exists in Hr as (x & Hx & Heq).
    apply Z.eqb_eq in Heq. now rewrite Heq. }
  pose proof (Hmem farmExpPerHourNoFert) as Hn.
  pose proof (Hmem farmExpPerHourNormalFert) as Hf.
  repeat match goal with
         | |- context [pickBestSeed ?l ?key] =>
             destruct (pickBestSeed l key)
         end; simpl; try discriminate.
  intros [= <-]. simpl. split; [now apply Hn|now apply Hf].
Qed.

(** [selectBestSeedFromAvailable] on a list that is not empty, case by
    case. *)
Lemma selectBestSeedFromAvailable_exact `{Collaborators} (first : Available)
  (rest : list Available) (preferNoFert : bool) (lv lands : Z) (e : Engine) :
  let available := first :: rest in
  let optimum :=
    fst (getBestSeedsForLevel lv lands (Some (map av_seedId available))
           (seedYieldCache e)) in
  let target b :=
    best_seedId (if preferNoFert then bestNoFert b else bestNormalFert b) in
  exists a,
    fst (selectBestSeedFromAvailable available preferNoFert lv lands e)
    = Some (Some a)
    /\ (((lv = 0 \/ lands = 0 \/ optimum = None
          \/ exists b, optimum = Some b /\ target b = 0)
         /\ a = lowestRequiredLevel first rest)
        \/ exists b,
             lv <> 0 /\ lands <> 0 /\ optimum = Some b /\ target b <> 0
             /\ find (fun item => av_seedId item =? target b) available
                = Some a).
Proof.
  cbv zeta.
  pose proof (getBestSeedsForLevel_within lv lands
                (map av_seedId (first :: rest)) (seedYieldCache e)) as Hwithin.
  unfold selectBestSeedFromAvailable. cbv zeta. rewrite bind_run.
  destruct (Z.eqb_spec lv 0) as [Hlv|Hlv]; cbn [negb andb].
  { eexists. split; [reflexivity|]. left. split; [now left|reflexivity]. }
  destruct (Z.eqb_spec lands 0) as [Hlands|Hlands]; cbn [negb andb].
  { eexists. split; [reflexivity|]. left.
    split; [right; now left|reflexivity]. }
  unfold bind at 1, gets at 1. cbv iota beta.
  destruct (getBestSeedsForLevel lv lands
              (Some (map av_seedId (first :: rest))) (seedYieldCache e))
    as [[b|] yc] eqn:Hbest; unfold bind, modify, ret; cbv iota beta.
  2:{ eexists. split; [reflexivity|]. left.
      split; [right; right; now left|reflexivity]. }
  cbn [fst] in Hwithin |- *. specialize (Hwithin b eq_refl).
  set (t := best_seedId (if preferNoFert then bestNoFert b
                         else bestNormalFert b)).
  assert (Ht : In t (map av_seedId (first :: rest))).
  { subst t. destruct preferNoFert; apply Hwithin. }
  destruct (Z.eqb_spec t 0) as [Hzero|Hnz].
  { eexists. split; [reflexivity|]. left. split; [|reflexivity].
    right; right; right. exists b. split; [reflexivity|exact Hzero]. }
  destruct (find (fun item => av_seedId item =? t) (first :: rest))
    as [found|] eqn:Hfind.
  - exists found. split; [reflexivity|]. right. exists b.
    split; [exact Hlv|]. split; [exact Hlands|]. split; [reflexivity|].
    split; [exact Hnz|]. exact Hfind.
  - exfalso. apply in_map_iff in Ht as (x & Hx & Hin).
    pose proof (find_none _ _ Hfind x Hin) as Hno. simpl in Hno.
    rewrite Hx, Z.eqb_refl in Hno. discriminate.
Qed.

(** X20. From a list of candidates that is not empty,
    [selectBestSeedFromAvailable] always returns one of the candidates, and
    which one is determined.  When the level and the plot count are both
    non-zero and the yield optimizer, run on the candidates' seeds, returns
    a result whose seed for the requested fertilizer mode is non-zero, the
    optimizer's choice is returned: the first candidate with that seed (one
    always exists).  In every other case (level or plot count zero, no
    result of the optimizer, or a zero seed) the fallback is returned: the
    first candidate of least required level. *)
Theorem selectBestSeedFromAvailable_choice `{Collaborators} :
  forall (available : list Available) (preferNoFert : bool) (lv lands : Z)
         (e : Engine),
    available <> [] ->
    let out :=
      fst (selectBestSeedFromAvailable available preferNoFert lv lands e) in
    let optimum :=
      fst (getBestSeedsForLevel lv lands (Some (map av_seedId available))
             (seedYieldCache e)) in
    let target b :=
      best_seedId (if preferNoFert then bestNoFert b else bestNormalFert b) in
    (forall b,
        lv <> 0 -> lands <> 0 -> optimum = Some b -> target b <> 0 ->
        exists a,
          out = Some (Some a) /\ firstWithSeed (target b) available a)
    /\ ((lv = 0 \/ lands = 0 \/ optimum = None
         \/ exists b, optimum = Some b /\ target b = 0) ->
        exists a, out = Some (Some a) /\ firstOfLeastLevel available a)
    /\ exists a, out = Some (Some a) /\ In a available.
Proof.
  intros [|first rest] preferNoFert lv lands e Hne; [contradiction|].
  cbv zeta.
  pose proof (selectBestSeedFromAvailable_exact first rest preferNoFert lv
                lands e) as Hex.
  cbv zeta in Hex.
  set (out := fst (selectBestSeedFromAvailable (first :: rest) preferNoFert
                     lv lands e)) in *.
  set (optimum := fst (getBestSeedsForLevel lv lands
                         (Some (map av_seedId (first :: rest)))
                         (seedYieldCache e))) in *.
  clearbody out optimum.
  destruct Hex as (a & Ha & Hwhich).
  destruct Hwhich as [(Hc & ->)|(b & Hlv & Hlands & Hb & Ht & Hfind)].
  - pose proof (lowestRequiredLevel_first first rest) as Hleast.
    split; [|split].
    + intros b Hlv Hlands Hb Ht. exfalso.
      destruct Hc as [Hc|[Hc|[Hc|(b' & Hb' & Hz)]]];
        [contradiction|contradiction|congruence|].
      rewrite Hb in Hb'. injection Hb' as <-. contradiction.
    + intros _. eauto.
    + eexists. split; [exact Ha|].
      destruct Hleast as (before & after & -> & _). apply in_elt.
  - pose proof (find_firstWithSeed _ _ _ Hfind) as Hfirst.
    split; [|split].
    + intros b' _ _ Hb' _. rewrite Hb in Hb'. injection Hb' as <-. eauto.
    + intros Hc. exfalso.
      destruct Hc as [Hc|[Hc|[Hc|(b' & Hb' & Hz)]]];
        [contradiction|contradiction|congruence|].
      rewrite Hb in Hb'. injection Hb' as <-. contradiction.
    + exists a. split; [exact Ha|].
      destruct Hfirst as (before & after & -> & _). apply in_elt.
Qed.

Lemma selectBestSeedFromAvailable_choice_witness :
  [mkAvailable 5003 20003 20 2; mkAvailable 5002 20002 10 1] <> []
  /\ exists a,
       fst (selectBestSeedFromAvailable
              [mkAvailable 5003 20003 20 2; mkAvailable 5002 20002 10 1]
              false 5 3 (initialEngine 1 5 100)) = Some (Some a)
       /\ firstWithSeed 20003
            [mkAvailable 5003 20003 20 2; mkAvailable 5002 20002 10 1] a.
Proof.
  assert (H1 : [mkAvailable 5003 20003 20 2; mkAvailable 5002 20002 10 1]
               <> []) by discriminate.
  split; [exact H1|].
  destruct (fst (getBestSeedsForLevel 5 3
                   (Some (map av_seedId
                            [mkAvailable 5003 20003 20 2;
                             mkAvailable 5002 20002 10 1]))
                   (seedYieldCache (initialEngine 1 5 100))))
    as [b|] eqn:Hb; [|vm_compute in Hb; discriminate Hb].
  assert (Ht : best_seedId (bestNormalFert b) = 20003).
  { vm_compute in Hb. injection Hb as <-. reflexivity. }
  pose proof (selectBestSeedFromAvailable_choice
                [mkAvailable 5003 20003 20 2; mkAvailable 5002 20002 10 1]
                false 5 3 (initialEngine 1 5 100) H1) as Hall.
  cbv zeta in Hall. destruct Hall as (Hchoice & _).
  specialize (Hchoice b ltac:(discriminate) ltac:(discriminate) Hb).
  cbv beta iota in Hchoice. rewrite Ht in Hchoice.
  apply Hchoice. discriminate.
Defined.

(** On the sample shop the optimizer's choice differs from the fallback:
    the seed of least required level is 20002, the one returned is 20003;
    with a plot count of zero the fallback is returned. *)
Example selectBestSeedFromAvailable_sample :
  fst (selectBestSeedFromAvailable
         [mkAvailable 5003 20003 20 2; mkAvailable 5002 20002 10 1]
         false 5 3 (initialEngine 1 5 100))
  = Some (Some (mkAvailable 5003 20003 20 2))
  /\ fst (selectBestSeedFromAvailable
            [mkAvailable 5003 20003 20 2; mkAvailable 5002 20002 10 1]
            false 5 0 (initialEngine 1 5 100))
     = Some (Some (mkAvailable 5002 20002 10 1)).
Proof. vm_compute. split; reflexivity. Qed.

Example findBestSeed_sample :
  fst (findBestSeed seedShop false 5 3 (initialEngine 1 5 100))
  = Some (Some (mkAvailable 5003 20003 20 2))
  /\ fst (findBestSeed seedShop false 1 3 (initialEngine 1 1 100))
     = Some (Some (mkAvailable 5002 20002 10 1))
  /\ calls (snd (autoPlantEmptyLands seedShop [7] [2; 3]
                   (initialEngine 1 5 25)))
     = [RemovePlant [7]; GetBag; ShopInfo 2; BuyGoods 5003 1 20].
Proof. vm_compute. repeat split. Qed.

(** ** More on the Yield Optimizer *)

Section Best.
Local Open Scope Q_scope.

Lemma Qgtb_true (x y : Q) : Qgtb x y = true <-> y < x.
Proof.
  unfold Qgtb. rewrite negb_true_iff. split.
  - intros Hb. apply Qnot_le_lt. intros Hle.
    apply Qle_bool_iff in Hle. congruence.
  - intros Hlt. destruct (Qle_bool x y) eqn:Hb; [|reflexivity].
    apply Qle_bool_iff in Hb. lra.
Qed.

Lemma Qgtb_false (x y : Q) : Qgtb x y = false <-> x <= y.
Proof.
  unfold Qgtb. rewrite negb_false_iff. apply Qle_bool_iff.
Qed.

(** The loop of [pickBestSeed] keeps a maximum of what it has seen. *)
Lemma pickBestSeed_max (rows : list SeedYield) (key : SeedYield -> Q) :
  (pickBestSeed rows key = None <-> rows = [])
  /\ forall r, pickBestSeed rows key = Some r ->
       In r rows /\ forall x, In x rows -> key x <= key r.
Proof.
  destruct rows as [|r0 rest]; simpl.
  - split; [tauto|]. intros r Hr. discriminate Hr.
  - split; [split; discriminate|].
    intros r [= <-]. revert r0.
    induction rest as [|a rest IH]; intros r0; simpl.
    + split; [now left|]. intros x [<-|[]]. lra.
    + destruct (Qgtb (key a) (key r0)) eqn:Hgt.
      * apply Qgtb_true in Hgt. destruct (IH a) as [Hin Hmax]. split.
        -- destruct Hin as [<-|Hin]; [right; now left|right; now right].
        -- intros x [<-|[<-|Hx]].
           ++ specialize (Hmax a (or_introl eq_refl)). lra.
           ++ apply Hmax. now left.
           ++ apply Hmax. now right.
      * apply Qgtb_false in Hgt. destruct (IH r0) as [Hin Hmax]. split.
        -- destruct Hin as [<-|Hin]; [now left|right; now right].
        -- intros x [<-|[<-|Hx]].
           ++ apply Hmax. now left.
           ++ specialize (Hmax r0 (or_introl eq_refl)). lra.
           ++ apply Hmax. now right.
Qed.
End Best.

(** X21. [pickBestSeed] returns nothing exactly on an empty list;
    otherwise it returns the first row of the list that holds the maximum of
    the key: every row before it has a strictly smaller key and no row after
    it a larger one. *)
Theorem pickBestSeed_first_maximum :
  forall (rows : list SeedYield) (key : SeedYield -> Q),
    (pickBestSeed rows key = None <-> rows = [])
    /\ forall r,
         pickBestSeed rows key = Some r ->
         exists before after,
           rows = before ++ r :: after
           /\ (forall x, In x before -> (key x < key r)%Q)
           /\ (forall x, In x after -> (key x <= key r)%Q).
Proof.
  intros rows key. destruct rows as [|r0 rest]; simpl.
  - split; [tauto|]. intros r Hr. discriminate Hr.
  - split; [split; discriminate|].
    intros r [= <-].
    assert (Hgen : forall rest before best mid,
               (forall x, In x before -> (key x < key best)%Q) ->
               (forall x, In x mid -> (key x <= key best)%Q) ->
               exists before' after',
                 before ++ best :: mid ++ rest
                 = before'
                   ++ fold_left (fun best r =>
                                   if Qgtb (key r) (key best) then r else best)
                        rest best :: after'
                 /\ (forall x, In x before' ->
                       (key x
                        < key (fold_left
                                 (fun best r =>
                                    if Qgtb (key r) (key best) then r
                                    else best) rest best))%Q)
                 /\ (forall x, In x after' ->
                       (key x
                        <= key (fold_left
                                  (fun best r =>
                                     if Qgtb (key r) (key best) then r
                                     else best) rest best))%Q)).
    { clear. induction rest as [|a rest IH]; intros before best mid Hb Hm.
      - exists before, mid. simpl. rewrite app_nil_r. auto.
      - simpl. destruct (Qgtb (key a) (key best)) eqn:Hgt.
        + apply Qgtb_true in Hgt.
          destruct (IH (before ++ best :: mid) a []) as (b' & a' & E & H1 & H2).
          * intros x Hx. apply in_app_iff in Hx.
            destruct Hx as [Hx|[<-|Hx]].
            -- specialize (Hb x Hx). lra.
            -- exact Hgt.
            -- specialize (Hm x Hx). lra.
          * intros x [].
          * exists b', a'. split; [|auto].
            rewrite <- E. simpl. rewrite <- app_assoc. reflexivity.
        + apply Qgtb_false in Hgt.
          destruct (IH before best (mid ++ [a])) as (b' & a' & E & H1 & H2).
          * exact Hb.
          * intros x Hx. apply in_app_iff in Hx.
            destruct Hx as [Hx|[<-|[]]]; [now apply Hm|exact Hgt].
          * exists b', a'. split; [|auto].
            rewrite <- E. rewrite <- app_assoc. reflexivity. }
    destruct (Hgen rest [] r0 []) as (b' & a' & E & H1 & H2).
    + intros x [].
    + intros x [].
    + exists b', a'. simpl in E. auto.
Qed.

Lemma eligible_filter (lv : Z) (ids : option (list Z))
  (rows : list SeedYield) (r : SeedYield) :
  In r match ids with
       | Some l =>
           List.filter (fun r => existsb (Z.eqb (seedId (seed r))) l)
             (List.filter (fun r => (requiredLevel (seed r) <=? Z.max 1 lv)
                                    && seed_unlocked (seed r)) rows)
       | None =>
           List.filter (fun r => (requiredLevel (seed r) <=? Z.max 1 lv)
                                 && seed_unlocked (seed r)) rows
       end
  <-> In r rows /\ eligibleRow lv ids r.
Proof.
  unfold eligibleRow. destruct ids as [l|].
  - rewrite !filter_In, andb_true_iff, Z.leb_le, existsb_exists.
    split.
    + intros [(Hin & Hlv & Hu) (x & Hx & Heq)].
      apply Z.eqb_eq in Heq. subst x. auto.
    + intros (Hin & Hlv & Hu & Hx). split; [auto|].
      exists (seedId (seed r)). split; [exact Hx|apply Z.eqb_refl].
  - rewrite filter_In, andb_true_iff, Z.leb_le. tauto.
Qed.

(** X22. With a valid yield cache, [getBestSeedsForLevel] returns nothing
    exactly when no row of the yield table is eligible (required level at
    most the level, unlocked, seed among the given ids if any); otherwise
    its two entries come from eligible rows, and each holds the largest
    experience per hour of its mode among all eligible rows. *)
Theorem getBestSeedsForLevel_optimal `{Collaborators} :
  forall (lv lands : Z) (ids : option (list Z)) (c : SeedYieldCache),
    cacheValid c ->
    let rows := computeSeedYieldRows (Z.max 1 lands) in
    let out := fst (getBestSeedsForLevel lv lands ids c) in
    (out = None <-> forall r, In r rows -> ~ eligibleRow lv ids r)
    /\ forall b,
         out = Some b ->
         exists n f,
           In n rows /\ eligibleRow lv ids n
           /\ In f rows /\ eligibleRow lv ids f
           /\ bestNoFert b = bestOf n farmExpPerHourNoFert
           /\ bestNormalFert b = bestOf f farmExpPerHourNormalFert
           /\ forall r, In r rows -> eligibleRow lv ids r ->
                (farmExpPerHourNoFert r <= farmExpPerHourNoFert n)%Q
                /\ (farmExpPerHourNormalFert r
                    <= farmExpPerHourNormalFert f)%Q.
Proof.
  intros lv lands ids c Hc rows out. subst out.
  destruct (buildSeedYieldRows_rows (Z.max 1 lands) c Hc) as [Hrows _].
  replace (Z.max 1 (Z.max 1 lands)) with (Z.max 1 lands) in Hrows by lia.
  fold rows in Hrows.
  unfold getBestSeedsForLevel.
  destruct (buildSeedYieldRows (Z.max 1 lands) c) as [rows' c'].
  simpl in Hrows. subst rows'. cbv beta iota zeta.
  pose proof (eligible_filter lv ids rows) as Hfilter.
  set (filtered := match ids with
                   | Some l => List.filter _ (List.filter _ rows)
                   | None => List.filter _ rows
                   end) in *.
  destruct (pickBestSeed_max filtered farmExpPerHourNoFert) as [Hn0 Hn].
  destruct (pickBestSeed_max filtered farmExpPerHourNormalFert) as [Hf0 Hf].
  destruct (pickBestSeed filtered farmExpPerHourNoFert) as [n|].
  - destruct (pickBestSeed filtered farmExpPerHourNormalFert) as [f|].
    + destruct (Hn n eq_refl) as [Hnin Hnmax].
      destruct (Hf f eq_refl) as [Hfin Hfmax].
      apply Hfilter in Hnin, Hfin. simpl. split.
      * split; [discriminate|]. intros Hno.
        now contradiction (Hno n (proj1 Hnin) (proj2 Hnin)).
      * intros b [= <-]. exists n, f. simpl.
        split; [tauto|]. split; [tauto|]. split; [tauto|]. split; [tauto|].
        split; [reflexivity|]. split; [reflexivity|].
        intros r Hr He. split; [apply Hnmax|apply Hfmax]; now apply Hfilter.
    + exfalso. destruct (Hn n eq_refl) as [Hnin _].
      assert (Hnil : filtered = []) by (now apply Hf0).
      rewrite Hnil in Hnin. contradiction.
  - simpl. split; [|intros b Hb; discriminate Hb].
    split; [|reflexivity]. intros _ r Hr He.
    assert (Hnil : filtered = []) by (now apply Hn0).
    assert (Hin : In r filtered) by (now apply Hfilter).
    rewrite Hnil in Hin. contradiction.
Qed.

Lemma getBestSeedsForLevel_optimal_witness :
  cacheValid initialSeedYieldCache
  /\ exists n,
       In n (computeSeedYieldRows (Z.max 1 3))
       /\ eligibleRow 5 None n
       /\ option_map bestNoFert
            (fst (getBestSeedsForLevel 5 3 None initialSeedYieldCache))
          = Some (bestOf n farmExpPerHourNoFert).
Proof.
  split; [exact initialSeedYieldCache_valid|].
  destruct (fst (getBestSeedsForLevel 5 3 None initialSeedYieldCache))
    as [b|] eqn:Hb; [|vm_compute in Hb; discriminate Hb].
  destruct (proj2 (getBestSeedsForLevel_optimal 5 3 None initialSeedYieldCache
                     initialSeedYieldCache_valid) b Hb)
    as (n & f & Hn & He & _ & _ & Hbest & _).
  exists n. split; [exact Hn|]. split; [exact He|].
  simpl. now rewrite Hbest.
Defined.

(** X23. The fertilized grow time is at least one second, is not longer
    than the grow time when that is at least one second, and grows with the
    grow time; it is one second up to 31 seconds of grow time, the grow time
    less 30 seconds from 31 to 150 seconds, and four fifths of the grow time
    from 150 seconds on. *)
Theorem calcEffectiveGrowTime_bounds :
  forall g g' : Q,
    (1 <= calcEffectiveGrowTime g)%Q
    /\ ((1 <= g)%Q -> (calcEffectiveGrowTime g <= g)%Q)
    /\ ((g <= g')%Q ->
        (calcEffectiveGrowTime g <= calcEffectiveGrowTime g')%Q)
    /\ ((g <= 31)%Q -> (calcEffectiveGrowTime g == 1)%Q)
    /\ ((31 <= g)%Q -> (g <= 150)%Q ->
        (calcEffectiveGrowTime g == g - 30)%Q)
    /\ ((150 <= g)%Q -> (calcEffectiveGrowTime g == g * (8 # 10))%Q).
Proof.
  intros g g'. unfold calcEffectiveGrowTime, FERT_PERCENT, FERT_MIN_REDUCE_SEC.
  destruct (Q.max_spec (g * (2 # 10)) 30) as [[A1 A2]|[A1 A2]];
    destruct (Q.max_spec (g' * (2 # 10)) 30) as [[B1 B2]|[B1 B2]];
    set (m := Qmax (g * (2 # 10)) 30) in *;
    set (m' := Qmax (g' * (2 # 10)) 30) in *;
    destruct (Q.max_spec 1 (g - m)) as [[C1 C2]|[C1 C2]];
    destruct (Q.max_spec 1 (g' - m')) as [[D1 D2]|[D1 D2]];
    set (r := Qmax 1 (g - m)) in *;
    set (r' := Qmax 1 (g' - m')) in *;
    clearbody r r' m m';
    repeat split; intros; lra.
Qed.

(** ** More on the event loop *)

Lemma onLevelChanged_control `{Collaborators} (lv : Z) (e : Engine) :
  controlOf (onLevelChanged lv e) = controlOf e.
Proof.
  unfold onLevelChanged.
  destruct (lv =? 0); [reflexivity|].
  destruct (lastUnlockedCount e =? 0)%nat; [reflexivity|].
  exact (f_equal (fun t => fst (fst (fst (fst t))))
           (ensureBestSeedCache_outside lv (Z.of_nat (lastUnlockedCount e)) e)).
Qed.

(** X24. A forced refresh is not lost: once the forced flag is set (by an
    accepted push), no event clears it except the end of a cycle that has
    fetched at least one plot; in particular it survives a cycle whose fetch
    fails or returns no plot, further pushes, timers, level changes and
    rewrites of the user state. *)
Theorem forced_refresh_persists `{Collaborators} :
  forall (srv : Server) (s : System) (ev : Event),
    forceFarmCheck (engine s) = true ->
    forceFarmCheck (engine (step srv s ev)) = true
    \/ exists clk rest lands,
         ev = CycleEnds
         /\ inFlight s = clk :: rest
         /\ srv (length (calls (engine s))) AllLands
            = Some (AllLandsReply lands)
         /\ nonEmpty lands = true.
Proof.
  intros srv s ev Hforce.
  destruct ev as [clk| |now lands|clk|lv|g l m]; simpl.
  - left. unfold callCheckFarm.
    now destruct (checkFarmSkips (engine s)).
  - destruct (inFlight s) as [|clk rest] eqn:Hin; [now left|].
    simpl. unfold checkFarmLeave.
    assert (Hdue : shouldCheckFarmNow (engine s) (atDecision clk) = true).
    { unfold shouldCheckFarmNow. rewrite Hforce.
      now destruct (isFirstFarmCheck (engine s)). }
    rewrite checkFarmTry_parts by exact Hdue. cbv zeta.
    destruct (srv (length (calls (engine s))) AllLands)
      as [[|lands| | |]|]; try (left; exact Hforce).
    destruct (nonEmpty lands) eqn:Hlands; [|left; exact Hforce].
    right. exists clk, rest, lands. auto.
  - left. unfold onLandsChangedPush.
    destruct (isCheckingFarm (engine s)); [exact Hforce|].
    now destruct (now - lastPushTime (engine s) <? 500).
  - left. destruct (pendingChecks (engine s)) as [|n]; [exact Hforce|].
    simpl. destruct (isCheckingFarm (engine s)); [exact Hforce|].
    unfold callCheckFarm. simpl.
    now destruct (checkFarmSkips _).
  - left.
    pose proof (onLevelChanged_control lv (engine s)) as Hc.
    unfold controlOf in Hc.
    assert (Hf : forceFarmCheck (onLevelChanged lv (engine s))
                 = forceFarmCheck (engine s))
      by exact (f_equal (fun t => snd (fst (fst (fst (fst (fst (fst t)))))))
                  Hc).
    now rewrite Hf.
  - left. exact Hforce.
Qed.

Lemma forced_refresh_persists_witness :
  forceFarmCheck
    (engine (step offline (initialSystem 1 5 100) (LandsChanged 1000 [3])))
  = true
  /\ (forceFarmCheck
        (engine (step offline
                   (step offline (initialSystem 1 5 100)
                      (LandsChanged 1000 [3]))
                   (LevelChanged 6))) = true
      \/ exists clk rest lands,
           LevelChanged 6 = CycleEnds
           /\ inFlight (step offline (initialSystem 1 5 100)
                          (LandsChanged 1000 [3])) = clk :: rest
           /\ offline
                (length (calls (engine (step offline (initialSystem 1 5 100)
                                          (LandsChanged 1000 [3])))))
                AllLands = Some (AllLandsReply lands)
           /\ nonEmpty lands = true).
Proof.
  assert (H1 : forceFarmCheck
                 (engine (step offline (initialSystem 1 5 100)
                            (LandsChanged 1000 [3]))) = true)
    by reflexivity.
  split; [exact H1|].
  exact (forced_refresh_persists offline
           (step offline (initialSystem 1 5 100) (LandsChanged 1000 [3]))
           (LevelChanged 6) H1).
Defined.

(** ** Loading the plant configuration *)

(** X25. After [loadConfigs], a plant id maps to the last plant of the
    configuration that has this id, and a seed id to the last plant that has
    this seed id, except that seed id 0 is never a key.  Hence a plant found
    by seed id carries that seed id, comes from the configuration, and its
    own plant id is a key of the map by plant id. *)
Theorem loadPlants_lookup :
  forall (plantConfig : list PlantCfg),
    let maps := loadPlants plantConfig in
    (forall i,
        fst maps !! i = find (fun p => cfg_id p =? i) (rev plantConfig))
    /\ (forall s,
          snd maps !! s
          = if s =? 0 then None
            else find (fun p => cfg_seed_id p =? s) (rev plantConfig))
    /\ (forall s p,
          snd maps !! s = Some p ->
          s <> 0 /\ cfg_seed_id p = s /\ In p plantConfig
          /\ fst maps !! cfg_id p <> None).
Proof.
  intros plantConfig maps. subst maps.
  assert (Hfind :
    (forall i,
        fst (loadPlants plantConfig) !! i
        = find (fun p => cfg_id p =? i) (rev plantConfig))
    /\ (forall s,
          snd (loadPlants plantConfig) !! s
          = if s =? 0 then None
            else find (fun p => cfg_seed_id p =? s) (rev plantConfig))).
  { unfold loadPlants.
    induction plantConfig as [|plant rest IH] using rev_ind.
    - simpl. split; intros k; [apply lookup_empty|].
      rewrite lookup_empty. now destruct (k =? 0).
    - rewrite fold_left_app, rev_app_distr. simpl.
      destruct IH as [IH1 IH2]. split.
      + intros i. rewrite lookup_insert.
        destruct (decide (cfg_id plant = i)) as [->|Hne].
        * now rewrite Z.eqb_refl.
        * apply Z.eqb_neq in Hne. rewrite Hne. apply IH1.
      + intros s.
        destruct (Z.eqb_spec (cfg_seed_id plant) 0) as [Hzero|Hnz].
        * rewrite IH2.
          destruct (Z.eqb_spec s 0) as [|Hs]; [reflexivity|].
          destruct (Z.eqb_spec (cfg_seed_id plant) s) as [|_]; [lia|].
          reflexivity.
        * rewrite lookup_insert.
          destruct (decide (cfg_seed_id plant = s)) as [<-|Hne].
          -- rewrite Z.eqb_refl. apply Z.eqb_neq in Hnz. now rewrite Hnz.
          -- rewrite IH2. apply Z.eqb_neq in Hne. now rewrite Hne. }
  destruct Hfind as [H1 H2].
  split; [exact H1|]. split; [exact H2|].
  intros s p Hs. rewrite H2 in Hs.
  destruct (Z.eqb_spec s 0) as [|Hnz]; [discriminate|].
  apply find_some in Hs as [Hin Hseed].
  apply Z.eqb_eq in Hseed. apply in_rev in Hin.
  split; [exact Hnz|]. split; [exact Hseed|]. split; [exact Hin|].
  rewrite H1.
  destruct (find (fun q => cfg_id q =? cfg_id p) (rev plantConfig)) eqn:Hf;
    [discriminate|].
  apply in_rev in Hin.
  pose proof (find_none _ _ Hf p Hin) as Hself. simpl in Hself.
  rewrite Z.eqb_refl in Hself. discriminate Hself.
Qed.

(** ** Status lines of the farm *)

Lemma lines_count (n : nat) :
  (1 <= n)%nat -> ((n + 3) / 4 = S ((n - 4 + 3) / 4))%nat.
Proof.
  intros Hn. destruct (Nat.le_gt_cases 4 n) as [Hbig|Hsmall].
  - replace (n + 3)%nat with ((n - 4 + 3) + 1 * 4)%nat by lia.
    rewrite Nat.div_add by lia. lia.
  - assert (Hcases : n = 1%nat \/ n = 2%nat \/ n = 3%nat) by lia.
    destruct Hcases as [-> | [-> | ->]]; reflexivity.
Qed.

Lemma statusLinesFrom_chunks (landSummaries : list String.string) :
  forall fuel i,
    (length landSummaries - i <= fuel)%nat ->
    exists chunks,
      statusLinesFrom fuel i landSummaries = map Summaries.join chunks
      /\ concat chunks = skipn i landSummaries
      /\ Forall (fun c => (1 <= length c <= perLine)%nat) chunks
      /\ Forall (fun c => length c = perLine) (removelast chunks)
      /\ length chunks = ((length landSummaries - i + 3) / 4)%nat
      /\ ((length landSummaries <= i)%nat -> chunks = []).
Proof.
  induction fuel as [|fuel IH]; intros i Hfuel.
  - exists []. simpl. rewrite skipn_all2 by lia.
    replace (length landSummaries - i)%nat with 0%nat by lia.
    repeat split; constructor.
  - cbn [statusLinesFrom].
    destruct (Nat.ltb_spec i (length landSummaries)) as [Hlt|Hge].
    + destruct (IH (i + perLine)%nat) as (chunks & E & C & F & L & N & Z0).
      { unfold perLine. lia. }
      set (chunk := slice i (i + perLine) landSummaries).
      assert (Hchunk : chunk = firstn perLine (skipn i landSummaries)).
      { subst chunk. unfold slice. f_equal. lia. }
      assert (Hlen : length chunk
                     = Nat.min perLine (length landSummaries - i)).
      { rewrite Hchunk, length_firstn, length_skipn. reflexivity. }
      exists (chunk :: chunks).
      split; [simpl; now rewrite E|].
      split.
      { simpl. rewrite C, Hchunk.
        replace (i + perLine)%nat with (perLine + i)%nat by lia.
        rewrite <- skipn_skipn. apply firstn_skipn. }
      split.
      { constructor; [|exact F]. rewrite Hlen. unfold perLine. lia. }
      split.
      { destruct chunks as [|c chunks']; [constructor|].
        change (removelast (chunk :: c :: chunks'))
          with (chunk :: removelast (c :: chunks')).
        constructor; [|exact L].
        rewrite Hlen.
        destruct (Nat.le_gt_cases (length landSummaries) (i + perLine))
          as [Hle|Hgt]; [now specialize (Z0 Hle)|].
        unfold perLine in *. lia. }
      split.
      { change (length (chunk :: chunks)) with (S (length chunks)).
        rewrite N. unfold perLine.
        rewrite (lines_count (length landSummaries - i)) by lia.
        f_equal. f_equal. f_equal. lia. }
      intros Hle. lia.
    + exists []. simpl. rewrite skipn_all2 by lia.
      replace (length landSummaries - i)%nat with 0%nat by lia.
      repeat split; constructor.
Qed.

(** X26. [buildFarmStatusLines] loses and repeats no summary: its lines
    are the joins of consecutive groups of the summaries, in order, whose
    concatenation is the list of summaries; every group holds one to four
    summaries, every group but the last holds four, and there are
    [ceil (n / 4)] lines for [n] summaries. *)
Theorem buildFarmStatusLines_groups :
  forall (landSummaries : list String.string),
    exists chunks,
      buildFarmStatusLines landSummaries = map Summaries.join chunks
      /\ concat chunks = landSummaries
      /\ Forall (fun c => (1 <= length c <= 4)%nat) chunks
      /\ Forall (fun c => length c = 4%nat) (removelast chunks)
      /\ length (buildFarmStatusLines landSummaries)
         = ((length landSummaries + 3) / 4)%nat.
Proof.
  intros landSummaries. unfold buildFarmStatusLines.
  destruct (statusLinesFrom_chunks landSummaries (length landSummaries) 0%nat)
    as (chunks & E & C & F & L & N & _); [lia|].
  exists chunks. rewrite E, length_map, N, Nat.sub_0_r.
  repeat split; assumption.
Qed.

(** ** The grow-phase string *)

Lemma splitOn_segment (segment rest : list Ascii.ascii) :
  ~ In Chars.semicolon segment ->
  splitOn Chars.semicolon (segment ++ Chars.semicolon :: rest)
  = segment :: splitOn Chars.semicolon rest.
Proof.
  induction segment as [|c segment IH]; intros Hno; simpl.
  - reflexivity.
  - destruct (Ascii.eqb_spec c Chars.semicolon) as [->|_].
    + exfalso. apply Hno. now left.
    + rewrite IH; [reflexivity|]. intros Hin. apply Hno. now right.
Qed.

Lemma leadingDigits_all (digits rest : list Ascii.ascii) :
  Forall (fun c => isDigit c = true) digits ->
  match rest with
  | c :: _ => isDigit c = false
  | [] => True
  end ->
  leadingDigits (digits ++ rest) = digits.
Proof.
  intros Hd Hrest. induction Hd as [|c digits Hc _ IH]; simpl.
  - destruct rest as [|c rest]; [reflexivity|]. simpl. now rewrite Hrest.
  - now rewrite Hc, IH.
Qed.

Lemma matchSeconds_named (name digits rest : list Ascii.ascii) :
  ~ In Chars.colon name ->
  digits <> [] ->
  Forall (fun c => isDigit c = true) digits ->
  match rest with
  | c :: _ => isDigit c = false
  | [] => True
  end ->
  matchSeconds (name ++ Chars.colon :: digits ++ rest) = Some digits.
Proof.
  intros Hno Hne Hd Hrest. induction name as [|c name IH]; simpl.
  - rewrite (leadingDigits_all digits rest Hd Hrest).
    destruct digits; [contradiction|reflexivity].
  - destruct (Ascii.eqb_spec c Chars.colon) as [->|_].
    + exfalso. apply Hno. now left.
    + apply IH. intros Hin. apply Hno. now right.
Qed.

Lemma growPhases_sum (seconds : list Z) :
  forall total,
    fold_left (fun totalSeconds m =>
                 match m with
                 | Some n => totalSeconds + n
                 | None => totalSeconds
                 end) (map Some seconds) total
    = total + fold_right Z.add 0 seconds.
Proof.
  induction seconds as [|n seconds IH]; intros total; simpl; [lia|].
  rewrite IH. lia.
Qed.

(** X27. The parsing loop of [getPlantGrowTime] reads back a grow-phase
    string: for phases written [name:digits;], with names free of colons and
    semicolons and at least one digit each, it yields the decimal value of
    the digits of each phase, in order, and the grow time of a plant with
    this string is the sum of these values. *)
Theorem growPhasesOf_render :
  forall (phases : list (list Ascii.ascii * list Ascii.ascii)),
    Forall (fun p =>
              ~ In Chars.colon (fst p) /\ ~ In Chars.semicolon (fst p)
              /\ snd p <> []
              /\ Forall (fun c => isDigit c = true) (snd p)) phases ->
    growPhasesOf (renderGrowPhases phases)
    = map (fun p => Some (parseInt (snd p))) phases
    /\ forall (C : Collaborators) (plantId : Z) (p : PlantCfg),
         plantMap !! plantId = Some p ->
         cfg_grow_phases p = growPhasesOf (renderGrowPhases phases) ->
         getPlantGrowTime plantId
         = fold_right Z.add 0 (map (fun q => parseInt (snd q)) phases).
Proof.
  intros phases Hall.
  assert (Hparse : growPhasesOf (renderGrowPhases phases)
                   = map (fun p => Some (parseInt (snd p))) phases).
  { unfold growPhasesOf, renderGrowPhases.
    induction Hall as [|[name digits] phases (Hc & Hs & Hne & Hd) _ IH].
    - reflexivity.
    - cbn [flat_map fst snd map].
      replace ((name ++ Chars.colon :: digits ++ [Chars.semicolon])
               ++ flat_map
                    (fun p =>
                       fst p ++ Chars.colon :: snd p ++ [Chars.semicolon])
                    phases)
        with ((name ++ Chars.colon :: digits) ++ Chars.semicolon
              :: flat_map
                   (fun p =>
                      fst p ++ Chars.colon :: snd p ++ [Chars.semicolon])
                   phases)
        by (rewrite <- !app_assoc; simpl; now rewrite <- app_assoc).
      rewrite splitOn_segment.
      2:{ intros Hin. apply in_app_iff in Hin.
          destruct Hin as [Hin|[Heq|Hin]]; [now apply Hs|discriminate Heq|].
          rewrite List.Forall_forall in Hd. specialize (Hd _ Hin).
          discriminate Hd. }
      cbn [List.filter].
      assert (Hfull : nonEmpty (name ++ Chars.colon :: digits) = true).
      { apply nonEmpty_true. now destruct name. }
      rewrite Hfull. cbn [map]. rewrite IH. f_equal.
      rewrite <- (app_nil_r digits) at 1.
      now rewrite (matchSeconds_named name digits [] Hc Hne Hd I). }
  split; [exact Hparse|].
  intros C plantId p Hp Hphases. unfold getPlantGrowTime.
  rewrite Hp, Hphases, Hparse.
  rewrite <- (map_map (fun q => parseInt (snd q)) Some).
  rewrite growPhases_sum. lia.
Qed.

Lemma growPhasesOf_render_witness :
  Forall (fun p =>
            ~ In Chars.colon (fst p) /\ ~ In Chars.semicolon (fst p)
            /\ snd p <> []
            /\ Forall (fun c => isDigit c = true) (snd p)) Chars.samplePhases
  /\ growPhasesOf (renderGrowPhases Chars.samplePhases)
     = map (fun p => Some (parseInt (snd p))) Chars.samplePhases.
Proof.
  assert (Hall : Forall (fun p =>
                           ~ In Chars.colon (fst p)
                           /\ ~ In Chars.semicolon (fst p)
                           /\ snd p <> []
                           /\ Forall (fun c => isDigit c = true) (snd p))
                   Chars.samplePhases).
  { repeat constructor; simpl; try discriminate;
      intros Hin; repeat (destruct Hin as [Hin|Hin]; [discriminate Hin|]);
      exact Hin. }
  split; [exact Hall|].
  exact (proj1 (growPhasesOf_render Chars.samplePhases Hall)).
Defined.

Example growPhasesOf_sample :
  renderGrowPhases Chars.samplePhases = Chars.sampleGrowPhases
  /\ growPhasesOf Chars.sampleGrowPhases = [Some 30; Some 30; Some 0].
Proof. split; reflexivity. Qed.

(** ** The login guard and the exceptions of a cycle *)

Lemma controlOf_fields (e e' : Engine) :
  controlOf e' = controlOf e ->
  isCheckingFarm e' = isCheckingFarm e /\ gid e' = gid e.
Proof.
  intros Hc. split.
  - exact (f_equal
             (fun t => fst (fst (fst (fst (fst (fst (fst (fst t)))))))) Hc).
  - exact (f_equal (fun t => snd (fst t)) Hc).
Qed.

(** X28. Not logged in, nothing happens on the wire: while the game id is
    0 and no cycle is in flight, no sequence of calls of [checkFarm], ends
    of cycles, pushes, push timers and level changes issues a remote call or
    starts a cycle. *)
Theorem no_cycle_without_gid `{Collaborators} :
  forall (srv : Server) (evs : list Event) (s : System),
    gid (engine s) = 0 ->
    inFlight s = [] ->
    Forall (fun ev => match ev with
                      | UserStateChanges _ _ _ => False
                      | _ => True
                      end) evs ->
    calls (engine (run srv s evs)) = calls (engine s)
    /\ inFlight (run srv s evs) = []
    /\ isCheckingFarm (engine (run srv s evs)) = isCheckingFarm (engine s).
Proof.
  intros srv evs. unfold run.
  induction evs as [|ev evs IH]; intros s Hgid Hin Hevs; [now simpl|].
  inversion Hevs as [|? ? Hev Hrest]; subst.
  assert (Hstep : gid (engine (step srv s ev)) = 0
                  /\ inFlight (step srv s ev) = []
                  /\ calls (engine (step srv s ev)) = calls (engine s)
                  /\ isCheckingFarm (engine (step srv s ev))
                     = isCheckingFarm (engine s)).
  { assert (Hskip : forall e, gid e = 0 -> checkFarmSkips e = true).
    { intros e He. unfold checkFarmSkips. rewrite He. apply orb_true_r. }
    destruct ev as [clk| |now lands|clk|lv|g l m]; simpl.
    - unfold callCheckFarm. rewrite (Hskip _ Hgid). auto.
    - rewrite Hin. auto.
    - unfold onLandsChangedPush.
      destruct (isCheckingFarm (engine s)) eqn:Hflag; [auto|].
      destruct (now - lastPushTime (engine s) <? 500); simpl; auto.
    - destruct (pendingChecks (engine s)) as [|n]; [auto|].
      simpl. destruct (isCheckingFarm (engine s)) eqn:Hflag; [auto|].
      unfold callCheckFarm. simpl.
      rewrite (Hskip (set_pendingChecks n (engine s)) Hgid). simpl. auto.
    - destruct (controlOf_fields _ _ (onLevelChanged_control lv (engine s)))
        as [Hflag Hg].
      split; [now rewrite Hg|]. split; [exact Hin|].
      split; [|exact Hflag].
      unfold onLevelChanged.
      destruct (lv =? 0); [reflexivity|].
      destruct (lastUnlockedCount (engine s) =? 0)%nat; [reflexivity|].
      exact (f_equal (fun t => snd (fst (fst t)))
               (ensureBestSeedCache_outside lv
                  (Z.of_nat (lastUnlockedCount (engine s))) (engine s))).
    - contradiction. }
  destruct Hstep as (Hgid' & Hin' & Hcalls & Hflag).
  simpl. destruct (IH (step srv s ev) Hgid' Hin' Hrest) as (C & I & G).
  rewrite C, I, G. auto.
Qed.

Lemma no_cycle_without_gid_witness :
  gid (engine (initialSystem 0 5 100)) = 0
  /\ inFlight (initialSystem 0 5 100) = []
  /\ calls (engine (run quietFarm (initialSystem 0 5 100)
                      [CheckFarmCalled
                        (mkCycleClock 200 200 (fun _ => 200) 1100);
                       LandsChanged 1000 [1];
                       PushTimerFires
                         (mkCycleClock 1200 1200 (fun _ => 1200) 1200);
                       CycleEnds]))
     = calls (engine (initialSystem 0 5 100)).
Proof.
  assert (H1 : gid (engine (initialSystem 0 5 100)) = 0) by reflexivity.
  assert (H2 : inFlight (initialSystem 0 5 100) = []) by reflexivity.
  split; [exact H1|]. split; [exact H2|].
  refine (proj1 (no_cycle_without_gid quietFarm _ (initialSystem 0 5 100)
                   H1 H2 _)).
  repeat constructor.
Defined.

(** X29. The only exception that leaves the [try] block of [checkFarm] is
    a failed fetch of the plots: the block throws exactly when a refresh is
    due and the [AllLands] call does not return the plots; every failure of
    a later call is caught inside the block. *)
Theorem checkFarmTry_throws_only_on_fetch `{Collaborators} :
  forall (srv : Server) (clk : CycleClock) (e : Engine),
    fst (checkFarmTry srv clk e) = None
    <-> shouldCheckFarmNow e (atDecision clk) = true
        /\ forall lands,
             srv (length (calls e)) AllLands <> Some (AllLandsReply lands).
Proof.
  intros srv clk e.
  destruct (shouldCheckFarmNow e (atDecision clk)) eqn:Hdue.
  - rewrite checkFarmTry_parts by exact Hdue. cbv zeta.
    destruct (srv (length (calls e)) AllLands) as [[|lands| | |]|];
      try (split; [intros _; split; [reflexivity|discriminate]|reflexivity]).
    split; [|intros [_ Hno]; now contradiction (Hno lands)].
    intros Hthrow. exfalso.
    destruct (nonEmpty lands); [|discriminate Hthrow].
    destruct (recordAnalysis_effect (analyzeLands lands (atAnalysis clk) (atPhase clk))
                (atSnapshot clk) (set_calls (calls e ++ [AllLands]) e))
      as (e1 & Hrec & _).
    rewrite Hrec in Hthrow.
    exact (returns_actOn srv (analyzeLands lands (atAnalysis clk) (atPhase clk)) e1 Hthrow).
  - split; [|intros [Hd _]; discriminate Hd].
    unfold checkFarmTry, bind, gets. rewrite Hdue. discriminate.
Qed.

(** The calls of a cycle that passed the guard with a refresh due start
    with the fetch. *)
Lemma checkFarmLeave_fetches `{Collaborators} (srv : Server)
  (clk : CycleClock) (e : Engine) :
  shouldCheckFarmNow e (atDecision clk) = true ->
  exists tail, calls (checkFarmLeave srv clk e) = calls e ++ AllLands :: tail.
Proof.
  intros Hdue. unfold checkFarmLeave.
  rewrite checkFarmTry_parts by exact Hdue. cbv zeta.
  destruct (srv (length (calls e)) AllLands) as [[|lands| | |]|];
    try (exists []; reflexivity).
  destruct (nonEmpty lands); [|exists []; reflexivity].
  destruct (recordAnalysis_effect (analyzeLands lands (atAnalysis clk) (atPhase clk))
              (atSnapshot clk) (set_calls (calls e ++ [AllLands]) e))
    as (e1 & -> & _ & _ & _ & _ & _ & Hsame).
  assert (Hcalls : calls e1 = calls e ++ [AllLands])
    by exact (f_equal (fun t => snd (fst (fst t))) Hsame).
  destruct (actOn_calls srv (analyzeLands lands (atAnalysis clk) (atPhase clk)) e1)
    as (tail & Hact & _).
  exists (batchCalls (analyzeLands lands (atAnalysis clk) (atPhase clk)) ++ tail).
  destruct (actOn srv (analyzeLands lands (atAnalysis clk) (atPhase clk)) e1)
    as [[[]|] e2]; simpl in *; rewrite Hact, Hcalls;
    now rewrite <- app_assoc.
Qed.

(** X30. An accepted push leads to a fetch: when the player is logged in,
    no cycle is running and the last accepted push is at least 500 ms old, a
    push followed by its timer and by the end of the cycle the timer starts
    makes the engine fetch the plots, whatever the snapshot says, and the
    cycle ends with the guard clear. *)
Theorem push_triggers_fetch `{Collaborators} :
  forall (srv : Server) (s : System) (now : Z) (lands : list Z)
         (clk : CycleClock),
    isCheckingFarm (engine s) = false ->
    inFlight s = [] ->
    gid (engine s) <> 0 ->
    500 <= now - lastPushTime (engine s) ->
    let s' := run srv s [LandsChanged now lands; PushTimerFires clk;
                         CycleEnds] in
    (exists tail,
        calls (engine s') = calls (engine s) ++ AllLands :: tail)
    /\ isCheckingFarm (engine s') = false
    /\ inFlight s' = []
    /\ pendingChecks (engine s') = pendingChecks (engine s).
Proof.
  intros srv s now lands clk Hflag Hin Hgid Hold s'. subst s'.
  unfold run. cbn [fold_left].
  assert (H1 : step srv s (LandsChanged now lands)
               = mkSystem
                   (set_pendingChecks (S (pendingChecks (engine s)))
                      (set_forceFarmCheck true
                         (set_lastPushTime now (engine s)))) []).
  { simpl. unfold onLandsChangedPush. rewrite Hflag, Hin.
    destruct (Z.ltb_spec (now - lastPushTime (engine s)) 500) as [|_];
      [lia|reflexivity]. }
  rewrite H1. clear H1.
  set (e1 := set_forceFarmCheck true (set_lastPushTime now (engine s))).
  assert (H2 : step srv
                 (mkSystem (set_pendingChecks (S (pendingChecks (engine s)))
                              e1) [])
                 (PushTimerFires clk)
               = mkSystem
                   (set_isCheckingFarm true
                      (set_pendingChecks (pendingChecks (engine s)) e1))
                   [clk]).
  { simpl. rewrite Hflag. unfold callCheckFarm, checkFarmSkips. simpl.
    rewrite Hflag. apply Z.eqb_neq in Hgid. rewrite Hgid. reflexivity. }
  rewrite H2. clear H2.
  set (e2 := set_isCheckingFarm true
               (set_pendingChecks (pendingChecks (engine s)) e1)).
  cbn [step inFlight engine].
  assert (Hdue : shouldCheckFarmNow e2 (atDecision clk) = true).
  { unfold shouldCheckFarmNow. simpl.
    now destruct (isFirstFarmCheck (engine s)). }
  destruct (checkFarmLeave_fetches srv clk e2 Hdue) as [tail Htail].
  destruct (checkFarmLeave_guard srv clk e2) as (G1 & _ & G3).
  split; [exists tail; exact Htail|].
  split; [exact G1|]. split; [reflexivity|]. exact G3.
Qed.

Lemma push_triggers_fetch_witness :
  isCheckingFarm (engine (mkSystem restingEngine [])) = false
  /\ gid (engine (mkSystem restingEngine [])) <> 0
  /\ 500 <= 5000 - lastPushTime (engine (mkSystem restingEngine []))
  /\ exists tail,
       calls (engine (run quietFarm (mkSystem restingEngine [])
                        [LandsChanged 5000 [1];
                         PushTimerFires
                           (mkCycleClock 300 300 (fun _ => 300) 5100);
                         CycleEnds]))
       = calls (engine (mkSystem restingEngine [])) ++ AllLands :: tail.
Proof.
  assert (H1 : isCheckingFarm (engine (mkSystem restingEngine [])) = false)
    by (vm_compute; reflexivity).
  assert (H2 : gid (engine (mkSystem restingEngine [])) <> 0)
    by (vm_compute; discriminate).
  assert (H3 : 500 <= 5000 - lastPushTime (engine (mkSystem restingEngine [])))
    by (vm_compute; discriminate).
  split; [exact H1|]. split; [exact H2|]. split; [exact H3|].
  exact (proj1 (push_triggers_fetch quietFarm (mkSystem restingEngine []) 5000
                  [1] (mkCycleClock 300 300 (fun _ => 300) 5100)
                  H1 eq_refl H2 H3)).
Defined.
